(** * Blackjack payout trainer: the calculation core of [script.js]

    A shallow embedding of the logic-bearing classes of the trainer
    ([Card], [Hand], [BlackjackScenario], [ScenarioManager],
    [PayoutCalculator], [Chip], [ChipManager], [GameState]) together with
    the properties stated about them.

    Conventions of the embedding:
    - JavaScript numbers that hold money are modelled as exact rationals
      ([Q]); [Math.floor] is [Qfloor], [Math.round x] is [Qfloor (x + 1/2)]
      and [Math.abs] is [Qabs].  The bets, payouts and chip values of the
      trainer are multiples of 0.5 of moderate size, on which the
      arithmetic of IEEE doubles is exact.
    - JavaScript numbers that hold counts or hand totals are integers ([Z]),
      loop counters that only count down are [nat].
    - [Math.random] is an oracle: a function from the number of draws made
      so far to a natural number, reduced modulo the requested bound.
    - The time statistics can hold [Infinity], [NaN] and [null]; they are
      numbers and values of the module [Js].
    - A callback handed to [setTimeout] is kept as a timer: its delay and
      what it does when it fires.
    - DOM updates, logging and [localStorage] writes are not modelled. *)

From Stdlib Require Import ZArith QArith Qround Qabs List String Bool Lia Lqa
  Permutation Sorted.
From stdpp Require Import base list.
Import ListNotations.

Local Open Scope Z_scope.

(** ** Card *)

Module Card.

Inductive Suit : Set := hearts | diamonds | clubs | spades.

(** The thirteen rank strings ['A'], ['2'] .. ['10'], ['J'], ['Q'], ['K']. *)
Inductive Rank : Set :=
| rA | r2 | r3 | r4 | r5 | r6 | r7 | r8 | r9 | r10 | rJ | rQ | rK.

(** [suit] and [rank] are the constructor arguments; the fields [value]
    and [display] of the class are computed from them once, in the
    constructor, and never assigned again, so they are functions here. *)
Record t : Set := new { suit : Suit; rank : Rank }.

(** [getCardValue]: ace high initially, faces 10, [parseInt] otherwise. *)
Definition getCardValue (r : Rank) : Z :=
  match r with
  | rA => 11
  | rK | rQ | rJ => 10
  | r2 => 2 | r3 => 3 | r4 => 4 | r5 => 5 | r6 => 6
  | r7 => 7 | r8 => 8 | r9 => 9 | r10 => 10
  end.

Definition value (c : t) : Z := getCardValue (rank c).

(** [===] on ranks, suits and card faces. *)
Scheme Equality for Suit.
Scheme Equality for Rank.

Definition eqb (a b : t) : bool :=
  Suit_beq (suit a) (suit b) && Rank_beq (rank a) (rank b).

Definition isAce (c : t) : bool :=
  match rank c with rA => true | _ => false end.

(** [['10','J','Q','K'].includes(card.rank)] *)
Definition isTenRank (c : t) : bool :=
  match rank c with r10 | rJ | rQ | rK => true | _ => false end.

End Card.

(** ** Hand *)

Module Hand.

Record t : Set := mk {
  cards : list Card.t;
  value : Z;
  softAces : nat;
  isBlackjack : bool;
  isBust : bool
}.

(** [new Hand()] *)
Definition new : t := mk [] 0 0 false false.

(** The [for (const card of this.cards)] loop: running total and number
    of aces seen. *)
Definition addUp (acc : Z * nat) (card : Card.t) : Z * nat :=
  (fst acc + Card.value card,
   if Card.isAce card then S (snd acc) else snd acc).

(** The [while (this.value > 21 && this.softAces > 0)] loop. *)
Fixpoint convertAces (value : Z) (softAces : nat) : Z * nat :=
  match softAces with
  | O => (value, O)
  | S rest =>
      if 21 <? value then convertAces (value - 10) rest
      else (value, softAces)
  end.

Definition calculateValue (h : t) : t :=
  let summed := fold_left addUp (cards h) (0, O) in
  let final := convertAces (fst summed) (snd summed) in
  mk (cards h) (fst final) (snd final)
     ((fst final =? 21) && (Nat.eqb (List.length (cards h)) 2))
     (21 <? fst final).

(** [this.cards.push(card); this.calculateValue()] *)
Definition addCard (card : Card.t) (h : t) : t :=
  calculateValue (mk (cards h ++ [card]) (value h) (softAces h)
                     (isBlackjack h) (isBust h)).

(** Sum of the cards with every ace counted as 11. *)
Definition highSum (cs : list Card.t) : Z :=
  fold_right (fun c acc => Card.value c + acc) 0 cs.

(** Number of aces among the cards. *)
Definition aceCount (cs : list Card.t) : nat :=
  List.length (List.filter Card.isAce cs).

(** Sum of the cards with every ace counted as 1. *)
Definition lowSum (cs : list Card.t) : Z :=
  highSum cs - 10 * Z.of_nat (aceCount cs).

(** [isSoft]: the hand holds an ace still counted as 11. *)
Definition isSoft (h : t) : bool := (0 <? softAces h)%nat.

End Hand.

(** ** Chip *)

Module Chip.

(** The DOM identifier [id], a string rendering of [value], is left out. *)
Record t : Set := mk {
  value : Q;
  color : string;
  label : string;
  count : Z;
  selected : Z
}.

(** [new Chip(value, color, label)]: 50 chips in the tray, none selected. *)
Definition new (value : Q) (color label : string) : t :=
  mk value color label 50 0.

Definition canSelect (c : t) : bool := selected c <? count c.

Definition withSelected (n : Z) (c : t) : t :=
  mk (value c) (color c) (label c) (count c) n.

(** The methods mutate [this] and return a flag: the result pairs the
    flag with the chip afterwards. *)
Definition select (c : t) : bool * t :=
  if canSelect c then (true, withSelected (selected c + 1) c)
  else (false, c).

Definition deselect (c : t) : bool * t :=
  if 0 <? selected c then (true, withSelected (selected c - 1) c)
  else (false, c).

Definition getSelectedValue (c : t) : Q :=
  (value c * inject_Z (selected c))%Q.

Definition resetSelection (c : t) : t := withSelected 0 c.

(** The selection invariant of a chip. *)
Definition inv (c : t) : Prop := 0 <= selected c <= count c.

End Chip.

(** [ChipManager.chips], in the order of the constructor. *)
Definition standardChips : list Chip.t :=
  [ Chip.new 1 "chip-1" "$1";
    Chip.new 2.5 "chip-2-50" "$2.50";
    Chip.new 5 "chip-5" "$5";
    Chip.new 25 "chip-25" "$25";
    Chip.new 100 "chip-100" "$100";
    Chip.new 500 "chip-500" "$500";
    Chip.new 1000 "chip-1000" "$1000" ].

(** ** ChipManager *)

Module ChipManager.

(** The state of a chip manager is its array [chips]; a chip object of
    the array is named by its position. *)
Definition t : Set := list Chip.t.

Definition new : t := standardChips.

(** [this.chips.filter(chip => chip.selected > 0)] *)
Definition getSelectedChips (chips : t) : list Chip.t :=
  List.filter (fun chip => 0 <? Chip.selected chip) chips.

(** [this.chips.reduce((total, chip) => total + chip.getSelectedValue(), 0)] *)
Definition getTotalValue (chips : t) : Q :=
  fold_left (fun total chip => total + Chip.getSelectedValue chip)%Q chips 0%Q.

(** [this.chips.reduce((total, chip) => total + chip.selected, 0)] *)
Definition getTotalChipCount (chips : t) : Z :=
  fold_left (fun total chip => total + Chip.selected chip) chips 0.

Record BreakdownLine : Set := mkLine {
  denomination : string;
  count : Z;
  value : Q;
  totalValue : Q
}.

Definition getSelectedChipsBreakdown (chips : t) : list BreakdownLine :=
  List.map (fun chip => mkLine (Chip.label chip) (Chip.selected chip)
                               (Chip.value chip) (Chip.getSelectedValue chip))
           (List.filter (fun chip => 0 <? Chip.selected chip) chips).

(** [selectChip(chip, event)] for the chip at position [i]: nothing
    happens unless [chip.canSelect()], otherwise [chip.select()].  The
    callers pass chips of the array only; for a position outside it the
    array is left alone. *)
Definition selectChip (i : nat) (chips : t) : t :=
  match chips !! i with
  | Some chip =>
      if negb (Chip.canSelect chip) then chips
      else
        let (done, chip') := Chip.select chip in
        if done then <[i := chip']> chips else chips
  | None => chips
  end.

(** [removeChipFromPayout(chip, ...)] for the chip at position [i]. *)
Definition removeChipFromPayout (i : nat) (chips : t) : t :=
  match chips !! i with
  | Some chip =>
      let (done, chip') := Chip.deselect chip in
      if done then <[i := chip']> chips else chips
  | None => chips
  end.

(** A timer set by [setTimeout]: its delay in milliseconds, and what its
    callback does to the chips of the manager when it fires. *)
Record Timer : Type := mkTimer { delay : Z; callback : t -> t }.

(** The callback that [clearAllSelections] hands to [setTimeout]:
    [this.chips.forEach(chip => chip.resetSelection())], on the chips as
    they are when the timer fires. *)
Definition resetAll (chips : t) : t := List.map Chip.resetSelection chips.

(** [clearAllSelections()]: the chips are left as they are when the call
    returns; the reset is only scheduled, [payoutChips.length * 50 + 300]
    milliseconds ahead, where [payoutChips] are the chip elements found
    in the payout area.  The timers of the fade-out animation write
    styles only. *)
Definition clearAllSelections (payoutChips : nat) (chips : t) : t * Timer :=
  (chips, mkTimer (Z.of_nat payoutChips * 50 + 300) resetAll).

(** [this.chips.find(chip => chip.value === value)] *)
Definition getChipByValue (value : Q) (chips : t) : option Chip.t :=
  List.find (fun chip => Qeq_bool (Chip.value chip) value) chips.

(** [Math.abs(currentTotal - targetAmount) < 0.01] *)
Definition validateSelection (targetAmount : Q) (chips : t) : bool :=
  negb (Qle_bool 0.01 (Qabs (getTotalValue chips - targetAmount))).

(** The index computed by [focusNextChip(currentIndex)]:
    [(currentIndex + 1) % this.chips.length]. *)
Definition nextIndex (chips : t) (currentIndex : Z) : Z :=
  Z.rem (currentIndex + 1) (Z.of_nat (List.length chips)).

(** The index computed by [focusPreviousChip(currentIndex)]. *)
Definition prevIndex (chips : t) (currentIndex : Z) : Z :=
  if currentIndex =? 0 then Z.of_nat (List.length chips) - 1
  else currentIndex - 1.

(** The totals of a breakdown: all [totalValue] fields and all [count]
    fields added up. *)
Definition breakdownValue (lines : list BreakdownLine) : Q :=
  fold_right (fun line sum => totalValue line + sum)%Q 0%Q lines.

Definition breakdownCount (lines : list BreakdownLine) : Z :=
  fold_right (fun line sum => count line + sum) 0 lines.

End ChipManager.

(** [for (let i = 0; i < n; i++) chip.select()] *)
Definition selectTimes (n : nat) (chip : Chip.t) : Chip.t :=
  Nat.iter n (fun c => snd (Chip.select c)) chip.

(** ** Numbers that need not be finite *)

Module Js.

(** A JavaScript number as the time statistics meet it: a finite number,
    held as an exact rational, or one of [Infinity], [-Infinity] and
    [NaN].  Zero has no sign here: the zeros this code divides by are
    counts. *)
Inductive number : Set :=
| Finite (x : Q)
| Infinity
| NegInfinity
| NaN.

(** The result of an arithmetic operation, in lowest terms, so that equal
    results are the same number. *)
Definition finite (x : Q) : number := Finite (Qred x).

(** What a field of the statistics holds: a number, or the [null] that
    [JSON.stringify] writes for [Infinity] and [NaN] and that
    [loadProgress] reads back. *)
Inductive value : Set :=
| Number (n : number)
| Null.

(** [ToNumber], applied by the arithmetic operators: [null] counts as 0. *)
Definition toNumber (v : value) : number :=
  match v with
  | Number n => n
  | Null => Finite 0
  end.

(** [a / b] *)
Definition div (a b : number) : number :=
  match a, b with
  | NaN, _ | _, NaN => NaN
  | Finite x, Finite y =>
      if Qeq_bool y 0 then
        if negb (Qle_bool x 0) then Infinity
        else if negb (Qle_bool 0 x) then NegInfinity
        else NaN
      else finite (x / y)
  | Finite _, (Infinity | NegInfinity) => Finite 0
  | Infinity, Finite y => if Qle_bool 0 y then Infinity else NegInfinity
  | NegInfinity, Finite y => if Qle_bool 0 y then NegInfinity else Infinity
  | _, _ => NaN
  end.

(** [Math.floor(a)] *)
Definition floor (a : number) : number :=
  match a with
  | Finite x => Finite (inject_Z (Qfloor x))
  | other => other
  end.

(** The whole part of a rational, rounded toward zero. *)
Definition Qtrunc (x : Q) : Z := Z.quot (Qnum x) (Zpos (Qden x)).

(** [a % b]: the remainder has the sign of the dividend. *)
Definition rem (a b : number) : number :=
  match a, b with
  | Finite x, Finite y =>
      if Qeq_bool y 0 then NaN
      else finite (x - y * inject_Z (Qtrunc (x / y)))
  | Finite x, (Infinity | NegInfinity) => Finite x
  | _, _ => NaN
  end.

(** [a > b]; any comparison with [NaN] is false. *)
Definition gtb (a b : number) : bool :=
  match a, b with
  | Finite x, Finite y => negb (Qle_bool x y)
  | Infinity, (Finite _ | NegInfinity) => true
  | Finite _, NegInfinity => true
  | _, _ => false
  end.

End Js.

(** ** GameState *)

Module GameState.

Inductive Phase : Set := waiting | playing | feedback | complete.

Record Score : Set := mkScore { correct : Z; total : Z; accuracy : Z }.

(** The clock readings [startTime] and [averageTime] (and the
    [scenarioStartTime] they are computed from) are left out: they are
    read from [Date.now] and no score or streak depends on them. *)
Record SessionStats : Set := mkStats {
  scenariosCompleted : Z;
  bestStreak : Z;
  currentStreak : Z
}.

(** Of the fields of the class, those that the phase and score methods
    below read or write. *)
Record t : Set := mk {
  score : Score;
  sessionStats : SessionStats;
  gameActive : bool;
  gamePhase : Phase
}.

(** The constructor, before any saved progress is loaded. *)
Definition new : t :=
  mk (mkScore 0 0 0) (mkStats 0 0 0) false waiting.

Definition enterFeedbackPhase (g : t) : t :=
  mk (score g) (sessionStats g) false feedback.

Definition completeScenario (g : t) : t :=
  let st := sessionStats g in
  mk (score g)
     (mkStats (scenariosCompleted st + 1) (bestStreak st) (currentStreak st))
     (gameActive g) waiting.

Definition recordCorrect (g : t) : t :=
  let sc := mkScore (correct (score g) + 1) (total (score g) + 1)
                    (accuracy (score g)) in
  let streak := currentStreak (sessionStats g) + 1 in
  let best := if bestStreak (sessionStats g) <? streak then streak
              else bestStreak (sessionStats g) in
  completeScenario
    (mk sc (mkStats (scenariosCompleted (sessionStats g)) best streak)
        (gameActive g) (gamePhase g)).

Definition recordIncorrect (g : t) : t :=
  mk (mkScore (correct (score g)) (total (score g) + 1) (accuracy (score g)))
     (mkStats (scenariosCompleted (sessionStats g))
              (bestStreak (sessionStats g)) 0)
     (gameActive g) (gamePhase g).

(** What [BlackjackPayoutTrainer.submitPayout] does to the game state
    once the payout has been validated: the feedback phase is entered and the answer is recorded
    as correct or as incorrect. *)
Definition submitPayout (isCorrect : bool) (g : t) : t :=
  if isCorrect then recordCorrect (enterFeedbackPhase g)
  else recordIncorrect (enterFeedbackPhase g).

(** A session: the submissions of a list of answers, one after the
    other ([true] for a payout that validated). *)
Definition submitAll (answers : list bool) (g : t) : t :=
  fold_left (fun g isCorrect => submitPayout isCorrect g) answers g.

(** [n] correct answers in a row occur somewhere in the list, and at its
    end. *)
Definition hasRun (n : nat) (answers : list bool) : Prop :=
  exists before after, answers = before ++ repeat true n ++ after.

Definition endsInRun (n : nat) (answers : list bool) : Prop :=
  exists before, answers = before ++ repeat true n.

(** The text produced by [formatTime], kept as the template chosen and
    the two numbers spliced into it; [Infinity] and [NaN] are spliced in
    as the words ['Infinity'] and ['NaN']. *)
Inductive TimeText : Set :=
| MinutesSeconds (minutes remainingSeconds : Js.number) (* `${m}m ${s}s` *)
| SecondsOnly (remainingSeconds : Js.number).           (* `${s}s` *)

(** [formatTime(ms)], on whatever [getSessionStats] passes:
    [sessionStats.averageTime] is [Infinity] or [NaN] once
    [updateSessionStats] has divided by a count of 0, and [null] when such
    a value has gone through the saved progress. *)
Definition formatTime (ms : Js.value) : TimeText :=
  let seconds := Js.floor (Js.div (Js.toNumber ms) (Js.Finite 1000)) in
  let minutes := Js.floor (Js.div seconds (Js.Finite 60)) in
  let remainingSeconds := Js.rem seconds (Js.Finite 60) in
  if Js.gtb minutes (Js.Finite 0)
  then MinutesSeconds minutes remainingSeconds
  else SecondsOnly remainingSeconds.

(** An entry of the session history.  [date] is the day as
    [YYYY-MM-DD]; [accuracy] and [performance] are what [getAccuracy] and
    [getPerformanceRating] returned when the entry was made. *)
Record SessionData : Set := mkSession {
  date : string;
  sessionScore : Score;
  sessionStatsCopy : SessionStats;
  accuracyThen : Z;
  performance : string;
  timestamp : Z
}.

(** [history.slice(-n)]: the last [n] entries. *)
Definition lastEntries (n : nat) (history : list SessionData)
    : list SessionData :=
  drop (List.length history - n) history.

(** What [saveToHistory] writes back for the stored [history]: nothing
    new unless an answer has been given; otherwise today's entry replaces
    any entry of the same date, and the last 30 entries are kept.
    [today], [now], [accuracy] and [rating] are the readings of the clock
    and of [getAccuracy] and [getPerformanceRating]. *)
Definition saveToHistory (today : string) (now accuracy : Z) (rating : string)
    (g : t) (history : list SessionData) : list SessionData :=
  if 0 <? total (score g) then
    let sessionData :=
      mkSession today (score g) (sessionStats g) accuracy rating now in
    let history :=
      List.filter (fun entry => negb (date entry =? date sessionData)%string)
                  history in
    let history := history ++ [sessionData] in
    lastEntries 30 history
  else history.

End GameState.

(** ** BlackjackScenario *)

Module BlackjackScenario.

Record t : Set := mk {
  playerHand : Hand.t;
  dealerHand : Hand.t;
  betAmount : Q;
  result : string;
  correctPayout : Q;
  payoutRatio : string
}.

(** Always ['blackjack']: the trainer forces the result. *)
Definition determineResult : string := "blackjack".

Definition calculateCorrectPayout (betAmount : Q) : Q :=
  (betAmount * 1.5)%Q.

Definition getPayoutRatio (result : string) : string :=
  if (result =? "blackjack")%string then "3:2"
  else if (result =? "win")%string then "1:1"
  else if (result =? "push")%string then "Push"
  else if (result =? "lose")%string then "Lose"
  else "Unknown".

(** The constructor. *)
Definition new (playerHand dealerHand : Hand.t) (betAmount : Q) : t :=
  let result := determineResult in
  mk playerHand dealerHand betAmount result
     (calculateCorrectPayout betAmount) (getPayoutRatio result).

End BlackjackScenario.

(** ** PayoutCalculator *)

Module PayoutCalculator.

(** [this.payoutRules] and [this.tolerance]. *)
Definition payoutRules_blackjack : Q := 1.5.
Definition payoutRules_win : Q := 1.0.
Definition payoutRules_push : Q := 0.0.
Definition payoutRules_lose : Q := 0.0.
Definition tolerance : Q := 0.01.

(** [x < y] on numbers, as a boolean. *)
Definition Qlt_bool (x y : Q) : bool := negb (Qle_bool y x).

(** [calculatePayout].  A falsy scenario ([null], [undefined]) is [None]. *)
Definition calculatePayout (scenario : option BlackjackScenario.t) : Q :=
  match scenario with
  | None => 0
  | Some sc =>
      let betAmount := BlackjackScenario.betAmount sc in
      let result := BlackjackScenario.result sc in
      if (result =? "blackjack")%string then (betAmount * 1.5)%Q
      else if (result =? "win")%string then (betAmount * payoutRules_win)%Q
      else if (result =? "push")%string then 0
      else if (result =? "lose")%string then 0
      else 0
  end%Q.

(** The text of a validation message, kept as the template chosen and
    the values spliced into it ([toFixed] rendering is not modelled). *)
Inductive Message : Set :=
| NoScenarioProvided
    (* 'No scenario provided' *)
| Success (result : string) (betAmount correctAmount : Q)
    (* getSuccessMessage(result, betAmount, correctAmount) *)
| Failure (result : string) (betAmount selectedAmount correctAmount : Q).
    (* getErrorMessage(result, betAmount, selectedAmount, correctAmount) *)

Definition getValidationMessage (sc : BlackjackScenario.t)
    (selectedAmount correctAmount : Q) (isCorrect : bool) : Message :=
  let betAmount := BlackjackScenario.betAmount sc in
  let result := BlackjackScenario.result sc in
  if isCorrect then Success result betAmount correctAmount
  else Failure result betAmount selectedAmount correctAmount.

(** The object returned by [validatePayout]; the fields that the
    early-return object lacks are [None] there. *)
Record ValidationResult : Set := mkResult {
  isCorrect : bool;
  correctAmount : option Q;
  selectedAmount : option Q;
  difference : option Q;
  message : Message
}.

Definition validatePayout (scenario : option BlackjackScenario.t)
    (selectedAmount : Q) : ValidationResult :=
  match scenario with
  | None => mkResult false None None None NoScenarioProvided
  | Some sc =>
      let correctPayout := calculatePayout scenario in
      let isCorrect :=
        Qlt_bool (Qabs (selectedAmount - correctPayout)%Q) tolerance in
      mkResult isCorrect (Some correctPayout) (Some selectedAmount)
        (Some (selectedAmount - correctPayout)%Q)
        (getValidationMessage sc selectedAmount correctPayout isCorrect)
  end.

(** [Math.round(x * 100) / 100] *)
Definition round2 (x : Q) : Q :=
  (inject_Z (Qfloor (x * 100 + 0.5)%Q) / 100)%Q.

(** [[...availableChips].sort((a, b) => b.value - a.value)]: a stable
    sort by descending value, written as an insertion sort. *)
Fixpoint insertDesc (c : Chip.t) (sorted : list Chip.t) : list Chip.t :=
  match sorted with
  | [] => [c]
  | d :: rest =>
      if Qle_bool (Chip.value d) (Chip.value c) then c :: d :: rest
      else d :: insertDesc c rest
  end.

Definition sortDesc (chips : list Chip.t) : list Chip.t :=
  fold_right insertDesc [] chips.

(** One turn of the [for (const chip of sortedChips)] loop; the state is
    the [result] array and [remaining]. *)
Definition takeChip (acc : list (Chip.t * Z) * Q) (chip : Chip.t)
    : list (Chip.t * Z) * Q :=
  let remaining := snd acc in
  let count := Qfloor (remaining / Chip.value chip)%Q in
  if 0 <? count then
    (fst acc ++ [(chip, count)],
     round2 (remaining - inject_Z count * Chip.value chip)%Q)
  else acc.

(** [calculateOptimalChips]; [None] is the [null] result. *)
Definition calculateOptimalChips (payoutAmount : Q)
    (availableChips : list Chip.t) : option (list (Chip.t * Z)) :=
  if Qle_bool payoutAmount 0 then Some []
  else
    let sortedChips := sortDesc availableChips in
    let final := fold_left takeChip sortedChips ([], payoutAmount) in
    if Qlt_bool (snd final) tolerance then Some (fst final) else None.

(** An entry of [chipDenominations], and of the array returned by
    [calculateBetChips] (where [stack] is the added [count] field). *)
Record BetChip : Set := mkBetChip {
  value : Q;
  color : string;
  label : string;
  stack : Z
}.

Definition chipDenominations : list BetChip :=
  [ mkBetChip 1000 "chip-1000" "$1K" 0;
    mkBetChip 500 "chip-500" "$500" 0;
    mkBetChip 100 "chip-100" "$100" 0;
    mkBetChip 25 "chip-25" "$25" 0;
    mkBetChip 5 "chip-5" "$5" 0;
    mkBetChip 2.5 "chip-2-50" "$2.50" 0;
    mkBetChip 1 "chip-1" "$1" 0 ].

(** One turn of the [for (const chipType of chipDenominations)] loop. *)
Definition takeBetChip (acc : list BetChip * Q) (chipType : BetChip)
    : list BetChip * Q :=
  let remaining := snd acc in
  let count := Qfloor (remaining / value chipType)%Q in
  let count :=
    if Qeq_bool (value chipType) 25 && (0 <? count) then
      Z.min count (Qfloor (remaining / 25)%Q)
    else if Qeq_bool (value chipType) 5 && (0 <? count) then
      Z.min count (Qfloor (remaining / 5)%Q)
    else count in
  if 0 <? count then
    (fst acc ++ [mkBetChip (value chipType) (color chipType)
                           (label chipType) count],
     round2 (remaining - inject_Z count * value chipType)%Q)
  else acc.

Definition calculateBetChips (betAmount : Q) : list BetChip :=
  fst (fold_left takeBetChip chipDenominations ([], betAmount)).

(** [reduce((sum, item) => sum + item.chip.value * item.count, 0)] *)
Definition totalValue (combo : list (Chip.t * Z)) : Q :=
  fold_left (fun sum item => sum + Chip.value (fst item) * inject_Z (snd item))%Q
            combo 0%Q.

(** What a combination says, chip objects aside: the value of each
    denomination used and how many of it, in the order of the array. *)
Definition denominations (combo : list (Chip.t * Z)) : list (Q * Z) :=
  List.map (fun item => (Chip.value (fst item), snd item)) combo.

Definition betDenominations (stacks : list BetChip) : list (Q * Z) :=
  List.map (fun b => (value b, stack b)) stacks.

(** The two loops in step: the same pairs collected, the same amount
    left. *)
Definition inStep (a : list (Chip.t * Z) * Q) (b : list BetChip * Q)
    : Prop :=
  denominations (fst a) = betDenominations (fst b) /\ snd a = snd b.

(** [this.payoutRules[result]] for the properties the object itself
    has. *)
Definition payoutRule (result : string) : option Q :=
  if (result =? "blackjack")%string then Some payoutRules_blackjack
  else if (result =? "win")%string then Some payoutRules_win
  else if (result =? "push")%string then Some payoutRules_push
  else if (result =? "lose")%string then Some payoutRules_lose
  else None.

(** The names every object inherits from [Object.prototype]: looked up in
    [payoutRules] they give a function or an object, not [undefined]. *)
Definition objectPrototypeMembers : list string :=
  [ "constructor"; "hasOwnProperty"; "isPrototypeOf"; "propertyIsEnumerable";
    "toLocaleString"; "toString"; "valueOf"; "__proto__";
    "__defineGetter__"; "__defineSetter__"; "__lookupGetter__";
    "__lookupSetter__" ]%string.

(** The value of [this.payoutRules[result] || 0]: a number, or the
    inherited member found under that name. *)
Inductive Multiplier : Set :=
| Number (q : Q)
| InheritedMember (name : string).

Definition payoutMultiplierOf (result : string) : Multiplier :=
  match payoutRule result with
  | Some q => if Qeq_bool q 0 then Number 0 else Number q
  | None =>
      if List.existsb (String.eqb result) objectPrototypeMembers
      then InheritedMember result
      else Number 0
  end.

(** The object returned by [getPayoutBreakdown], without its
    [explanation] text. *)
Record PayoutBreakdown : Set := mkBreakdown {
  breakdownBet : Q;
  breakdownResult : string;
  payoutMultiplier : Multiplier;
  payoutAmount : Q;
  totalReturn : Q
}.

Definition getPayoutBreakdown (scenario : option BlackjackScenario.t)
    : option PayoutBreakdown :=
  match scenario with
  | None => None
  | Some sc =>
      let betAmount := BlackjackScenario.betAmount sc in
      let result := BlackjackScenario.result sc in
      let payout := calculatePayout scenario in
      Some (mkBreakdown betAmount result (payoutMultiplierOf result) payout
              (if (result =? "push")%string then betAmount
               else if (result =? "lose")%string then 0
               else betAmount + payout)%Q)
  end.

(** A chip worth a positive whole number of cents. *)
Definition wholeCents (chip : Chip.t) : Prop :=
  exists cents : positive, (Chip.value chip == inject_Z (Z.pos cents) / 100)%Q.

(** The state of the greedy loop is on track for [amount]: every count
    taken so far is positive, and either nothing has been taken and all
    of the amount is left, or a whole number of cents is left and what is
    taken plus what is left is within half a cent of the amount. *)
Definition onTrack (amount : Q) (acc : list (Chip.t * Z) * Q) : Prop :=
  Forall (fun item => 0 < snd item) (fst acc) /\
  ((fst acc = [] /\ snd acc = amount) \/
   (exists cents : Z,
       0 <= cents /\ (snd acc == inject_Z cents / 100)%Q /\
       (Qabs (totalValue (fst acc) + snd acc - amount) <= 0.005)%Q)).

(** The amount a displayed stack of bet chips stands for. *)
Definition betTotal (stacks : list BetChip) : Q :=
  fold_left (fun sum b => sum + value b * inject_Z (stack b))%Q stacks 0%Q.

End PayoutCalculator.

(** ** ScenarioManager *)

Module ScenarioManager.

(** The source of [Math.random]: [oracle k] decides the [k]-th draw. *)
Record Random : Type := mkRandom { oracle : nat -> nat; drawn : nat }.

(** [Math.floor(Math.random() * bound)]: some index below [bound]. *)
Definition randomBelow (bound : nat) (r : Random) : nat * Random :=
  (oracle r (drawn r) mod bound, mkRandom (oracle r) (S (drawn r)))%nat.

(** The mutable part of a manager: its deck, and the random source. *)
Record t : Type := mk { deck : list Card.t; random : Random }.

Definition betAmounts : list Q :=
  [ 5; 10; 15; 20; 25; 30; 35; 40; 50; 60; 75; 100; 125; 150; 200; 250;
    300; 500;
    7; 12; 17; 22; 27; 32; 37; 42; 47; 52; 67; 72; 87; 92; 107; 117; 137;
    147; 167; 177 ]%Q.

Definition suits : list Card.Suit :=
  [Card.hearts; Card.diamonds; Card.clubs; Card.spades].

Definition ranks : list Card.Rank :=
  [Card.rA; Card.r2; Card.r3; Card.r4; Card.r5; Card.r6; Card.r7; Card.r8;
   Card.r9; Card.r10; Card.rJ; Card.rQ; Card.rK].

(** The deck built by [initializeDeck]: suit by suit, rank by rank. *)
Definition freshDeck : list Card.t :=
  flat_map (fun s => List.map (fun r => Card.new s r) ranks) suits.

Definition initializeDeck (m : t) : t := mk freshDeck (random m).

(** [[deck[i], deck[j]] = [deck[j], deck[i]]].  Both indices are inside
    the deck wherever [shuffleDeck] swaps, the last case is not reached. *)
Definition swap (i j : nat) (d : list Card.t) : list Card.t :=
  match d !! i, d !! j with
  | Some ci, Some cj => <[j := ci]> (<[i := cj]> d)
  | _, _ => d
  end.

(** The [for (let i = deck.length - 1; i > 0; i--)] loop, from [i]. *)
Fixpoint shuffleFrom (i : nat) (m : t) : t :=
  match i with
  | O => m
  | S below =>
      let (j, r) := randomBelow (S i) (random m) in
      shuffleFrom below (mk (swap i j (deck m)) r)
  end.

Definition shuffleDeck (m : t) : t :=
  shuffleFrom (List.length (deck m) - 1) m.

(** What a run of the generator (or of a part of it) ends in: a value
    and the manager afterwards, a [TypeError] thrown on reading a field
    of [undefined], or a loop cut off by the step bound of the model. *)
Inductive Outcome (A : Type) : Type :=
| Returned (a : A) (m : t)
| Thrown
| Unfinished.
Arguments Returned {A} a m.
Arguments Thrown {A}.
Arguments Unfinished {A}.

Definition Gen (A : Type) : Type := t -> Outcome A.

Definition ret {A} (a : A) : Gen A := fun m => Returned a m.

Definition bind {A B} (g : Gen A) (k : A -> Gen B) : Gen B :=
  fun m =>
    match g m with
    | Returned a m' => k a m'
    | Thrown => Thrown
    | Unfinished => Unfinished
    end.

Notation "x <- g ;; k" := (bind g (fun x => k))
  (at level 100, g at next level, right associativity).

(** [this.deck.pop()]; an empty deck gives [undefined], whose first use
    by the callers throws. *)
Definition pop (d : list Card.t) : option (Card.t * list Card.t) :=
  match List.rev d with
  | [] => None
  | top :: below => Some (top, List.rev below)
  end.

Definition dealCard : Gen Card.t := fun m =>
  let m := if (List.length (deck m) <? 10)%nat
           then shuffleDeck (initializeDeck m) else m in
  match pop (deck m) with
  | Some (card, rest) => Returned card (mk rest (random m))
  | None => Thrown
  end.

(** [deck.indexOf(card)]: the first position holding the card, or -1.
    The cards of a deck are distinct objects with distinct faces. *)
Fixpoint indexOf (card : Card.t) (d : list Card.t) : Z :=
  match d with
  | [] => -1
  | c :: rest =>
      if Card.eqb c card then 0
      else let k := indexOf card rest in if k <? 0 then -1 else k + 1
  end.

(** [deck.splice(start, 1)[0]] with the deck afterwards: a negative
    [start] counts from the end, a [start] past the end removes
    nothing. *)
Definition splice1 (start : Z) (d : list Card.t)
    : option Card.t * list Card.t :=
  let len := Z.of_nat (List.length d) in
  let from := if start <? 0 then Z.max (len + start) 0 else Z.min start len in
  let k := Z.to_nat from in
  (d !! k, take k d ++ drop (S k) d).

(** [hand.addCard(card)] on a card that may be [undefined]. *)
Definition addDealt (card : option Card.t) (h : Hand.t) : Gen Hand.t :=
  match card with
  | Some c => ret (Hand.addCard c h)
  | None => fun _ => Thrown
  end.

(** The player's forced blackjack. *)
Definition dealPlayer : Gen Hand.t := fun m =>
  let playerHand := Hand.new in
  let aceCards := List.filter Card.isAce (deck m) in
  let tenCards := List.filter Card.isTenRank (deck m) in
  match aceCards, tenCards with
  | firstAce :: _, firstTen :: _ =>
      let aceIndex := indexOf firstAce (deck m) in
      let (ace, d1) := splice1 aceIndex (deck m) in
      (playerHand <- addDealt ace playerHand ;;
       fun m1 =>
         let tenIndex := indexOf firstTen (deck m1) in
         let (ten, d2) := splice1 tenIndex (deck m1) in
         addDealt ten playerHand (mk d2 (random m1)))
        (mk d1 (random m))
  | _, _ =>
      Returned
        (Hand.addCard (Card.new Card.spades Card.rK)
           (Hand.addCard (Card.new Card.hearts Card.rA) playerHand))
        m
  end.

(** [while (dealerHand.cards[0].value === 11 && secondCard.value === 10)
    secondCard = this.dealCard()] *)
Fixpoint redrawSecond (steps : nat) (first secondCard : Card.t)
    : Gen Card.t :=
  if (Card.value first =? 11) && (Card.value secondCard =? 10) then
    match steps with
    | O => fun _ => Unfinished
    | S steps' =>
        next <- dealCard ;; redrawSecond steps' first next
    end
  else ret secondCard.

(** [while (dealerHand.value < 17 && !dealerHand.isBust)
    dealerHand.addCard(this.dealCard())] *)
Fixpoint dealerPlay (steps : nat) (dealerHand : Hand.t) : Gen Hand.t :=
  if (Hand.value dealerHand <? 17) && negb (Hand.isBust dealerHand) then
    match steps with
    | O => fun _ => Unfinished
    | S steps' =>
        card <- dealCard ;; dealerPlay steps' (Hand.addCard card dealerHand)
    end
  else ret dealerHand.

Definition dealDealer (steps : nat) : Gen Hand.t :=
  first <- dealCard ;;
  let dealerHand := Hand.addCard first Hand.new in
  second <- dealCard ;;
  second <- redrawSecond steps first second ;;
  let dealerHand := Hand.addCard second dealerHand in
  dealerPlay steps dealerHand.

(** [this.betAmounts[Math.floor(Math.random() * this.betAmounts.length)]]:
    the index is below the length, the default is never returned. *)
Definition pickBet : Gen Q := fun m =>
  let (k, r) := randomBelow (List.length betAmounts) (random m) in
  Returned (List.nth k betAmounts 0%Q) (mk (deck m) r).

(** [generateScenario]; [steps] bounds the turns of each loop. *)
Definition generateScenario (steps : nat) : Gen BlackjackScenario.t :=
  fun m =>
    (playerHand <- dealPlayer ;;
     dealerHand <- dealDealer steps ;;
     betAmount <- pickBet ;;
     ret (BlackjackScenario.new playerHand dealerHand betAmount))
      (shuffleDeck m).

(** A newly constructed manager. *)
Definition new (r : Random) : t := mk freshDeck r.

(** The [do { scenario = this.generateScenario(); attempts++; }
    while (scenario.result !== resultType && attempts < maxAttempts)] loop
    of [generateScenarioWithResult]; [left] is [maxAttempts - attempts]
    after the increment. *)
Fixpoint generateUntil (left steps : nat) (resultType : string)
    : Gen BlackjackScenario.t :=
  scenario <- generateScenario steps ;;
  if negb (BlackjackScenario.result scenario =? resultType)%string then
    match left with
    | S left' => generateUntil left' steps resultType
    | O => ret scenario
    end
  else ret scenario.

Definition maxAttempts : nat := 50.

Definition generateScenarioWithResult (steps : nat) (resultType : string)
    : Gen BlackjackScenario.t :=
  generateUntil (maxAttempts - 1) steps resultType.

(** [generateScenario] called [S n] times in a row, the last scenario
    returned. *)
Fixpoint generateTimes (n steps : nat) : Gen BlackjackScenario.t :=
  match n with
  | O => generateScenario steps
  | S n' => _ <- generateScenario steps ;; generateTimes n' steps
  end.

Definition resultTypes : list string :=
  ["blackjack"; "win"; "lose"; "push"]%string.

(** [for (let i = 0; i < n; i++) scenarios.push(generate())] *)
Fixpoint pushTimes (n : nat) (generate : Gen BlackjackScenario.t)
    (scenarios : list BlackjackScenario.t) : Gen (list BlackjackScenario.t) :=
  match n with
  | O => ret scenarios
  | S n' =>
      scenario <- generate ;; pushTimes n' generate (scenarios ++ [scenario])
  end.

(** The [for (const resultType of resultTypes)] loop of
    [generateBalancedScenarios]. *)
Fixpoint pushPerType (types : list string) (scenariosPerType steps : nat)
    (scenarios : list BlackjackScenario.t) : Gen (list BlackjackScenario.t) :=
  match types with
  | [] => ret scenarios
  | resultType :: rest =>
      scenarios <- pushTimes scenariosPerType
                     (generateScenarioWithResult steps resultType) scenarios ;;
      pushPerType rest scenariosPerType steps scenarios
  end.

(** [[scenarios[i], scenarios[j]] = [scenarios[j], scenarios[i]]] *)
Definition swapScenarios (i j : nat) (l : list BlackjackScenario.t)
    : list BlackjackScenario.t :=
  match l !! i, l !! j with
  | Some si, Some sj => <[j := si]> (<[i := sj]> l)
  | _, _ => l
  end.

Fixpoint shuffleScenariosFrom (i : nat) (l : list BlackjackScenario.t)
    (r : Random) : list BlackjackScenario.t * Random :=
  match i with
  | O => (l, r)
  | S below =>
      let (j, r') := randomBelow (S i) r in
      shuffleScenariosFrom below (swapScenarios i j l) r'
  end.

(** [generateBalancedScenarios(count)] for a whole number [count]: the
    same number of scenarios asked for each result type, the remaining
    places filled ([while (scenarios.length < count)]), and the array
    shuffled. *)
Definition generateBalancedScenarios (steps count : nat)
    : Gen (list BlackjackScenario.t) :=
  let scenariosPerType := (count / List.length resultTypes)%nat in
  scenarios <- pushPerType resultTypes scenariosPerType steps [] ;;
  scenarios <- pushTimes (count - List.length scenarios)
                 (generateScenario steps) scenarios ;;
  fun m =>
    let (shuffled, r) :=
      shuffleScenariosFrom (List.length scenarios - 1) scenarios (random m) in
    Returned shuffled (mk (deck m) r).

(** A step bound that is enough for the loops of one scenario on the
    deck of [m]: the redraw loop ends within the size of the deck (or of
    a rebuilt one) plus one turn, the dealer's loop within 17 turns. *)
Definition roomy (steps : nat) (m : t) : Prop :=
  (Nat.max (List.length (deck m)) 51 + 18 <= steps)%nat.

(** A run of [Math.random] under which the first shuffle of a new deck
    only exchanges the queen and the ace of spades: the ace ends second
    from the top, below the king of spades. *)
Definition kingThenAce (k : nat) : nat :=
  if Nat.eqb k 1 then 39%nat else (51 - k)%nat.

(** Measures of a deck for the redraw loop: the cards worth 10, which
    the loop rejects, and the others, any of which ends it. *)
Definition tenValued (c : Card.t) : bool := Card.value c =? 10.

Definition tens (d : list Card.t) : nat :=
  List.length (List.filter tenValued d).

Definition others (d : list Card.t) : nat :=
  List.length (List.filter (fun c => negb (tenValued c)) d).

(** The test of the redraw loop. *)
Definition dealerNatural (first second : Card.t) : bool :=
  (Card.value first =? 11) && (Card.value second =? 10).

End ScenarioManager.

(** * Properties *)

(** ** Hands *)

Section HandValue.

Import Hand.

Lemma addUp_fold (cs : list Card.t) (acc : Z * nat) :
  fold_left addUp cs acc
  = (fst acc + highSum cs, (snd acc + aceCount cs)%nat).
Proof.
  revert acc; induction cs as [|c cs IH]; intros [v s]; simpl.
  - f_equal; [lia | unfold aceCount; simpl; lia].
  - rewrite IH. unfold addUp, aceCount; simpl.
    destruct (Card.isAce c); simpl; f_equal; lia.
Qed.

(** The conversion loop stops after some number [k] of conversions:
    every earlier total was above 21, and it only stops with aces left
    when the total has come down to 21 or less. *)
Lemma convertAces_spec (s : nat) (v : Z) :
  exists k : nat,
    (k <= s)%nat /\
    convertAces v s = (v - 10 * Z.of_nat k, (s - k)%nat) /\
    (forall j : nat, (j < k)%nat -> 21 < v - 10 * Z.of_nat j) /\
    ((k < s)%nat -> v - 10 * Z.of_nat k <= 21).
Proof.
  revert v; induction s as [|s IH]; intros v; simpl.
  - exists O. repeat split; try lia. f_equal; lia.
  - destruct (Z.ltb_spec 21 v) as [Hgt|Hle].
    + destruct (IH (v - 10)) as (k & Hk & Heq & Hprev & Hstop).
      exists (S k). repeat split.
      * lia.
      * rewrite Heq. f_equal; lia.
      * intros [|j] Hj; [lia|].
        specialize (Hprev j ltac:(lia)). lia.
      * intros Hks. specialize (Hstop ltac:(lia)). lia.
    + exists O. repeat split; try lia. f_equal; lia.
Qed.

Lemma calculateValue_cards (h : t) : cards (calculateValue h) = cards h.
Proof. reflexivity. Qed.

(** The number of conversions made on a given list of cards. *)
Lemma calculateValue_conversions (h : t) :
  exists k : nat,
    (k <= aceCount (cards h))%nat /\
    value (calculateValue h) = highSum (cards h) - 10 * Z.of_nat k /\
    softAces (calculateValue h) = (aceCount (cards h) - k)%nat /\
    (forall j : nat, (j < k)%nat -> 21 < highSum (cards h) - 10 * Z.of_nat j) /\
    ((k < aceCount (cards h))%nat -> value (calculateValue h) <= 21).
Proof.
  unfold calculateValue; cbn [value softAces cards].
  rewrite addUp_fold; cbn [fst snd].
  rewrite Z.add_0_l, Nat.add_0_l.
  destruct (convertAces_spec (aceCount (cards h)) (highSum (cards h)))
    as (k & Hk & Heq & Hprev & Hstop).
  rewrite Heq; cbn [fst snd]. exists k. repeat split; auto.
Qed.

End HandValue.

(** The sum of a list of integers. *)
Lemma highSum_values (cs : list Card.t) :
  Hand.highSum cs = fold_right Z.add 0 (List.map Card.value cs).
Proof.
  induction cs as [|c cs IH]; [reflexivity|].
  cbn [Hand.highSum fold_right List.map]. f_equal. exact IH.
Qed.

(** C6.  The cards count as follows: an ace 11, a jack, queen or king
    10, and a card of numeric rank the number of its rank.
    [Hand.calculateValue] on any sequence of cards (the non-empty ones in
    particular) sets the value to the sum of these card values lowered by
    10 once per converted ace, a conversion being made exactly while the
    running total exceeds 21 and an unconverted ace remains; the value
    lies between the all-aces-low and the all-aces-high sum; it is at
    most 21 whenever some number of conversions reaches 21 or less;
    [isBust] holds exactly when the value exceeds 21; and the outcome is
    derived from the cards alone, whatever [value], [softAces] and flags
    the hand held before. *)
Theorem calculateValue_soft_ace_resolution (h : Hand.t) :
  let cs := Hand.cards h in
  let h' := Hand.calculateValue h in
  (forall c : Card.t,
      Card.value c
      = match Card.rank c with
        | Card.rA => 11
        | Card.rJ | Card.rQ | Card.rK => 10
        | Card.r2 => 2 | Card.r3 => 3 | Card.r4 => 4 | Card.r5 => 5
        | Card.r6 => 6 | Card.r7 => 7 | Card.r8 => 8 | Card.r9 => 9
        | Card.r10 => 10
        end) /\
  (forall c : Card.t, Card.isAce c = true <-> Card.rank c = Card.rA) /\
  Hand.highSum cs = fold_right Z.add 0 (List.map Card.value cs) /\
  Hand.aceCount cs = List.length (List.filter Card.isAce cs) /\
  Hand.lowSum cs = Hand.highSum cs - 10 * Z.of_nat (Hand.aceCount cs) /\
  (exists k : nat,
      (k <= Hand.aceCount cs)%nat /\
      Hand.value h' = Hand.highSum cs - 10 * Z.of_nat k /\
      Hand.softAces h' = (Hand.aceCount cs - k)%nat /\
      (forall j : nat, (j < k)%nat -> 21 < Hand.highSum cs - 10 * Z.of_nat j) /\
      ((k < Hand.aceCount cs)%nat -> Hand.value h' <= 21)) /\
  Hand.lowSum cs <= Hand.value h' <= Hand.highSum cs /\
  (forall j : nat,
      (j <= Hand.aceCount cs)%nat ->
      Hand.highSum cs - 10 * Z.of_nat j <= 21 -> Hand.value h' <= 21) /\
  (Hand.isBust h' = true <-> 21 < Hand.value h') /\
  (forall (v : Z) (s : nat) (bj bust : bool),
      Hand.calculateValue (Hand.mk cs v s bj bust) = h').
Proof.
  intros cs h'.
  split; [intros [s []]; reflexivity|].
  split; [intros [s []]; cbn; split; (reflexivity || discriminate)|].
  split; [apply highSum_values|].
  split; [reflexivity|]. split; [reflexivity|].
  destruct (calculateValue_conversions h) as (k & Hk & Hval & Hsoft & Hprev & Hstop).
  fold cs in Hk, Hval, Hsoft, Hprev, Hstop. fold h' in Hval, Hsoft, Hstop.
  split; [exists k; repeat split; assumption|].
  split; [unfold Hand.lowSum; lia|].
  split.
  - intros j Hj Hreach.
    destruct (Nat.lt_ge_cases k (Hand.aceCount cs)) as [Hlt|Hge]; [auto|].
    assert (k = Hand.aceCount cs) by lia. subst k. lia.
  - split; [|reflexivity].
    unfold h' at 1, Hand.calculateValue; cbn [Hand.isBust].
    apply Z.ltb_lt.
Qed.

Lemma calculateValue_soft_ace_resolution_witness :
  let ace := Card.new Card.hearts Card.rA in
  let king := Card.new Card.spades Card.rK in
  let seven := Card.new Card.clubs Card.r7 in
  let h := Hand.mk [ace; king; seven] 0 0 false false in
  Card.value ace = 11 /\ Card.value king = 10 /\ Card.value seven = 7 /\
  Hand.highSum (Hand.cards h) = 11 + (10 + (7 + 0)) /\
  Hand.value (Hand.calculateValue h) <= 21 /\
  Hand.value (Hand.calculateValue h) = 18 /\
  Hand.lowSum (Hand.cards h) = 18.
Proof.
  cbv zeta.
  destruct (calculateValue_soft_ace_resolution
              (Hand.mk [Card.new Card.hearts Card.rA;
                        Card.new Card.spades Card.rK;
                        Card.new Card.clubs Card.r7] 0 0 false false))
    as (Hcard & _ & Hhigh & _ & _ & _ & _ & Hreach & _).
  split; [exact (Hcard (Card.new Card.hearts Card.rA))|].
  split; [exact (Hcard (Card.new Card.spades Card.rK))|].
  split; [exact (Hcard (Card.new Card.clubs Card.r7))|].
  split.
  { cbv zeta in Hhigh. cbn [Hand.cards] in Hhigh |- *. rewrite Hhigh.
    cbn [List.map fold_right].
    rewrite (Hcard (Card.new Card.hearts Card.rA)),
            (Hcard (Card.new Card.spades Card.rK)),
            (Hcard (Card.new Card.clubs Card.r7)).
    reflexivity. }
  split; [|split; reflexivity].
  apply (Hreach 1%nat); cbn; lia.
Defined.

(** C10.  On a hand without cards [calculateValue] yields value 0, no
    soft aces, and neither the blackjack nor the bust flag. *)
Theorem calculateValue_empty_hand (v : Z) (s : nat) (bj bust : bool) :
  Hand.calculateValue (Hand.mk [] v s bj bust) = Hand.mk [] 0 0 false false
  /\ Hand.calculateValue Hand.new = Hand.new.
Proof. split; reflexivity. Qed.

Example hand_A_K :
  let h := Hand.addCard (Card.new Card.spades Card.rK)
             (Hand.addCard (Card.new Card.hearts Card.rA) Hand.new) in
  (Hand.value h, Hand.isBlackjack h, Hand.isBust h) = (21, true, false).
Proof. reflexivity. Qed.

Example hand_A_6_8 :
  let h := Hand.addCard (Card.new Card.clubs Card.r8)
             (Hand.addCard (Card.new Card.spades Card.r6)
                (Hand.addCard (Card.new Card.hearts Card.rA) Hand.new)) in
  (Hand.value h, Hand.isBust h) = (15, false).
Proof. reflexivity. Qed.

Example hand_K_Q_5 :
  let h := Hand.addCard (Card.new Card.clubs Card.r5)
             (Hand.addCard (Card.new Card.spades Card.rQ)
                (Hand.addCard (Card.new Card.hearts Card.rK) Hand.new)) in
  (Hand.value h, Hand.isBust h) = (25, true).
Proof. reflexivity. Qed.

(** ** Chips in the tray *)

(** C9.  Starting from a chip with [0 <= selected <= count], each of
    [select], [deselect] and [resetSelection] leaves a chip with
    [0 <= selected <= count] and the same [count]; [select] adds one to
    [selected] and answers [true] when [selected < count], and otherwise
    answers [false] with the chip as it was; [deselect] takes one off and
    answers [true] when [selected > 0], and otherwise answers [false] with
    the chip as it was; [resetSelection] sets [selected] to 0. *)
Theorem chip_selection_invariant (c : Chip.t) (Hinv : Chip.inv c) :
  Chip.inv (snd (Chip.select c)) /\
  Chip.inv (snd (Chip.deselect c)) /\
  Chip.inv (Chip.resetSelection c) /\
  Chip.count (snd (Chip.select c)) = Chip.count c /\
  Chip.count (snd (Chip.deselect c)) = Chip.count c /\
  Chip.count (Chip.resetSelection c) = Chip.count c /\
  (Chip.selected c < Chip.count c ->
     fst (Chip.select c) = true /\
     Chip.selected (snd (Chip.select c)) = Chip.selected c + 1) /\
  (Chip.count c <= Chip.selected c -> Chip.select c = (false, c)) /\
  (0 < Chip.selected c ->
     fst (Chip.deselect c) = true /\
     Chip.selected (snd (Chip.deselect c)) = Chip.selected c - 1) /\
  (Chip.selected c <= 0 -> Chip.deselect c = (false, c)) /\
  Chip.selected (Chip.resetSelection c) = 0.
Proof.
  unfold Chip.inv in *.
  unfold Chip.select, Chip.deselect, Chip.resetSelection, Chip.canSelect.
  destruct (Z.ltb_spec (Chip.selected c) (Chip.count c));
    destruct (Z.ltb_spec 0 (Chip.selected c));
    cbn [fst snd Chip.withSelected Chip.selected Chip.count];
    repeat split; intros; try lia; reflexivity.
Qed.

Lemma chip_selection_invariant_witness :
  let c := Chip.new 5 "chip-5" "$5" in
  Chip.inv c /\
  Chip.select c = (true, Chip.withSelected 1 c) /\
  Chip.deselect c = (false, c) /\
  Chip.inv (snd (Chip.select c)).
Proof.
  assert (Hinv : Chip.inv (Chip.new 5 "chip-5" "$5"))
    by (unfold Chip.inv; simpl; lia).
  pose proof (chip_selection_invariant _ Hinv) as H.
  split; [exact Hinv|].
  split; [reflexivity|].
  split; [apply H; simpl; lia | apply H].
Defined.

(** ** Session score *)

(** C8.  A submission adds exactly one to [total], whether it is correct
    or not.  [recordCorrect] adds one to both [correct] and [total] and to
    [currentStreak], and [bestStreak] becomes the new streak when that is
    larger; [recordIncorrect] adds one to [total], keeps [correct] and
    [bestStreak], and sets [currentStreak] to 0. *)
Theorem record_answer_updates_score (g : GameState.t) :
  let sc := GameState.score g in
  let st := GameState.sessionStats g in
  let right := GameState.recordCorrect g in
  let wrong := GameState.recordIncorrect g in
  GameState.correct (GameState.score right) = GameState.correct sc + 1 /\
  GameState.total (GameState.score right) = GameState.total sc + 1 /\
  GameState.currentStreak (GameState.sessionStats right)
    = GameState.currentStreak st + 1 /\
  GameState.bestStreak (GameState.sessionStats right)
    = Z.max (GameState.bestStreak st) (GameState.currentStreak st + 1) /\
  GameState.correct (GameState.score wrong) = GameState.correct sc /\
  GameState.total (GameState.score wrong) = GameState.total sc + 1 /\
  GameState.currentStreak (GameState.sessionStats wrong) = 0 /\
  GameState.bestStreak (GameState.sessionStats wrong) = GameState.bestStreak st /\
  (forall isCorrect : bool,
      GameState.total (GameState.score (GameState.submitPayout isCorrect g))
      = GameState.total sc + 1).
Proof.
  cbv zeta. unfold GameState.submitPayout, GameState.recordCorrect,
    GameState.recordIncorrect, GameState.completeScenario,
    GameState.enterFeedbackPhase; simpl.
  repeat split; try (intros []; reflexivity).
  destruct (Z.ltb_spec (GameState.bestStreak (GameState.sessionStats g))
              (GameState.currentStreak (GameState.sessionStats g) + 1)); lia.
Qed.

Example score_tracking :
  let g := GameState.recordIncorrect (GameState.recordCorrect GameState.new) in
  (GameState.correct (GameState.score g), GameState.total (GameState.score g),
   GameState.currentStreak (GameState.sessionStats g),
   GameState.bestStreak (GameState.sessionStats g)) = (1, 2, 0, 1).
Proof. reflexivity. Qed.

(** ** Payout rules *)

Section PayoutRules.

Import PayoutCalculator.
Local Open Scope Q_scope.

Lemma Qlt_bool_iff (x y : Q) : Qlt_bool x y = true <-> x < y.
Proof.
  unfold Qlt_bool. rewrite negb_true_iff.
  destruct (Qle_bool y x) eqn:E.
  - apply Qle_bool_iff in E. split; [discriminate|].
    intros Hlt. exfalso. exact (Qlt_not_le _ _ Hlt E).
  - split; [intros _ | reflexivity].
    apply Qnot_le_lt. intros Hle.
    apply Qle_bool_iff in Hle. congruence.
Qed.

Lemma calculatePayout_cases (sc : BlackjackScenario.t) :
  calculatePayout (Some sc)
  = if (BlackjackScenario.result sc =? "blackjack")%string
    then BlackjackScenario.betAmount sc * 1.5
    else if (BlackjackScenario.result sc =? "win")%string
    then BlackjackScenario.betAmount sc * 1.0
    else 0.
Proof.
  unfold calculatePayout.
  repeat match goal with
         | |- context [(?a =? ?b)%string] => destruct (a =? b)%string
         end; reflexivity.
Qed.

End PayoutRules.

(** C4.  [calculatePayout] pays the bet times 1.5 for ['blackjack'], the
    bet times 1.0 for ['win'], 0 for ['push'] and ['lose'], 0 for any
    other result string and 0 for a missing scenario; two scenarios with
    the same bet and result have the same payout; and the payout is not
    negative for a bet that is not negative, as every bet of the trainer
    is: bets are taken from [betAmounts], all of them positive. *)
Theorem calculatePayout_rules (sc : BlackjackScenario.t) :
  let bet := BlackjackScenario.betAmount sc in
  let res := BlackjackScenario.result sc in
  let pay := PayoutCalculator.calculatePayout (Some sc) in
  (res = "blackjack"%string -> pay = (bet * 1.5)%Q) /\
  (res = "win"%string -> pay = (bet * 1.0)%Q) /\
  (res = "push"%string \/ res = "lose"%string -> pay = 0%Q) /\
  (res <> "blackjack"%string -> res <> "win"%string -> pay = 0%Q) /\
  PayoutCalculator.calculatePayout None = 0%Q /\
  ((0 <= bet)%Q -> (0 <= pay)%Q) /\
  (forall sc' : BlackjackScenario.t,
      BlackjackScenario.betAmount sc' = bet ->
      BlackjackScenario.result sc' = res ->
      PayoutCalculator.calculatePayout (Some sc') = pay) /\
  (In bet ScenarioManager.betAmounts -> (0 < bet)%Q /\ (0 <= pay)%Q).
Proof.
  intros bet res pay. subst pay. rewrite calculatePayout_cases. fold bet res.
  assert (Hsign : (0 <= bet)%Q ->
                  (0 <= (if (res =? "blackjack")%string then bet * 1.5
                         else if (res =? "win")%string then bet * 1.0
                         else 0))%Q).
  { intros Hbet.
    destruct (res =? "blackjack")%string;
      [|destruct (res =? "win")%string].
    - apply Qmult_le_0_compat; [assumption | discriminate].
    - apply Qmult_le_0_compat; [assumption | discriminate].
    - apply Qle_refl. }
  split; [intros ->; reflexivity|].
  split; [intros ->; reflexivity|].
  split; [intros [-> | ->]; reflexivity|].
  split.
  { intros Hb Hw.
    apply String.eqb_neq in Hb, Hw. rewrite Hb, Hw. reflexivity. }
  split; [reflexivity|].
  split; [exact Hsign|].
  split.
  { intros sc' Hb Hr. rewrite calculatePayout_cases, Hb, Hr. reflexivity. }
  intros Hin.
  assert (Hlisted : Forall (fun listed => (0 < listed)%Q)
                           ScenarioManager.betAmounts)
    by (unfold ScenarioManager.betAmounts; repeat constructor).
  pose proof (proj1 (List.Forall_forall _ _) Hlisted bet Hin) as Hpos.
  split; [exact Hpos|]. apply Hsign. apply Qlt_le_weak. exact Hpos.
Qed.

Lemma calculatePayout_rules_witness :
  let sc := BlackjackScenario.mk Hand.new Hand.new 10 "blackjack" 15 "3:2" in
  let won := BlackjackScenario.mk Hand.new Hand.new 25 "win" 25 "1:1" in
  let tied := BlackjackScenario.mk Hand.new Hand.new 50 "push" 0 "Push" in
  let lost := BlackjackScenario.mk Hand.new Hand.new 100 "lose" 0 "Lose" in
  let odd := BlackjackScenario.mk Hand.new Hand.new 100 "surrender" 0 "" in
  (PayoutCalculator.calculatePayout (Some sc) == 15)%Q /\
  (PayoutCalculator.calculatePayout (Some won) == 25)%Q /\
  PayoutCalculator.calculatePayout (Some tied) = 0%Q /\
  PayoutCalculator.calculatePayout (Some lost) = 0%Q /\
  PayoutCalculator.calculatePayout (Some odd) = 0%Q /\
  (0 <= PayoutCalculator.calculatePayout (Some sc))%Q.
Proof.
  cbv zeta.
  destruct (calculatePayout_rules
              (BlackjackScenario.mk Hand.new Hand.new 10 "blackjack" 15 "3:2"))
    as (Hbj & _ & _ & _ & _ & Hpos & _).
  destruct (calculatePayout_rules
              (BlackjackScenario.mk Hand.new Hand.new 25 "win" 25 "1:1"))
    as (_ & Hwin & _).
  destruct (calculatePayout_rules
              (BlackjackScenario.mk Hand.new Hand.new 50 "push" 0 "Push"))
    as (_ & _ & Hpush & _).
  destruct (calculatePayout_rules
              (BlackjackScenario.mk Hand.new Hand.new 100 "lose" 0 "Lose"))
    as (_ & _ & Hlose & _).
  destruct (calculatePayout_rules
              (BlackjackScenario.mk Hand.new Hand.new 100 "surrender" 0 ""))
    as (_ & _ & _ & Hodd & _).
  split; [rewrite (Hbj eq_refl); reflexivity|].
  split; [rewrite (Hwin eq_refl); reflexivity|].
  split; [apply Hpush; left; reflexivity|].
  split; [apply Hlose; right; reflexivity|].
  split; [apply Hodd; discriminate|].
  apply Hpos. discriminate.
Defined.

(** C3.  For a scenario object and a submitted amount, [validatePayout]
    returns [isCorrect] true exactly when the submitted amount is less than
    0.01 away from [calculatePayout] of the scenario, with that payout as
    [correctAmount], the submitted amount as [selectedAmount] and their
    difference, submitted minus correct, as [difference]; for a missing
    scenario it returns [isCorrect] false and the message
    'No scenario provided'.  Being a total function it always returns. *)
Theorem validatePayout_result (sc : BlackjackScenario.t) (submitted : Q) :
  let correct := PayoutCalculator.calculatePayout (Some sc) in
  let res := PayoutCalculator.validatePayout (Some sc) submitted in
  let missing := PayoutCalculator.validatePayout None submitted in
  (PayoutCalculator.isCorrect res = true
     <-> (Qabs (submitted - correct) < 0.01)%Q) /\
  PayoutCalculator.correctAmount res = Some correct /\
  PayoutCalculator.selectedAmount res = Some submitted /\
  PayoutCalculator.difference res = Some (submitted - correct)%Q /\
  PayoutCalculator.isCorrect missing = false /\
  PayoutCalculator.message missing = PayoutCalculator.NoScenarioProvided.
Proof.
  cbv zeta. repeat split; try reflexivity.
  - intros H. apply Qlt_bool_iff in H. exact H.
  - intros H. apply Qlt_bool_iff. exact H.
Qed.

Lemma validatePayout_result_witness :
  let sc := BlackjackScenario.mk Hand.new Hand.new 10 "blackjack" 15 "3:2" in
  PayoutCalculator.isCorrect (PayoutCalculator.validatePayout (Some sc) 15)
  = true.
Proof.
  cbv zeta.
  apply (proj1 (validatePayout_result
                  (BlackjackScenario.mk Hand.new Hand.new 10 "blackjack" 15 "3:2")
                  15)).
  vm_compute; reflexivity.
Defined.

Example validatePayout_10_blackjack :
  let sc := BlackjackScenario.mk Hand.new Hand.new 10 "blackjack" 15 "3:2" in
  PayoutCalculator.isCorrect (PayoutCalculator.validatePayout (Some sc) 15) = true
  /\ PayoutCalculator.isCorrect (PayoutCalculator.validatePayout (Some sc) 10) = false
  /\ option_map Qred
       (PayoutCalculator.difference (PayoutCalculator.validatePayout (Some sc) 10))
     = Some (-5)%Q.
Proof. repeat split. Qed.

(** ** Chip decomposition *)

Section ChipDecomposition.

Import PayoutCalculator.

Lemma Some_eq {A : Type} (x y : A) : Some x = Some y -> x = y.
Proof. intros H. injection H as ->. reflexivity. Qed.

Lemma sortDesc_standardChips :
  sortDesc standardChips = List.rev standardChips.
Proof. reflexivity. Qed.

(** The casino-style adjustments for the 25 and the 5 chip take the
    minimum of the count with itself. *)
Lemma takeBetChip_plain (acc : list BetChip * Q) (b : BetChip) :
  takeBetChip acc b
  = let count := Qfloor (snd acc / value b)%Q in
    if 0 <? count then
      (fst acc ++ [mkBetChip (value b) (color b) (label b) count],
       round2 (snd acc - inject_Z count * value b)%Q)
    else acc.
Proof.
  unfold takeBetChip. cbv zeta.
  set (count := Qfloor (snd acc / value b)%Q).
  destruct (0 <? count) eqn:Epos.
  - rewrite !andb_true_r.
    destruct (Qeq_bool (value b) 25) eqn:E25;
      [|destruct (Qeq_bool (value b) 5) eqn:E5].
    + apply Qeq_bool_iff in E25.
      assert (Qfloor (snd acc / 25)%Q = count) as ->
        by (unfold count; apply Qfloor_comp; rewrite E25; reflexivity).
      rewrite Z.min_id, Epos. reflexivity.
    + apply Qeq_bool_iff in E5.
      assert (Qfloor (snd acc / 5)%Q = count) as ->
        by (unfold count; apply Qfloor_comp; rewrite E5; reflexivity).
      rewrite Z.min_id, Epos. reflexivity.
    + rewrite Epos. reflexivity.
  - rewrite !andb_false_r, Epos. reflexivity.
Qed.

Lemma take_inStep (c : Chip.t) (b : BetChip) a a' :
  Chip.value c = value b ->
  inStep a a' -> inStep (takeChip a c) (takeBetChip a' b).
Proof.
  intros Hv [Hpairs Hrem]. rewrite takeBetChip_plain.
  unfold takeChip. cbv zeta. rewrite Hv, Hrem.
  destruct (0 <? Qfloor (snd a' / value b)%Q); [|split; assumption].
  split; cbn [fst snd]; [|reflexivity].
  unfold denominations, betDenominations in *.
  rewrite !List.map_app, Hpairs. cbn. rewrite Hv. reflexivity.
Qed.

Lemma fold_inStep (cs : list Chip.t) (bs : list BetChip) :
  Forall2 (fun c b => Chip.value c = value b) cs bs ->
  forall a a', inStep a a' ->
    inStep (fold_left takeChip cs a) (fold_left takeBetChip bs a').
Proof.
  induction 1 as [|c b cs bs Hv _ IH]; intros a a' Ha; cbn [fold_left].
  - exact Ha.
  - apply IH, take_inStep; assumption.
Qed.

Lemma standard_denominations :
  Forall2 (fun c b => Chip.value c = value b)
          (sortDesc standardChips) chipDenominations.
Proof. rewrite sortDesc_standardChips. repeat constructor. Qed.

(** Nothing is taken from an amount that is not positive. *)
Lemma takeBetChip_nothing (acc : list BetChip * Q) (b : BetChip) :
  (snd acc <= 0)%Q -> (0 < value b)%Q -> takeBetChip acc b = acc.
Proof.
  intros Hrem Hval. rewrite takeBetChip_plain. cbv zeta.
  assert (Hq : (snd acc / value b <= 0)%Q).
  { apply Qle_shift_div_r; [assumption|]. rewrite Qmult_0_l. assumption. }
  apply Qfloor_resp_le in Hq. change (Qfloor 0) with 0 in Hq.
  destruct (Z.ltb_spec 0 (Qfloor (snd acc / value b)%Q)); [lia|reflexivity].
Qed.

Lemma calculateBetChips_nothing (betAmount : Q) :
  (betAmount <= 0)%Q -> calculateBetChips betAmount = [].
Proof.
  intros Hle. unfold calculateBetChips, chipDenominations. cbn [fold_left].
  repeat (rewrite (takeBetChip_nothing ([], betAmount))
            by (try exact Hle; reflexivity)).
  reflexivity.
Qed.

End ChipDecomposition.

(** C7.  Whenever [calculateOptimalChips] finds a combination for an
    amount with the seven chips of the tray, [calculateBetChips] returns
    for that amount the same denominations with the same counts, in the
    same order (so the same multiset of pairs). *)
Theorem calculateBetChips_same_as_optimal
    (amount : Q) (combo : list (Chip.t * Z))
    (Hfound : PayoutCalculator.calculateOptimalChips amount standardChips
              = Some combo) :
  PayoutCalculator.betDenominations (PayoutCalculator.calculateBetChips amount)
    = PayoutCalculator.denominations combo
  /\ Permutation
       (PayoutCalculator.betDenominations
          (PayoutCalculator.calculateBetChips amount))
       (PayoutCalculator.denominations combo).
Proof.
  assert (Heq : PayoutCalculator.betDenominations
                  (PayoutCalculator.calculateBetChips amount)
                = PayoutCalculator.denominations combo).
  { unfold PayoutCalculator.calculateOptimalChips in Hfound.
    destruct (Qle_bool amount 0) eqn:Hsign.
    - injection Hfound as <-. apply Qle_bool_iff in Hsign.
      rewrite calculateBetChips_nothing by assumption. reflexivity.
    - cbv zeta in Hfound.
      destruct (fold_inStep _ _ standard_denominations
                  ([], amount) ([], amount)) as [Hpairs _];
        [split; reflexivity|].
      destruct (PayoutCalculator.Qlt_bool _ _); [|discriminate].
      apply Some_eq in Hfound. subst combo.
      unfold PayoutCalculator.calculateBetChips. symmetry. exact Hpairs. }
  split; [exact Heq | rewrite Heq; reflexivity].
Qed.

Lemma calculateBetChips_same_as_optimal_witness :
  exists combo : list (Chip.t * Z),
    PayoutCalculator.calculateOptimalChips 37.5 standardChips = Some combo /\
    PayoutCalculator.denominations combo
      = [(25%Q, 1); (5%Q, 2); (2.5%Q, 1)] /\
    PayoutCalculator.betDenominations (PayoutCalculator.calculateBetChips 37.5)
      = PayoutCalculator.denominations combo.
Proof.
  eexists. split; [vm_compute; reflexivity|].
  split; [reflexivity|].
  apply calculateBetChips_same_as_optimal. vm_compute; reflexivity.
Defined.

(** ** The deck *)

Section Deck.

Import ScenarioManager.

Lemma swap_perm (i j : nat) (d : list Card.t) : swap i j d ≡ₚ d.
Proof.
  unfold swap.
  destruct (d !! i) as [ci|] eqn:Hi; [|reflexivity].
  destruct (d !! j) as [cj|] eqn:Hj; [|reflexivity].
  apply Permutation_insert_swap; assumption.
Qed.

Lemma shuffleFrom_perm (i : nat) (m : t) :
  deck (shuffleFrom i m) ≡ₚ deck m.
Proof.
  revert m; induction i as [|i IH]; intros m; cbn [shuffleFrom].
  - reflexivity.
  - unfold randomBelow. rewrite IH. cbn [deck]. apply swap_perm.
Qed.

Lemma shuffleDeck_perm (m : t) : deck (shuffleDeck m) ≡ₚ deck m.
Proof. apply shuffleFrom_perm. Qed.

Lemma shuffleDeck_length (m : t) :
  List.length (deck (shuffleDeck m)) = List.length (deck m).
Proof. apply Permutation_length, shuffleDeck_perm. Qed.

Lemma pop_spec (d : list Card.t) :
  match pop d with
  | Some (top, rest) => d = rest ++ [top]
  | None => d = []
  end.
Proof.
  unfold pop. destruct (List.rev d) as [|top below] eqn:E.
  - apply (f_equal (@List.rev _)) in E. rewrite List.rev_involutive in E.
    exact E.
  - apply (f_equal (@List.rev _)) in E. rewrite List.rev_involutive in E.
    exact E.
Qed.

(** [dealCard] always hands out a card: the top of the deck when ten
    cards or more are left, and otherwise the top of a reshuffled full
    deck. *)
Lemma dealCard_spec (m : t) :
  exists (card : Card.t) (m' : t),
    dealCard m = Returned card m' /\
    (((10 <= List.length (deck m))%nat /\ deck m = deck m' ++ [card]) \/
     ((List.length (deck m) < 10)%nat /\ deck m' ++ [card] ≡ₚ freshDeck)).
Proof.
  unfold dealCard.
  destruct (Nat.ltb_spec (List.length (deck m)) 10) as [Hlow|Hhigh].
  - pose proof (pop_spec (deck (shuffleDeck (initializeDeck m)))) as Hpop.
    pose proof (shuffleDeck_perm (initializeDeck m)) as Hperm.
    destruct (pop _) as [[top rest]|].
    + exists top, (mk rest (random (shuffleDeck (initializeDeck m)))).
      split; [reflexivity|]. right. split; [assumption|].
      cbn [deck]. rewrite <- Hpop. exact Hperm.
    + rewrite Hpop in Hperm. apply Permutation_length in Hperm.
      discriminate.
  - pose proof (pop_spec (deck m)) as Hpop.
    destruct (pop _) as [[top rest]|].
    + exists top, (mk rest (random m)).
      split; [reflexivity|]. left. split; assumption.
    + rewrite Hpop in Hhigh. cbn in Hhigh. lia.
Qed.

End Deck.

(** ** The redraw loop ends *)

Section Redraw.

Import ScenarioManager.

Lemma filter_length_perm (f : Card.t -> bool) (l l' : list Card.t) :
  l ≡ₚ l' ->
  List.length (List.filter f l) = List.length (List.filter f l').
Proof.
  induction 1 as [|x l l' _ IH|x y l|l l' l'' _ IH1 _ IH2]; cbn.
  - reflexivity.
  - destruct (f x); cbn; congruence.
  - destruct (f x), (f y); reflexivity.
  - congruence.
Qed.

Lemma tens_snoc (d : list Card.t) (c : Card.t) :
  tens (d ++ [c]) = (tens d + if tenValued c then 1 else 0)%nat.
Proof.
  unfold tens. rewrite List.filter_app, List.length_app. cbn.
  destruct (tenValued c); reflexivity.
Qed.

Lemma others_snoc (d : list Card.t) (c : Card.t) :
  others (d ++ [c]) = (others d + if tenValued c then 0 else 1)%nat.
Proof.
  unfold others. rewrite List.filter_app, List.length_app. cbn.
  destruct (tenValued c); reflexivity.
Qed.

Lemma others_le_length (d : list Card.t) :
  (others d <= List.length d)%nat.
Proof. apply List.filter_length_le. Qed.

Lemma redrawSecond_done (steps : nat) (first second : Card.t) (m : t) :
  dealerNatural first second = false ->
  redrawSecond steps first second m = Returned second m.
Proof.
  unfold dealerNatural. intros Hno.
  destruct steps; cbn [redrawSecond]; rewrite Hno; reflexivity.
Qed.

Lemma redrawSecond_again (steps : nat) (first second : Card.t) (m : t) :
  dealerNatural first second = true ->
  redrawSecond (S steps) first second m
  = bind dealCard (fun next => redrawSecond steps first next) m.
Proof.
  unfold dealerNatural. intros Hyes.
  cbn [redrawSecond]. rewrite Hyes. reflexivity.
Qed.

Lemma dealerNatural_other (first second : Card.t) :
  tenValued second = false -> dealerNatural first second = false.
Proof.
  unfold dealerNatural, tenValued. intros ->. apply andb_false_r.
Qed.

(** With ten or more cards that end the loop in the deck, no reshuffle
    happens, and each turn takes one ten-valued card off the deck. *)
Lemma redrawSecond_ends_in_deck (steps : nat) :
  forall (first second : Card.t) (m : t),
    (10 <= others (deck m))%nat ->
    (tens (deck m) < steps)%nat ->
    exists (c : Card.t) (m' : t),
      redrawSecond steps first second m = Returned c m' /\
      dealerNatural first c = false /\
      (List.length (deck m') <= List.length (deck m))%nat.
Proof.
  induction steps as [|steps IH]; intros first second m Hothers Htens;
    [lia|].
  destruct (dealerNatural first second) eqn:Hnat.
  - rewrite redrawSecond_again by assumption. unfold bind.
    destruct (dealCard_spec m) as (next & m2 & -> & [[_ Hdeck]|[Hlow _]]).
    + rewrite Hdeck, tens_snoc in Htens.
      rewrite Hdeck, others_snoc in Hothers.
      assert (Hlen : List.length (deck m) = S (List.length (deck m2)))
        by (rewrite Hdeck, List.length_app; cbn; lia).
      destruct (tenValued next) eqn:Hten.
      * destruct (IH first next m2) as (c & m' & Hrun & Hno & Hle);
          [lia | lia |].
        exists c, m'. repeat split; [assumption | assumption | lia].
      * exists next, m2.
        rewrite redrawSecond_done by (apply dealerNatural_other, Hten).
        repeat split; [apply dealerNatural_other, Hten | lia].
    + pose proof (others_le_length (deck m)). lia.
  - exists second, m. rewrite redrawSecond_done by assumption.
    repeat split; [assumption | lia].
Qed.

Lemma fresh_tens : tens freshDeck = 16%nat.
Proof. reflexivity. Qed.

Lemma fresh_others : others freshDeck = 36%nat.
Proof. reflexivity. Qed.

(** In general the deck first runs down to nine cards, is rebuilt, and
    then holds 36 cards that end the loop. *)
Lemma redrawSecond_ends (n : nat) :
  forall (steps : nat) (first second : Card.t) (m : t),
    (List.length (deck m) <= n)%nat ->
    (n + 18 <= steps)%nat ->
    exists (c : Card.t) (m' : t),
      redrawSecond steps first second m = Returned c m' /\
      dealerNatural first c = false /\
      (List.length (deck m') <= Nat.max (List.length (deck m)) 51)%nat.
Proof.
  induction n as [|n IH]; intros steps first second m Hlen Hsteps.
  all: destruct (dealerNatural first second) eqn:Hnat;
    [|exists second, m; rewrite redrawSecond_done by assumption;
      repeat split; [assumption | lia]].
  all: destruct steps as [|steps]; [lia|].
  all: rewrite redrawSecond_again by assumption; unfold bind.
  all: destruct (dealCard_spec m) as (next & m2 & -> & [[Hhigh Hdeck]|[_ Hperm]]).
  all: try (pose proof (filter_length_perm tenValued _ _ Hperm) as Ht;
            pose proof (filter_length_perm (fun c => negb (tenValued c))
                          _ _ Hperm) as Ho;
            pose proof (Permutation_length Hperm) as Hl;
            fold (tens (deck m2 ++ [next])) in Ht;
            fold (others (deck m2 ++ [next])) in Ho;
            fold (tens freshDeck) in Ht; fold (others freshDeck) in Ho;
            rewrite tens_snoc, fresh_tens in Ht;
            rewrite others_snoc, fresh_others in Ho;
            rewrite List.length_app in Hl; cbn in Hl;
            destruct (redrawSecond_ends_in_deck steps first next m2)
              as (c & m' & Hrun & Hno & Hle);
            [destruct (tenValued next); lia
            |destruct (tenValued next); lia
            |exists c, m'; repeat split; [assumption | assumption | lia]]).
  - lia.
  - assert (Hlen2 : List.length (deck m) = S (List.length (deck m2)))
      by (rewrite Hdeck, List.length_app; cbn; lia).
    destruct (IH steps first next m2) as (c & m' & Hrun & Hno & Hle);
      [lia | lia |].
    exists c, m'. repeat split; [assumption | assumption | lia].
Qed.

End Redraw.

(** ** The dealer's play ends *)

Section DealerPlay.

Import ScenarioManager.

Lemma highSum_app (xs ys : list Card.t) :
  Hand.highSum (xs ++ ys) = Hand.highSum xs + Hand.highSum ys.
Proof.
  unfold Hand.highSum. induction xs as [|x xs IH]; cbn; [reflexivity|].
  rewrite IH. lia.
Qed.

Lemma aceCount_app (xs ys : list Card.t) :
  Hand.aceCount (xs ++ ys) = (Hand.aceCount xs + Hand.aceCount ys)%nat.
Proof.
  unfold Hand.aceCount. rewrite List.filter_app. apply List.length_app.
Qed.

(** Counted low, every card adds at least one to the hand. *)
Lemma lowSum_snoc (cs : list Card.t) (c : Card.t) :
  Hand.lowSum cs + 1 <= Hand.lowSum (cs ++ [c]).
Proof.
  unfold Hand.lowSum. rewrite highSum_app, aceCount_app.
  destruct c as [s []]; cbn; lia.
Qed.

Lemma lowSum_nonneg (cs : list Card.t) : 0 <= Hand.lowSum cs.
Proof.
  induction cs as [|c cs IH] using List.rev_ind; [reflexivity|].
  pose proof (lowSum_snoc cs c). lia.
Qed.

Lemma addCard_cards (c : Card.t) (h : Hand.t) :
  Hand.cards (Hand.addCard c h) = Hand.cards h ++ [c].
Proof. reflexivity. Qed.

Lemma addCard_value_low (c : Card.t) (h : Hand.t) :
  Hand.lowSum (Hand.cards (Hand.addCard c h)) <= Hand.value (Hand.addCard c h).
Proof.
  unfold Hand.addCard.
  match goal with |- context [Hand.calculateValue ?x] =>
    destruct (calculateValue_conversions x) as (k & Hk & Hval & _)
  end.
  rewrite Hval, calculateValue_cards. unfold Hand.lowSum. lia.
Qed.

Lemma dealerPlay_ends (steps : nat) :
  forall (h : Hand.t) (m : t),
    Hand.lowSum (Hand.cards h) <= Hand.value h ->
    17 <= Hand.lowSum (Hand.cards h) + Z.of_nat steps ->
    exists (h' : Hand.t) (m' : t),
      dealerPlay steps h m = Returned h' m' /\
      (exists drawn : list Card.t, Hand.cards h' = Hand.cards h ++ drawn).
Proof.
  induction steps as [|steps IH]; intros h m Hlow Hsteps; cbn [dealerPlay].
  - destruct (Z.ltb_spec (Hand.value h) 17) as [Hlt|Hge]; [lia|].
    cbn [andb]. exists h, m. split; [reflexivity|].
    exists []. symmetry; apply List.app_nil_r.
  - destruct ((Hand.value h <? 17) && negb (Hand.isBust h)).
    + unfold bind.
      destruct (dealCard_spec m) as (card & m2 & -> & _).
      destruct (IH (Hand.addCard card h) m2) as (h' & m' & Hrun & drawn & Hcards).
      * apply addCard_value_low.
      * rewrite addCard_cards. pose proof (lowSum_snoc (Hand.cards h) card).
        lia.
      * exists h', m'. split; [assumption|].
        exists (card :: drawn). rewrite Hcards, addCard_cards.
        rewrite <- List.app_assoc. reflexivity.
    + exists h, m. split; [reflexivity|].
      exists []. symmetry; apply List.app_nil_r.
Qed.

Lemma dealCard_length (m : t) (card : Card.t) (m' : t) :
  dealCard m = Returned card m' ->
  (List.length (deck m') <= Nat.max (List.length (deck m)) 51)%nat.
Proof.
  intros Hrun.
  destruct (dealCard_spec m) as (c & m2 & Hrun2 & [[_ Hdeck]|[_ Hperm]]);
    rewrite Hrun in Hrun2; injection Hrun2 as <- <-.
  - rewrite Hdeck, List.length_app. lia.
  - apply Permutation_length in Hperm.
    rewrite List.length_app in Hperm. cbn in Hperm. lia.
Qed.

(** The dealer's part of the generator returns within the step bound. *)
Lemma dealDealer_ends (steps : nat) (m : t) :
  (Nat.max (List.length (deck m)) 51 + 18 <= steps)%nat ->
  exists (h : Hand.t) (m' : t), dealDealer steps m = Returned h m'.
Proof.
  intros Hsteps. unfold dealDealer, bind.
  destruct (dealCard_spec m) as (first & m1 & Hrun1 & _).
  pose proof (dealCard_length _ _ _ Hrun1) as Hlen1. rewrite Hrun1.
  destruct (dealCard_spec m1) as (second & m2 & Hrun2 & _).
  pose proof (dealCard_length _ _ _ Hrun2) as Hlen2. rewrite Hrun2.
  destruct (redrawSecond_ends (List.length (deck m2)) steps first second m2)
    as (c & m3 & -> & _ & _); [lia | lia |].
  destruct (dealerPlay_ends steps
              (Hand.addCard c (Hand.addCard first Hand.new)) m3)
    as (h & m' & -> & _).
  - apply addCard_value_low.
  - rewrite !addCard_cards.
    pose proof (lowSum_snoc (Hand.cards Hand.new) first).
    pose proof (lowSum_snoc (Hand.cards Hand.new ++ [first]) c).
    pose proof (lowSum_nonneg (Hand.cards Hand.new)).
    lia.
  - exists h, m'. reflexivity.
Qed.

End DealerPlay.

(** ** The player's forced blackjack *)

Section PlayerHand.

Import ScenarioManager.

Lemma Card_eqb_eq (a b : Card.t) : Card.eqb a b = true -> a = b.
Proof.
  destruct a as [sa ra], b as [sb rb]. unfold Card.eqb; cbn.
  intros H. apply andb_prop in H as [Hs Hr].
  assert (sa = sb) as -> by (destruct sa, sb; (reflexivity || discriminate)).
  assert (ra = rb) as -> by (destruct ra, rb; (reflexivity || discriminate)).
  reflexivity.
Qed.

Lemma Card_eqb_refl (a : Card.t) : Card.eqb a a = true.
Proof. destruct a as [[] []]; reflexivity. Qed.

Lemma indexOf_found (card : Card.t) (d : list Card.t) :
  In card d ->
  exists k : nat, indexOf card d = Z.of_nat k /\ d !! k = Some card.
Proof.
  induction d as [|c rest IH]; intros Hin; [destruct Hin|].
  cbn [indexOf]. destruct (Card.eqb c card) eqn:Heq.
  - apply Card_eqb_eq in Heq. subst c. exists O. split; reflexivity.
  - destruct Hin as [->|Hin]; [rewrite Card_eqb_refl in Heq; discriminate|].
    destruct (IH Hin) as (k & Hk & Hlook). exists (S k). rewrite Hk.
    destruct (Z.ltb_spec (Z.of_nat k) 0); [lia|].
    split; [lia | exact Hlook].
Qed.

Lemma splice1_found (k : nat) (card : Card.t) (d : list Card.t) :
  d !! k = Some card ->
  splice1 (Z.of_nat k) d = (Some card, take k d ++ drop (S k) d).
Proof.
  intros Hlook. pose proof (lookup_lt_Some _ _ _ Hlook) as Hlt.
  unfold splice1. destruct (Z.ltb_spec (Z.of_nat k) 0); [lia|].
  replace (Z.to_nat (Z.min (Z.of_nat k) (Z.of_nat (List.length d)))) with k
    by lia.
  rewrite Hlook. reflexivity.
Qed.

Lemma filter_head (f : Card.t -> bool) (d : list Card.t) x rest :
  List.filter f d = x :: rest -> In x d /\ f x = true.
Proof.
  intros Hf. apply List.filter_In. rewrite Hf. left; reflexivity.
Qed.

Lemma removed_length (k : nat) (d : list Card.t) :
  (List.length (take k d ++ drop (S k) d) <= List.length d)%nat.
Proof.
  rewrite List.length_app, List.length_firstn, List.length_skipn. lia.
Qed.

(** A hand of an ace followed by a ten-ranked card. *)
Lemma ace_ten_hand (ace ten : Card.t) :
  Card.isAce ace = true -> Card.isTenRank ten = true ->
  let h := Hand.addCard ten (Hand.addCard ace Hand.new) in
  Hand.cards h = [ace; ten] /\ Hand.value h = 21 /\
  Hand.isBlackjack h = true /\ Hand.isBust h = false.
Proof.
  destruct ace as [sa []]; try discriminate;
    destruct ten as [st []]; try discriminate; intros _ _;
    repeat split.
Qed.

(** [dealPlayer] always returns, with an ace and then a ten-ranked card
    in the hand, and no more cards in the deck than before. *)
Lemma dealPlayer_spec (m : t) :
  exists (ace ten : Card.t) (m' : t),
    dealPlayer m
      = Returned (Hand.addCard ten (Hand.addCard ace Hand.new)) m' /\
    Card.isAce ace = true /\ Card.isTenRank ten = true /\
    (List.length (deck m') <= List.length (deck m))%nat.
Proof.
  unfold dealPlayer.
  destruct (List.filter Card.isAce (deck m)) as [|firstAce aces] eqn:Haces.
  { exists (Card.new Card.hearts Card.rA), (Card.new Card.spades Card.rK), m.
    repeat split; lia. }
  destruct (List.filter Card.isTenRank (deck m)) as [|firstTen tenCards]
    eqn:Htens.
  { exists (Card.new Card.hearts Card.rA), (Card.new Card.spades Card.rK), m.
    repeat split; lia. }
  apply filter_head in Haces as [HaceIn Hace].
  apply filter_head in Htens as [HtenIn Hten].
  destruct (indexOf_found _ _ HaceIn) as (ka & -> & Hlooka).
  rewrite (splice1_found _ _ _ Hlooka).
  unfold bind, addDealt, ret. cbn [deck random].
  assert (HtenIn' : In firstTen (take ka (deck m) ++ drop (S ka) (deck m))).
  { rewrite <- (take_drop_middle _ _ _ Hlooka) in HtenIn.
    apply List.in_app_or in HtenIn as [Hl|[->|Hr]].
    - apply List.in_or_app; left; exact Hl.
    - destruct firstTen as [s []]; discriminate.
    - apply List.in_or_app; right; exact Hr. }
  destruct (indexOf_found _ _ HtenIn') as (kt & -> & Hlookt).
  rewrite (splice1_found _ _ _ Hlookt).
  eexists firstAce, firstTen, _. split; [reflexivity|].
  repeat split; try assumption. cbn [deck].
  pose proof (removed_length kt (take ka (deck m) ++ drop (S ka) (deck m))).
  pose proof (removed_length ka (deck m)). lia.
Qed.

End PlayerHand.

(** ** Generated scenarios *)

Section Scenarios.

Import ScenarioManager.

Lemma Returned_eq {A : Type} (a b : A) (m m' : t) :
  Returned a m = Returned b m' -> a = b.
Proof. intros H. injection H as -> _. reflexivity. Qed.

Lemma betAmounts_positive : Forall (fun bet => (0 < bet)%Q) betAmounts.
Proof. unfold betAmounts. repeat constructor. Qed.

Lemma pickBet_spec (m : t) :
  exists (bet : Q) (m' : t),
    pickBet m = Returned bet m' /\ deck m' = deck m /\
    In bet betAmounts /\ (0 < bet)%Q.
Proof.
  unfold pickBet, randomBelow.
  eexists _, _. split; [reflexivity|]. split; [reflexivity|].
  assert (Hin : In (List.nth
                      (oracle (random m) (drawn (random m))
                         mod List.length betAmounts)%nat betAmounts 0%Q)
                   betAmounts).
  { apply List.nth_In. apply Nat.mod_upper_bound. discriminate. }
  split; [exact Hin|].
  exact (proj1 (List.Forall_forall _ _) betAmounts_positive _ Hin).
Qed.

Lemma redrawSecond_returns (steps : nat) :
  forall (first second c : Card.t) (m m' : t),
    redrawSecond steps first second m = Returned c m' ->
    dealerNatural first c = false.
Proof.
  induction steps as [|steps IH]; intros first second c m m' Hrun;
    destruct (dealerNatural first second) eqn:Hnat.
  - unfold dealerNatural in Hnat. cbn [redrawSecond] in Hrun.
    rewrite Hnat in Hrun. discriminate.
  - rewrite redrawSecond_done in Hrun by assumption.
    injection Hrun as <- _. assumption.
  - rewrite redrawSecond_again in Hrun by assumption. unfold bind in Hrun.
    destruct (dealCard m) as [next m2| |]; try discriminate.
    exact (IH _ _ _ _ _ Hrun).
  - rewrite redrawSecond_done in Hrun by assumption.
    injection Hrun as <- _. assumption.
Qed.

Lemma dealerPlay_returns (steps : nat) :
  forall (h h' : Hand.t) (m m' : t),
    dealerPlay steps h m = Returned h' m' ->
    exists drawn : list Card.t, Hand.cards h' = Hand.cards h ++ drawn.
Proof.
  induction steps as [|steps IH]; intros h h' m m' Hrun;
    cbn [dealerPlay] in Hrun;
    destruct ((Hand.value h <? 17) && negb (Hand.isBust h)).
  - discriminate.
  - injection Hrun as <- _. exists []. symmetry; apply List.app_nil_r.
  - unfold bind in Hrun.
    destruct (dealCard m) as [card m2| |]; try discriminate.
    destruct (IH _ _ _ _ Hrun) as (drawn & Hcards).
    exists (card :: drawn). rewrite Hcards, addCard_cards.
    rewrite <- List.app_assoc. reflexivity.
  - injection Hrun as <- _. exists []. symmetry; apply List.app_nil_r.
Qed.

(** What the redraw loop does rule out: an ace dealt first to the
    dealer is never followed by a card worth 10. *)
Lemma dealDealer_not_ace_then_ten (steps : nat) (m m' : t) (h : Hand.t) :
  dealDealer steps m = Returned h m' ->
  exists (first second : Card.t) (drawn : list Card.t),
    Hand.cards h = first :: second :: drawn /\
    dealerNatural first second = false.
Proof.
  unfold dealDealer, bind. intros Hrun.
  destruct (dealCard m) as [first m1| |]; try discriminate.
  destruct (dealCard m1) as [second m2| |]; try discriminate.
  destruct (redrawSecond steps first second m2) as [c m3| |] eqn:Hredraw;
    try discriminate.
  apply redrawSecond_returns in Hredraw.
  apply dealerPlay_returns in Hrun as (drawn & Hcards).
  exists first, c, drawn. split; [exact Hcards | exact Hredraw].
Qed.

End Scenarios.

(** C2.  [generateScenario] returns a scenario from every manager, the
    loops of the dealer ending within a number of turns bounded by the
    size of the deck; and every scenario it returns has a player hand of
    exactly two cards, an ace and then a card of rank 10, J, Q or K, with
    value 21 and [isBlackjack] set, has the result ['blackjack'], a bet
    taken from [betAmounts], hence positive, and a correct payout of the
    bet times 1.5. *)
Theorem generateScenario_forces_player_blackjack (m : ScenarioManager.t) :
  (forall steps : nat,
      (Nat.max (List.length (ScenarioManager.deck m)) 51 + 18 <= steps)%nat ->
      exists sc m', ScenarioManager.generateScenario steps m
                    = ScenarioManager.Returned sc m') /\
  (forall (steps : nat) (sc : BlackjackScenario.t) (m' : ScenarioManager.t),
      ScenarioManager.generateScenario steps m = ScenarioManager.Returned sc m' ->
      exists ace ten : Card.t,
        Hand.cards (BlackjackScenario.playerHand sc) = [ace; ten] /\
        Card.rank ace = Card.rA /\
        Card.isTenRank ten = true /\
        Hand.value (BlackjackScenario.playerHand sc) = 21 /\
        Hand.isBlackjack (BlackjackScenario.playerHand sc) = true /\
        BlackjackScenario.result sc = "blackjack"%string /\
        BlackjackScenario.correctPayout sc
          = (BlackjackScenario.betAmount sc * 1.5)%Q /\
        In (BlackjackScenario.betAmount sc) ScenarioManager.betAmounts /\
        (0 < BlackjackScenario.betAmount sc)%Q).
Proof.
  destruct (dealPlayer_spec (ScenarioManager.shuffleDeck m))
    as (ace & ten & m1 & Hplayer & Hace & Hten & Hlen).
  rewrite shuffleDeck_length in Hlen.
  split.
  - intros steps Hsteps.
    unfold ScenarioManager.generateScenario, ScenarioManager.bind.
    rewrite Hplayer.
    destruct (dealDealer_ends steps m1) as (dh & m2 & ->); [lia|].
    destruct (pickBet_spec m2) as (bet & m3 & -> & _).
    eexists _, _. reflexivity.
  - intros steps sc m' Hrun.
    unfold ScenarioManager.generateScenario, ScenarioManager.bind in Hrun.
    rewrite Hplayer in Hrun.
    destruct (ScenarioManager.dealDealer steps m1) as [dh m2| |];
      try discriminate.
    destruct (pickBet_spec m2) as (bet & m3 & Hbet & _ & Hin & Hpos).
    rewrite Hbet in Hrun. injection Hrun as <- _.
    destruct (ace_ten_hand ace ten Hace Hten) as (Hcards & Hval & Hbj & _).
    exists ace, ten. cbn [BlackjackScenario.new BlackjackScenario.playerHand
      BlackjackScenario.result BlackjackScenario.correctPayout
      BlackjackScenario.betAmount].
    repeat split; try assumption.
    destruct ace as [s []]; (reflexivity || discriminate).
Qed.

Lemma generateScenario_forces_player_blackjack_witness :
  let m := ScenarioManager.new (ScenarioManager.mkRandom (fun _ => O) O) in
  exists sc m',
    ScenarioManager.generateScenario 70 m = ScenarioManager.Returned sc m' /\
    Hand.cards (BlackjackScenario.playerHand sc)
      = [Card.new Card.diamonds Card.rA; Card.new Card.hearts Card.r10] /\
    BlackjackScenario.betAmount sc = 5%Q /\
    exists ace ten : Card.t,
      Hand.cards (BlackjackScenario.playerHand sc) = [ace; ten] /\
      Card.rank ace = Card.rA /\
      Card.isTenRank ten = true /\
      Hand.value (BlackjackScenario.playerHand sc) = 21 /\
      Hand.isBlackjack (BlackjackScenario.playerHand sc) = true /\
      BlackjackScenario.result sc = "blackjack"%string /\
      BlackjackScenario.correctPayout sc
        = (BlackjackScenario.betAmount sc * 1.5)%Q /\
      In (BlackjackScenario.betAmount sc) ScenarioManager.betAmounts /\
      (0 < BlackjackScenario.betAmount sc)%Q.
Proof.
  cbv zeta. eexists _, _.
  split; [vm_compute; reflexivity|].
  split; [reflexivity|]. split; [reflexivity|].
  eapply (proj2 (generateScenario_forces_player_blackjack
                   (ScenarioManager.new
                      (ScenarioManager.mkRandom (fun _ => O) O))) 70%nat).
  vm_compute; reflexivity.
Defined.

(** What the generator does guarantee about the dealer: in every scenario
    it returns, the dealer holds at least two cards, and the first two are
    not an ace followed by a card worth 10. *)
Theorem generateScenario_dealer_not_ace_then_ten
    (steps : nat) (m m' : ScenarioManager.t) (sc : BlackjackScenario.t)
    (Hrun : ScenarioManager.generateScenario steps m
            = ScenarioManager.Returned sc m') :
  exists (first second : Card.t) (drawn : list Card.t),
    Hand.cards (BlackjackScenario.dealerHand sc) = first :: second :: drawn /\
    ~ (Card.value first = 11 /\ Card.value second = 10).
Proof.
  unfold ScenarioManager.generateScenario, ScenarioManager.bind in Hrun.
  destruct (ScenarioManager.dealPlayer (ScenarioManager.shuffleDeck m))
    as [ph m1| |]; try discriminate.
  destruct (ScenarioManager.dealDealer steps m1) as [dh m2| |] eqn:Hdealer;
    try discriminate.
  destruct (pickBet_spec m2) as (bet & m3 & Hbet & _).
  rewrite Hbet in Hrun. apply Returned_eq in Hrun. subst sc.
  destruct (dealDealer_not_ace_then_ten _ _ _ _ Hdealer)
    as (first & second & drawn & Hcards & Hno).
  exists first, second, drawn. split; [exact Hcards|].
  intros [H11 H10]. unfold ScenarioManager.dealerNatural in Hno.
  rewrite H11, H10 in Hno. discriminate.
Qed.

Lemma generateScenario_dealer_not_ace_then_ten_witness :
  let m := ScenarioManager.new (ScenarioManager.mkRandom (fun _ => O) O) in
  exists sc m',
    ScenarioManager.generateScenario 70 m = ScenarioManager.Returned sc m' /\
    Hand.cards (BlackjackScenario.dealerHand sc)
      = [Card.new Card.hearts Card.rA; Card.new Card.spades Card.r9] /\
    exists (first second : Card.t) (drawn : list Card.t),
      Hand.cards (BlackjackScenario.dealerHand sc) = first :: second :: drawn /\
      ~ (Card.value first = 11 /\ Card.value second = 10).
Proof.
  cbv zeta. eexists _, _.
  split; [vm_compute; reflexivity|].
  split; [reflexivity|].
  eapply (generateScenario_dealer_not_ace_then_ten 70
            (ScenarioManager.new (ScenarioManager.mkRandom (fun _ => O) O))).
  vm_compute; reflexivity.
Defined.

(** C5.  A run of the generator in which the dealer is dealt the king of
    spades and then the ace of spades: the redraw loop only looks for an
    ace followed by a card worth 10, so the dealer keeps this hand, a
    two-card 21 with [isBlackjack] set. *)
Theorem generateScenario_dealer_natural :
  let m := ScenarioManager.new
             (ScenarioManager.mkRandom ScenarioManager.kingThenAce O) in
  exists sc m',
    ScenarioManager.generateScenario 70 m = ScenarioManager.Returned sc m' /\
    Hand.cards (BlackjackScenario.dealerHand sc)
      = [Card.new Card.spades Card.rK; Card.new Card.spades Card.rA] /\
    Hand.value (BlackjackScenario.dealerHand sc) = 21 /\
    Hand.isBlackjack (BlackjackScenario.dealerHand sc) = true.
Proof.
  cbv zeta. eexists _, _.
  split; [vm_compute; reflexivity|].
  repeat split.
Qed.

(** ** Exact change that the greedy pass does not find *)

Example calculateOptimalChips_37 :
  let chips := [Chip.new 1 "" ""; Chip.new 5 "" ""; Chip.new 25 "" "";
                Chip.new 100 "" ""] in
  option_map PayoutCalculator.denominations
    (PayoutCalculator.calculateOptimalChips 37 chips)
  = Some [(25%Q, 1); (5%Q, 2); (1%Q, 2)].
Proof. reflexivity. Qed.

(** C1.  The payout 18 of the listed bet 12 is three $5 chips and three
    $1 chips of the tray, yet [calculateOptimalChips] returns [null] for
    it: after three $5 chips the greedy pass takes a $2.50 chip from the
    remaining 3 and is left with 0.5, which no $1 chip covers. *)
Theorem calculateOptimalChips_misses_exact_change :
  let five := Chip.new 5 "chip-5" "$5" in
  let one := Chip.new 1 "chip-1" "$1" in
  let scenario := BlackjackScenario.new Hand.new Hand.new 12 in
  In five standardChips /\ In one standardChips /\
  Qeq (PayoutCalculator.totalValue [(five, 3); (one, 3)]) 18%Q /\
  In 12%Q ScenarioManager.betAmounts /\
  (PayoutCalculator.calculatePayout (Some scenario) == 18)%Q /\
  PayoutCalculator.calculateOptimalChips 18 standardChips = None /\
  PayoutCalculator.calculateOptimalChips
    (PayoutCalculator.calculatePayout (Some scenario)) standardChips = None /\
  Qeq (snd (fold_left PayoutCalculator.takeChip
              (PayoutCalculator.sortDesc standardChips) ([], 18%Q))) 0.5%Q.
Proof.
  cbv zeta.
  split; [cbn; tauto|].
  split; [cbn; tauto|].
  split; [reflexivity|].
  split; [unfold ScenarioManager.betAmounts; cbn; tauto|].
  split; [reflexivity|].
  split; [vm_compute; reflexivity|].
  split; [vm_compute; reflexivity|].
  vm_compute; reflexivity.
Qed.

(** ** The greedy pass on amounts in half dollars *)

Section HalfDollars.

Import PayoutCalculator.
Local Open Scope Q_scope.

Lemma Qfloor_between (x : Q) (n : Z) :
  inject_Z n <= x -> x < inject_Z (n + 1) -> Qfloor x = n.
Proof.
  intros Hlo Hhi.
  apply Qfloor_resp_le in Hlo. rewrite Qfloor_Z in Hlo.
  pose proof (Qle_lt_trans _ _ _ (Qfloor_le x) Hhi) as Hup.
  rewrite <- Zlt_Qlt in Hup. lia.
Qed.

(** Rounding to cents leaves a multiple of 0.5 as it is. *)
Lemma round2_half (x : Q) (n : Z) :
  x == inject_Z n / 2 -> round2 x == inject_Z n / 2.
Proof.
  intros Hx. unfold round2.
  assert (Hx100 : x * 100 + 0.5 == inject_Z (50 * n) + 0.5)
    by (rewrite Hx, inject_Z_mult; field).
  assert (Hfloor : Qfloor (x * 100 + 0.5) = (50 * n)%Z).
  { apply Qfloor_between; rewrite Hx100.
    - rewrite <- (Qplus_0_r (inject_Z (50 * n))) at 1.
      apply Qplus_le_r. discriminate.
    - rewrite inject_Z_plus. apply Qplus_lt_r. reflexivity. }
  rewrite Hfloor, inject_Z_mult. field.
Qed.

Lemma totalValue_snoc (combo : list (Chip.t * Z)) (c : Chip.t) (n : Z) :
  totalValue (combo ++ [(c, n)])
  = totalValue combo + Chip.value c * inject_Z n.
Proof. unfold totalValue. rewrite List.fold_left_app. reflexivity. Qed.

(** One turn of the loop on [k] half dollars left and a chip worth [d]
    half dollars: [k / d] chips are taken and [k mod d] half dollars are
    left; what is taken and what is left still add up to the target. *)
Lemma takeChip_half (acc : list (Chip.t * Z) * Q) (c : Chip.t)
    (k d : Z) (target : Q) :
  (0 <= k)%Z -> (0 < d)%Z ->
  snd acc == inject_Z k / 2 ->
  Chip.value c == inject_Z d / 2 ->
  totalValue (fst acc) + snd acc == target ->
  snd (takeChip acc c) == inject_Z (k mod d) / 2 /\
  totalValue (fst (takeChip acc c)) + snd (takeChip acc c) == target.
Proof.
  intros Hk Hd Hrem Hval Htot.
  assert (Hd0 : ~ inject_Z d == 0)
    by (unfold Qeq; cbn; lia).
  assert (Hcount : Qfloor (snd acc / Chip.value c) = (k / d)%Z).
  { rewrite Zdiv_Qdiv. apply Qfloor_comp. rewrite Hrem, Hval. field.
    exact Hd0. }
  assert (Hsplit : inject_Z k
                   == inject_Z d * inject_Z (k / d) + inject_Z (k mod d)).
  { rewrite <- inject_Z_mult, <- inject_Z_plus.
    rewrite <- (Z.div_mod k d) by lia. reflexivity. }
  unfold takeChip. cbv zeta. rewrite Hcount.
  destruct (Z.ltb_spec 0 (k / d)) as [Hpos|Hzero]; cbn [fst snd].
  - assert (Hleft : round2 (snd acc - inject_Z (k / d) * Chip.value c)
                    == inject_Z (k mod d) / 2).
    { apply round2_half. rewrite Hrem, Hval, Hsplit. field. }
    split; [exact Hleft|].
    rewrite totalValue_snoc, Hleft, <- Htot, Hrem, Hval, Hsplit. field.
  - assert (Hdiv : (k / d = 0)%Z)
      by (pose proof (Z.div_pos k d Hk Hd); lia).
    assert (Hmod : (k mod d = k)%Z)
      by (rewrite Z.mod_eq, Hdiv by lia; lia).
    rewrite Hmod. split; assumption.
Qed.

Lemma fold_takeChip_half (cs : list Chip.t) (ds : list Z) :
  Forall2 (fun c d => (0 < d)%Z /\ Chip.value c == inject_Z d / 2) cs ds ->
  forall (acc : list (Chip.t * Z) * Q) (k : Z) (target : Q),
    (0 <= k)%Z ->
    snd acc == inject_Z k / 2 ->
    totalValue (fst acc) + snd acc == target ->
    snd (fold_left takeChip cs acc)
      == inject_Z (fold_left Z.modulo ds k) / 2 /\
    totalValue (fst (fold_left takeChip cs acc))
      + snd (fold_left takeChip cs acc) == target.
Proof.
  induction 1 as [|c d cs ds [Hd Hval] _ IH]; intros acc k target Hk Hrem Htot;
    cbn [fold_left].
  - split; assumption.
  - destruct (takeChip_half acc c k d target Hk Hd Hrem Hval Htot)
      as [Hrem' Htot'].
    apply IH; [|assumption|assumption].
    apply Z.mod_pos_bound. exact Hd.
Qed.

Lemma standardChips_half :
  Forall2 (fun c d => (0 < d)%Z /\ Chip.value c == inject_Z d / 2)
          (sortDesc standardChips) [2000; 1000; 200; 50; 10; 5; 2]%Z.
Proof.
  rewrite sortDesc_standardChips.
  repeat constructor; vm_compute; reflexivity.
Qed.

Lemma left_over_half (k : Z) :
  fold_left Z.modulo [2000; 1000; 200; 50; 10; 5; 2]%Z k = ((k mod 5) mod 2)%Z.
Proof. cbn [fold_left]. Z.div_mod_to_equations. lia. Qed.

(** The whole loop on [k] half dollars: [(k mod 5) mod 2] half dollars
    are left over, and the chips taken make up the rest. *)
Lemma greedy_run_half (k : Z) :
  (0 <= k)%Z ->
  let final := fold_left takeChip (sortDesc standardChips)
                         ([], inject_Z k / 2) in
  snd final == inject_Z ((k mod 5) mod 2) / 2 /\
  totalValue (fst final) + snd final == inject_Z k / 2.
Proof.
  intros Hk final. rewrite <- left_over_half.
  apply (fold_takeChip_half _ _ standardChips_half); cbn [fst snd].
  - exact Hk.
  - reflexivity.
  - unfold totalValue; cbn [fold_left]. apply Qplus_0_l.
Qed.

End HalfDollars.

(** On an amount of [k] half dollars, [k] not negative, and the seven
    chips of the tray, [calculateOptimalChips] returns [null] exactly when
    [(k mod 5) mod 2 = 1], that is when the amount leaves 0.5, 1.5, 3 or 4
    after the $5 chips; a combination it does return adds up to the
    amount exactly. *)
Theorem calculateOptimalChips_half_dollars (k : Z) (Hk : 0 <= k) :
  let amount := (inject_Z k / 2)%Q in
  (PayoutCalculator.calculateOptimalChips amount standardChips = None
     <-> (k mod 5) mod 2 = 1) /\
  (forall combo : list (Chip.t * Z),
      PayoutCalculator.calculateOptimalChips amount standardChips = Some combo ->
      (PayoutCalculator.totalValue combo == amount)%Q).
Proof.
  intros amount. unfold PayoutCalculator.calculateOptimalChips.
  destruct (Qle_bool amount 0) eqn:Hsign.
  - apply Qle_bool_iff in Hsign.
    assert (k = 0) as ->.
    { unfold amount, Qdiv in Hsign.
      rewrite <- (Qmult_0_l (/ 2)) in Hsign.
      apply Qmult_le_r in Hsign; [|reflexivity].
      change 0%Q with (inject_Z 0) in Hsign.
      rewrite <- Zle_Qle in Hsign. lia. }
    split.
    + split; [discriminate | intros Hodd; cbn in Hodd; discriminate].
    + intros combo Hsome. apply Some_eq in Hsome. subst combo. reflexivity.
  - cbv zeta.
    destruct (greedy_run_half k Hk) as [Hleft Htotal]. fold amount in Hleft, Htotal.
    set (final := fold_left PayoutCalculator.takeChip
                    (PayoutCalculator.sortDesc standardChips) ([], amount)) in *.
    assert (Hcases : (k mod 5) mod 2 = 0 \/ (k mod 5) mod 2 = 1)
      by (Z.div_mod_to_equations; lia).
    destruct (PayoutCalculator.Qlt_bool (snd final) PayoutCalculator.tolerance)
      eqn:Hnear.
    + apply Qlt_bool_iff in Hnear. rewrite Hleft in Hnear.
      destruct Hcases as [Hz|Ho].
      * split; [split; [discriminate | lia]|].
        intros combo Hsome. apply Some_eq in Hsome. subst combo.
        rewrite Hz in Hleft. rewrite <- Htotal, Hleft.
        unfold Qdiv. rewrite Qmult_0_l, Qplus_0_r. reflexivity.
      * rewrite Ho in Hnear. vm_compute in Hnear. discriminate.
    + split; [|discriminate].
      split; [intros _ | reflexivity].
      destruct Hcases as [Hz|Ho]; [|exact Ho].
      rewrite Hz in Hleft.
      assert (Hlt : (snd final < PayoutCalculator.tolerance)%Q)
        by (rewrite Hleft; reflexivity).
      apply Qlt_bool_iff in Hlt. congruence.
Qed.

Lemma calculateOptimalChips_half_dollars_witness :
  PayoutCalculator.calculateOptimalChips (inject_Z 36 / 2) standardChips = None
  /\ (exists combo,
         PayoutCalculator.calculateOptimalChips (inject_Z 75 / 2) standardChips
         = Some combo /\
         (PayoutCalculator.totalValue combo == inject_Z 75 / 2)%Q).
Proof.
  split.
  - apply (proj1 (calculateOptimalChips_half_dollars 36 ltac:(lia))).
    reflexivity.
  - eexists. split; [vm_compute; reflexivity|].
    apply (proj2 (calculateOptimalChips_half_dollars 75 ltac:(lia))).
    vm_compute; reflexivity.
Defined.

(** * Further properties of the code *)

(** ** Hands: order of the cards, soft aces, blackjack and bust *)

Section HandFacts.

Import Hand.

Lemma highSum_perm (xs ys : list Card.t) :
  xs ≡ₚ ys -> highSum xs = highSum ys.
Proof.
  unfold highSum.
  induction 1 as [|x xs ys _ IH|x y xs|xs ys zs _ IH1 _ IH2]; cbn; lia.
Qed.

Lemma aceCount_perm (xs ys : list Card.t) :
  xs ≡ₚ ys -> aceCount xs = aceCount ys.
Proof. apply filter_length_perm. Qed.

(** What [calculateValue] computes, as a function of three numbers read
    off the cards. *)
Lemma calculateValue_by_sums (h : t) :
  let final := convertAces (highSum (cards h)) (aceCount (cards h)) in
  calculateValue h
  = mk (cards h) (fst final) (snd final)
       ((fst final =? 21) && Nat.eqb (List.length (cards h)) 2)
       (21 <? fst final).
Proof.
  unfold calculateValue. rewrite addUp_fold. cbn [fst snd].
  rewrite Z.add_0_l, Nat.add_0_l. reflexivity.
Qed.

Lemma highSum_aces (cs : list Card.t) :
  11 * Z.of_nat (aceCount cs) <= highSum cs.
Proof.
  induction cs as [|c cs IH]; [cbn; lia|].
  change (c :: cs) with ([c] ++ cs). rewrite highSum_app, aceCount_app.
  destruct c as [s []]; cbn in *; lia.
Qed.

Lemma calculateValue_soft_le_1 (h : t) :
  (softAces (calculateValue h) <= 1)%nat.
Proof.
  destruct (calculateValue_conversions h) as (k & Hk & Hval & Hsoft & _ & Hstop).
  pose proof (highSum_aces (cards h)).
  destruct (Nat.lt_ge_cases k (aceCount (cards h))) as [Hlt|Hge]; [|lia].
  specialize (Hstop Hlt). lia.
Qed.

Lemma calculateValue_soft_not_bust (h : t) :
  isSoft (calculateValue h) = true ->
  value (calculateValue h) <= 21 /\ isBust (calculateValue h) = false.
Proof.
  unfold isSoft. intros Hsoft. apply Nat.ltb_lt in Hsoft.
  destruct (calculateValue_conversions h) as (k & Hk & Hval & Hs & _ & Hstop).
  assert (Hle : value (calculateValue h) <= 21) by (apply Hstop; lia).
  split; [exact Hle|].
  rewrite calculateValue_by_sums in *. cbn [isBust value] in *.
  apply Z.ltb_ge. exact Hle.
Qed.

(** The two-card hands that count 21. *)
Lemma two_cards_21 (a b : Card.t) (v : Z) (s : nat) (bj bust : bool) :
  let h := calculateValue (mk [a; b] v s bj bust) in
  (isBlackjack h = true <->
     (Card.isAce a = true /\ Card.value b = 10) \/
     (Card.value a = 10 /\ Card.isAce b = true)) /\
  (isBlackjack h = true -> softAces h = 1%nat).
Proof.
  destruct a as [sa ra], b as [sb rb].
  destruct ra, rb; cbn; (split; [split; [intros H; try discriminate H; tauto
    | intros [[H1 H2]|[H1 H2]]; (discriminate || reflexivity)]
    | intros H; (discriminate || reflexivity)]).
Qed.

End HandFacts.

(** The value of a hand does not depend on the order of its cards: two
    hands holding the same cards in any order get the same [value],
    [softAces], [isBlackjack] and [isBust] from [calculateValue]. *)
Theorem calculateValue_order_independent (h1 h2 : Hand.t)
    (Hsame : Hand.cards h1 ≡ₚ Hand.cards h2) :
  Hand.value (Hand.calculateValue h1) = Hand.value (Hand.calculateValue h2) /\
  Hand.softAces (Hand.calculateValue h1)
    = Hand.softAces (Hand.calculateValue h2) /\
  Hand.isBlackjack (Hand.calculateValue h1)
    = Hand.isBlackjack (Hand.calculateValue h2) /\
  Hand.isBust (Hand.calculateValue h1) = Hand.isBust (Hand.calculateValue h2).
Proof.
  rewrite !calculateValue_by_sums.
  cbn [Hand.value Hand.softAces Hand.isBlackjack Hand.isBust].
  rewrite (highSum_perm _ _ Hsame), (aceCount_perm _ _ Hsame),
    (Permutation_length Hsame).
  repeat split.
Qed.

Lemma calculateValue_order_independent_witness :
  let a := Card.new Card.hearts Card.rA in
  let six := Card.new Card.spades Card.r6 in
  let eight := Card.new Card.clubs Card.r8 in
  Hand.value (Hand.calculateValue (Hand.mk [a; six; eight] 0 0 false false))
  = Hand.value (Hand.calculateValue (Hand.mk [eight; a; six] 0 0 false false)).
Proof.
  cbv zeta.
  apply (calculateValue_order_independent
           (Hand.mk [Card.new Card.hearts Card.rA; Card.new Card.spades Card.r6;
                     Card.new Card.clubs Card.r8] 0 0 false false)
           (Hand.mk [Card.new Card.clubs Card.r8; Card.new Card.hearts Card.rA;
                     Card.new Card.spades Card.r6] 0 0 false false)).
  cbn [Hand.cards].
  exact (Permutation_app_comm
           [Card.new Card.hearts Card.rA; Card.new Card.spades Card.r6]
           [Card.new Card.clubs Card.r8]).
Defined.

(** After [calculateValue] at most one ace is still counted as 11; a soft
    hand ([isSoft]) is worth 21 or less and is not bust; a blackjack is a
    soft hand and is not bust; and no hand is both blackjack and bust. *)
Theorem calculateValue_soft_hands (h : Hand.t) :
  let h' := Hand.calculateValue h in
  (Hand.softAces h' <= 1)%nat /\
  (Hand.isSoft h' = true -> Hand.value h' <= 21 /\ Hand.isBust h' = false) /\
  (Hand.isBlackjack h' = true ->
     Hand.isSoft h' = true /\ Hand.isBust h' = false) /\
  Hand.isBlackjack h' && Hand.isBust h' = false.
Proof.
  intros h'.
  assert (Hbj : Hand.isBlackjack h' = true ->
                Hand.isSoft h' = true /\ Hand.isBust h' = false).
  { intros Hbj.
    assert (Hsoft : Hand.isSoft h' = true).
    { unfold h' in *. clear h'. pose proof Hbj as Hlen.
      rewrite calculateValue_by_sums in Hlen.
      cbn [Hand.isBlackjack] in Hlen. apply andb_prop in Hlen as [_ Hlen].
      apply Nat.eqb_eq in Hlen.
      destruct h as [[|a [|b [|c cs]]] v s bj bust]; try discriminate Hlen.
      destruct (two_cards_21 a b v s bj bust) as [_ Hone].
      unfold Hand.isSoft. rewrite (Hone Hbj). reflexivity. }
    split; [exact Hsoft | apply calculateValue_soft_not_bust, Hsoft]. }
  split; [apply calculateValue_soft_le_1|].
  split; [apply calculateValue_soft_not_bust|].
  split; [exact Hbj|].
  destruct (Hand.isBlackjack h') eqn:E; [|reflexivity].
  destruct (Hbj eq_refl) as [_ ->]. reflexivity.
Qed.

Lemma calculateValue_soft_hands_witness :
  let h := Hand.calculateValue
             (Hand.mk [Card.new Card.hearts Card.rA; Card.new Card.spades Card.r6]
                      0 0 false false) in
  Hand.isSoft h = true /\ Hand.value h = 17 /\ Hand.value h <= 21 /\
  Hand.isBust h = false.
Proof.
  cbv zeta.
  destruct (calculateValue_soft_hands
              (Hand.mk [Card.new Card.hearts Card.rA;
                        Card.new Card.spades Card.r6] 0 0 false false))
    as (_ & Hsoft & _).
  split; [reflexivity|]. split; [reflexivity|].
  apply Hsoft. reflexivity.
Defined.

(** [isBlackjack] is set by [calculateValue] exactly for the hands of two
    cards that are an ace and a card worth 10, in either order. *)
Theorem calculateValue_blackjack_iff (h : Hand.t) :
  Hand.isBlackjack (Hand.calculateValue h) = true <->
  exists a b : Card.t,
    Hand.cards h = [a; b] /\
    ((Card.isAce a = true /\ Card.value b = 10) \/
     (Card.value a = 10 /\ Card.isAce b = true)).
Proof.
  destruct h as [cs v s bj bust]. cbn [Hand.cards]. split.
  - intros Hbj.
    assert (Hlen : List.length cs = 2%nat).
    { rewrite calculateValue_by_sums in Hbj. cbn [Hand.isBlackjack Hand.cards] in Hbj.
      apply andb_prop in Hbj as [_ Hlen]. apply Nat.eqb_eq, Hlen. }
    destruct cs as [|a [|b [|c cs]]]; try discriminate Hlen.
    exists a, b. split; [reflexivity|].
    apply (two_cards_21 a b v s bj bust), Hbj.
  - intros (a & b & -> & Hab).
    apply (two_cards_21 a b v s bj bust), Hab.
Qed.

Section AddingCards.

Import Hand.

Lemma card_kinds (c : Card.t) :
  (Card.isAce c = true /\ Card.value c = 11 /\ aceCount [c] = 1%nat) \/
  (Card.isAce c = false /\ 2 <= Card.value c <= 10 /\ aceCount [c] = 0%nat).
Proof. destruct c as [s []]; cbn; intuition lia. Qed.

Lemma calculateValue_idem (h : t) :
  calculateValue (calculateValue h) = calculateValue h.
Proof. reflexivity. Qed.

Lemma addCard_consistent (c : Card.t) (h : t) :
  calculateValue (addCard c h) = addCard c h.
Proof. reflexivity. Qed.

(** How the value moves when a card is added. *)
Lemma addCard_value_bounds (c : Card.t) (h : t) :
  let v := value (calculateValue h) in
  let v' := value (addCard c h) in
  v' <= v + Card.value c /\
  (v <= 21 -> v' <= Z.max 21 (v + 10)) /\
  (21 < v -> 21 < v').
Proof.
  intros v v'. subst v v'.
  destruct (calculateValue_conversions h)
    as (k & Hk & Hval & _ & Hprev & Hstop).
  unfold addCard.
  match goal with |- context [calculateValue ?x] =>
    destruct (calculateValue_conversions x)
      as (k' & Hk' & Hval' & _ & Hprev' & Hstop')
  end.
  cbn [cards] in *. rewrite highSum_app, aceCount_app in *.
  assert (Hone : highSum [c] = Card.value c) by (cbn; lia).
  rewrite Hone in *. rewrite Hval, Hval'.
  assert (Hkk : (k <= k')%nat).
  { destruct (Nat.lt_ge_cases k' k) as [Hlt|Hge]; [|exact Hge].
    specialize (Hprev k' Hlt). specialize (Hstop' ltac:(lia)).
    destruct (card_kinds c) as [(_ & Hx & _)|(_ & Hx & _)]; lia. }
  destruct (Nat.lt_ge_cases k (aceCount (cards h))) as [Hka|Hka];
    destruct (Nat.lt_ge_cases k' (aceCount (cards h) + aceCount [c]))
      as [Hka'|Hka'];
    try specialize (Hstop Hka); try specialize (Hstop' Hka');
    destruct (card_kinds c) as [(_ & Hx & Ha)|(_ & Hx & Ha)];
    rewrite Ha in *; repeat split; intros; lia.
Qed.

End AddingCards.

(** Adding a card to a hand raises its value by at most the value of the
    card (an ace may lower it instead), and a hand that is bust stays bust
    whatever card is added. *)
Theorem addCard_value_and_bust (c : Card.t) (h : Hand.t) :
  Hand.value (Hand.addCard c h)
    <= Hand.value (Hand.calculateValue h) + Card.value c /\
  (Hand.isBust (Hand.calculateValue h) = true ->
   Hand.isBust (Hand.addCard c h) = true).
Proof.
  destruct (addCard_value_bounds c h) as (Hup & _ & Hbust).
  split; [exact Hup|].
  intros Hb.
  assert (Hgt : 21 < Hand.value (Hand.calculateValue h)).
  { rewrite calculateValue_by_sums in Hb |- *.
    cbn [Hand.isBust Hand.value] in *. apply Z.ltb_lt, Hb. }
  specialize (Hbust Hgt).
  rewrite <- addCard_consistent, calculateValue_by_sums in Hbust |- *.
  cbn [Hand.isBust Hand.value] in *. apply Z.ltb_lt, Hbust.
Qed.

Lemma addCard_value_and_bust_witness :
  let bust := Hand.addCard (Card.new Card.clubs Card.r5)
                (Hand.addCard (Card.new Card.spades Card.rQ)
                   (Hand.addCard (Card.new Card.hearts Card.rK) Hand.new)) in
  Hand.isBust bust = true /\
  Hand.isBust (Hand.addCard (Card.new Card.hearts Card.rA) bust) = true.
Proof.
  cbv zeta. split; [reflexivity|].
  apply (addCard_value_and_bust (Card.new Card.hearts Card.rA)).
  reflexivity.
Defined.

Section DealerBounds.

Import ScenarioManager.

(** The dealer's loop leaves a hand worth 17 to 26. *)
Lemma dealerPlay_stands (steps : nat) :
  forall (h h' : Hand.t) (m m' : t),
    Hand.calculateValue h = h ->
    Hand.value h <= 26 ->
    dealerPlay steps h m = Returned h' m' ->
    Hand.calculateValue h' = h' /\ 17 <= Hand.value h' <= 26.
Proof.
  induction steps as [|steps IH]; intros h h' m m' Hcons Hmax Hrun;
    cbn [dealerPlay] in Hrun;
    destruct (Z.ltb_spec (Hand.value h) 17) as [Hlow|Hhigh];
    cbn [andb] in Hrun.
  all: try (apply Returned_eq in Hrun; subst h'; split; [exact Hcons | lia]).
  all: destruct (Hand.isBust h) eqn:Hbust; cbn [negb] in Hrun.
  all: try (rewrite <- Hcons, calculateValue_by_sums in Hbust;
            cbn [Hand.isBust] in Hbust; apply Z.ltb_lt in Hbust;
            rewrite <- Hcons, calculateValue_by_sums in Hlow;
            cbn [Hand.value] in Hlow; lia).
  - discriminate.
  - unfold bind in Hrun.
    destruct (dealCard m) as [card m2| |]; try discriminate.
    apply (IH _ _ _ _ (addCard_consistent card h)) in Hrun; [exact Hrun|].
    destruct (addCard_value_bounds card h) as (_ & Hup & _).
    rewrite Hcons in Hup. specialize (Hup ltac:(lia)). lia.
Qed.

Lemma two_card_value (a b : Card.t) :
  Hand.value (Hand.addCard b (Hand.addCard a Hand.new)) <= 21.
Proof. destruct a as [sa []], b as [sb []]; apply Z.leb_le; reflexivity. Qed.

Lemma dealCard_returns (m : t) : dealCard m <> Thrown.
Proof.
  destruct (dealCard_spec m) as (card & m' & -> & _). discriminate.
Qed.

Lemma redrawSecond_not_thrown (steps : nat) :
  forall (first second : Card.t) (m : t),
    redrawSecond steps first second m <> Thrown.
Proof.
  induction steps as [|steps IH]; intros first second m; cbn [redrawSecond];
    destruct ((Card.value first =? 11) && (Card.value second =? 10));
    try discriminate.
  unfold bind. destruct (dealCard_spec m) as (card & m' & -> & _).
  apply IH.
Qed.

Lemma dealerPlay_not_thrown (steps : nat) :
  forall (h : Hand.t) (m : t), dealerPlay steps h m <> Thrown.
Proof.
  induction steps as [|steps IH]; intros h m; cbn [dealerPlay];
    destruct ((Hand.value h <? 17) && negb (Hand.isBust h));
    try discriminate.
  unfold bind. destruct (dealCard_spec m) as (card & m' & -> & _).
  apply IH.
Qed.

Lemma dealDealer_not_thrown (steps : nat) (m : t) :
  dealDealer steps m <> Thrown.
Proof.
  unfold dealDealer, bind.
  destruct (dealCard_spec m) as (first & m1 & -> & _).
  destruct (dealCard_spec m1) as (second & m2 & -> & _).
  pose proof (redrawSecond_not_thrown steps first second m2) as Hre.
  destruct (redrawSecond steps first second m2) as [c m3| |];
    [apply dealerPlay_not_thrown | contradiction | discriminate].
Qed.

End DealerBounds.

(** In every scenario that [generateScenario] returns the dealer has stood
    or gone bust: the dealer's hand holds at least two cards and is worth
    at least 17 and at most 26, and its [isBust] flag is set exactly when
    it is worth more than 21. *)
Theorem generateScenario_dealer_stands
    (steps : nat) (m m' : ScenarioManager.t) (sc : BlackjackScenario.t)
    (Hrun : ScenarioManager.generateScenario steps m
            = ScenarioManager.Returned sc m') :
  let dealer := BlackjackScenario.dealerHand sc in
  17 <= Hand.value dealer <= 26 /\
  (2 <= List.length (Hand.cards dealer))%nat /\
  (Hand.isBust dealer = true <-> 21 < Hand.value dealer).
Proof.
  unfold ScenarioManager.generateScenario, ScenarioManager.bind in Hrun.
  destruct (ScenarioManager.dealPlayer (ScenarioManager.shuffleDeck m))
    as [ph m1| |]; try discriminate.
  destruct (ScenarioManager.dealDealer steps m1) as [dh m2| |] eqn:Hdealer;
    try discriminate.
  destruct (pickBet_spec m2) as (bet & m3 & Hbet & _).
  rewrite Hbet in Hrun. apply Returned_eq in Hrun. subst sc.
  cbn [BlackjackScenario.new BlackjackScenario.dealerHand].
  destruct (dealDealer_not_ace_then_ten _ _ _ _ Hdealer)
    as (first & second & drawn & Hcards & _).
  unfold ScenarioManager.dealDealer, ScenarioManager.bind in Hdealer.
  destruct (ScenarioManager.dealCard m1) as [c1 ma| |]; try discriminate.
  destruct (ScenarioManager.dealCard ma) as [c2 mb| |]; try discriminate.
  destruct (ScenarioManager.redrawSecond steps c1 c2 mb) as [c3 mc| |];
    try discriminate.
  apply dealerPlay_stands in Hdealer as [Hcons Hrange].
  - split; [exact Hrange|]. split; [rewrite Hcards; cbn; lia|].
    rewrite <- Hcons, calculateValue_by_sums.
    cbn [Hand.isBust Hand.value]. apply Z.ltb_lt.
  - apply addCard_consistent.
  - pose proof (two_card_value c1 c3). lia.
Qed.

Lemma generateScenario_dealer_stands_witness :
  let m := ScenarioManager.new (ScenarioManager.mkRandom (fun k => k) O) in
  exists sc m',
    ScenarioManager.generateScenario 70 m = ScenarioManager.Returned sc m' /\
    17 <= Hand.value (BlackjackScenario.dealerHand sc) <= 26.
Proof.
  cbv zeta. eexists _, _.
  split; [vm_compute; reflexivity|].
  eapply (generateScenario_dealer_stands 70
            (ScenarioManager.new (ScenarioManager.mkRandom (fun k => k) O))).
  vm_compute; reflexivity.
Defined.

(** [generateScenario] never throws: [dealCard] refills the deck before it
    can run out, so no card handed to a hand is [undefined]. *)
Theorem generateScenario_never_throws (steps : nat) (m : ScenarioManager.t) :
  ScenarioManager.generateScenario steps m <> ScenarioManager.Thrown.
Proof.
  unfold ScenarioManager.generateScenario, ScenarioManager.bind.
  destruct (dealPlayer_spec (ScenarioManager.shuffleDeck m))
    as (ace & ten & m1 & -> & _).
  pose proof (dealDealer_not_thrown steps m1) as Hdealer.
  destruct (ScenarioManager.dealDealer steps m1) as [dh m2| |];
    [|contradiction|discriminate].
  destruct (pickBet_spec m2) as (bet & m3 & -> & _).
  discriminate.
Qed.

(** ** The deck *)

Section DeckFacts.

Import ScenarioManager.

Lemma freshDeck_complete (c : Card.t) : In c freshDeck.
Proof. destruct c as [[] []]; cbn; tauto. Qed.

Lemma freshDeck_NoDup : List.NoDup freshDeck.
Proof.
  unfold freshDeck, suits, ranks. cbn.
  repeat (constructor;
          [cbn; intros H;
           repeat (destruct H as [H|H]; [discriminate H|]); exact H|]).
  constructor.
Qed.

Lemma shuffleFrom_draws (i : nat) (m : t) :
  random (shuffleFrom i m)
  = mkRandom (oracle (random m)) (drawn (random m) + i).
Proof.
  revert m; induction i as [|i IH]; intros m; cbn [shuffleFrom].
  - destruct (random m) as [o d]; cbn. f_equal. lia.
  - unfold randomBelow. rewrite IH. cbn. f_equal. lia.
Qed.

End DeckFacts.

(** [shuffleDeck] only reorders the deck: the deck afterwards is a
    permutation of the deck before, and one random number has been drawn
    for each card but one.  So a deck rebuilt by [initializeDeck] and
    shuffled holds each of the 52 cards exactly once. *)
Theorem shuffleDeck_reorders (m : ScenarioManager.t) :
  ScenarioManager.deck (ScenarioManager.shuffleDeck m)
    ≡ₚ ScenarioManager.deck m /\
  ScenarioManager.drawn (ScenarioManager.random (ScenarioManager.shuffleDeck m))
    = (ScenarioManager.drawn (ScenarioManager.random m)
       + (List.length (ScenarioManager.deck m) - 1))%nat /\
  (let rebuilt := ScenarioManager.deck
                    (ScenarioManager.shuffleDeck
                       (ScenarioManager.initializeDeck m)) in
   List.length rebuilt = 52%nat /\ List.NoDup rebuilt /\
   forall c : Card.t, In c rebuilt).
Proof.
  split; [apply shuffleDeck_perm|].
  split.
  { unfold ScenarioManager.shuffleDeck. rewrite shuffleFrom_draws. reflexivity. }
  pose proof (shuffleDeck_perm (ScenarioManager.initializeDeck m)) as Hperm.
  cbn [ScenarioManager.initializeDeck ScenarioManager.deck] in Hperm.
  cbv zeta. split; [apply (Permutation_length Hperm)|].
  split.
  - apply (Permutation_NoDup (Permutation_sym Hperm)), freshDeck_NoDup.
  - intros c. apply (Permutation_in c (Permutation_sym Hperm)),
      freshDeck_complete.
Qed.

(** [dealCard] always hands out a card, whatever the deck: the last card
    of the deck when at least ten cards are left, and otherwise the last
    card of a rebuilt and shuffled full deck; at least nine cards are left
    in the deck afterwards. *)
Theorem dealCard_never_runs_out (m : ScenarioManager.t) :
  exists (card : Card.t) (m' : ScenarioManager.t),
    ScenarioManager.dealCard m = ScenarioManager.Returned card m' /\
    (9 <= List.length (ScenarioManager.deck m'))%nat /\
    ((10 <= List.length (ScenarioManager.deck m))%nat ->
       ScenarioManager.deck m = ScenarioManager.deck m' ++ [card]) /\
    ((List.length (ScenarioManager.deck m) < 10)%nat ->
       ScenarioManager.deck m' ++ [card] ≡ₚ ScenarioManager.freshDeck).
Proof.
  destruct (dealCard_spec m) as (card & m' & Hrun & [[Hlen Hdeck]|[Hlen Hperm]]);
    exists card, m'; split; try exact Hrun.
  - split; [rewrite Hdeck, List.length_app in Hlen; cbn in Hlen; lia|].
    split; [intros _; exact Hdeck | lia].
  - pose proof (Permutation_length Hperm) as Hl.
    rewrite List.length_app in Hl. cbn in Hl.
    split; [lia|]. split; [lia | intros _; exact Hperm].
Qed.

Lemma dealCard_never_runs_out_witness :
  exists (card : Card.t) (m' : ScenarioManager.t),
    ScenarioManager.dealCard
      (ScenarioManager.mk [] (ScenarioManager.mkRandom (fun _ => O) O))
    = ScenarioManager.Returned card m' /\
    ScenarioManager.deck m' ++ [card] ≡ₚ ScenarioManager.freshDeck.
Proof.
  destruct (dealCard_never_runs_out
              (ScenarioManager.mk [] (ScenarioManager.mkRandom (fun _ => O) O)))
    as (card & m' & Hrun & _ & _ & Hlow).
  exists card, m'. split; [exact Hrun|]. apply Hlow. cbn. lia.
Defined.

Section PlayerDraw.

Import ScenarioManager.

Lemma removed_perm (k : nat) (card : Card.t) (d : list Card.t) :
  d !! k = Some card -> card :: (take k d ++ drop (S k) d) ≡ₚ d.
Proof.
  intros Hlook. rewrite <- (take_drop_middle _ _ _ Hlook) at 3.
  apply Permutation_middle.
Qed.

Lemma generateScenario_result (steps : nat) (m m' : t)
    (sc : BlackjackScenario.t) :
  generateScenario steps m = Returned sc m' ->
  BlackjackScenario.result sc = "blackjack"%string.
Proof.
  unfold generateScenario, bind. intros Hrun.
  destruct (dealPlayer (shuffleDeck m)) as [ph m1| |]; try discriminate.
  destruct (dealDealer steps m1) as [dh m2| |]; try discriminate.
  destruct (pickBet_spec m2) as (bet & m3 & Hbet & _).
  rewrite Hbet in Hrun. apply Returned_eq in Hrun. subst sc. reflexivity.
Qed.

End PlayerDraw.

(** The player's cards are drawn without replacement: when the deck holds
    an ace and a card of rank 10, J, Q or K, [dealPlayer] takes the hand's
    two cards out of the deck, so that hand and deck together are the deck
    before; when it lacks either, the deck is left as it is and the hand is
    the made-up ace of hearts and king of spades.  No random number is
    drawn. *)
Theorem dealPlayer_draws_without_replacement (m : ScenarioManager.t) :
  exists (h : Hand.t) (m' : ScenarioManager.t),
    ScenarioManager.dealPlayer m = ScenarioManager.Returned h m' /\
    ScenarioManager.random m' = ScenarioManager.random m /\
    (List.filter Card.isAce (ScenarioManager.deck m) <> [] ->
     List.filter Card.isTenRank (ScenarioManager.deck m) <> [] ->
     Hand.cards h ++ ScenarioManager.deck m' ≡ₚ ScenarioManager.deck m) /\
    (List.filter Card.isAce (ScenarioManager.deck m) = [] \/
     List.filter Card.isTenRank (ScenarioManager.deck m) = [] ->
     ScenarioManager.deck m' = ScenarioManager.deck m /\
     Hand.cards h
       = [Card.new Card.hearts Card.rA; Card.new Card.spades Card.rK]).
Proof.
  unfold ScenarioManager.dealPlayer.
  destruct (List.filter Card.isAce (ScenarioManager.deck m))
    as [|firstAce aces] eqn:Haces.
  { eexists _, m. split; [reflexivity|]. split; [reflexivity|].
    split; [intros H; contradiction | intros _; split; reflexivity]. }
  destruct (List.filter Card.isTenRank (ScenarioManager.deck m))
    as [|firstTen tenCards] eqn:Htens.
  { eexists _, m. split; [reflexivity|]. split; [reflexivity|].
    split; [intros _ H; contradiction | intros _; split; reflexivity]. }
  apply filter_head in Haces as [HaceIn Hace].
  apply filter_head in Htens as [HtenIn Hten].
  destruct (indexOf_found _ _ HaceIn) as (ka & -> & Hlooka).
  rewrite (splice1_found _ _ _ Hlooka).
  unfold ScenarioManager.bind, ScenarioManager.addDealt, ScenarioManager.ret.
  cbn [ScenarioManager.deck ScenarioManager.random].
  pose proof (removed_perm _ _ _ Hlooka) as Hperm1.
  assert (HtenIn' : In firstTen (take ka (ScenarioManager.deck m)
                                 ++ drop (S ka) (ScenarioManager.deck m))).
  { apply (Permutation_in _ (Permutation_sym Hperm1)) in HtenIn.
    destruct HtenIn as [->|Hin]; [|exact Hin].
    destruct firstTen as [s []]; discriminate. }
  destruct (indexOf_found _ _ HtenIn') as (kt & -> & Hlookt).
  rewrite (splice1_found _ _ _ Hlookt).
  pose proof (removed_perm _ _ _ Hlookt) as Hperm2.
  eexists _, _. split; [reflexivity|]. split; [reflexivity|].
  split; [intros _ _ | intros [H|H]; discriminate H].
  cbn [ScenarioManager.deck]. rewrite !addCard_cards. cbn [Hand.cards Hand.new app].
  etransitivity; [|exact Hperm1]. apply perm_skip. exact Hperm2.
Qed.

Lemma dealPlayer_draws_without_replacement_witness :
  let m := ScenarioManager.new (ScenarioManager.mkRandom (fun _ => O) O) in
  exists (h : Hand.t) (m' : ScenarioManager.t),
    ScenarioManager.dealPlayer m = ScenarioManager.Returned h m' /\
    Hand.cards h
      = [Card.new Card.hearts Card.rA; Card.new Card.hearts Card.r10] /\
    List.length (ScenarioManager.deck m') = 50%nat /\
    Hand.cards h ++ ScenarioManager.deck m' ≡ₚ ScenarioManager.deck m.
Proof.
  cbv zeta.
  destruct (dealPlayer_draws_without_replacement
              (ScenarioManager.new (ScenarioManager.mkRandom (fun _ => O) O)))
    as (h & m' & Hrun & _ & Hperm & _).
  exists h, m'. split; [exact Hrun|].
  assert (Hh : ScenarioManager.Returned h m'
               = ScenarioManager.dealPlayer
                   (ScenarioManager.new
                      (ScenarioManager.mkRandom (fun _ => O) O)))
    by (symmetry; exact Hrun).
  vm_compute in Hh.
  split; [injection Hh as -> _; reflexivity|].
  split; [injection Hh as _ ->; reflexivity|].
  apply Hperm; vm_compute; discriminate.
Defined.

(** [generateScenarioWithResult] cannot deliver any result but
    ['blackjack']: whatever result is asked for, the scenario it returns
    has the result ['blackjack'].  Asked for ['blackjack'] it generates
    one scenario; asked for anything else it generates [maxAttempts] = 50
    scenarios and returns the last one. *)
Theorem generateScenarioWithResult_always_blackjack
    (steps : nat) (resultType : string) (m : ScenarioManager.t) :
  (forall sc m',
      ScenarioManager.generateScenarioWithResult steps resultType m
      = ScenarioManager.Returned sc m' ->
      BlackjackScenario.result sc = "blackjack"%string) /\
  (resultType = "blackjack"%string ->
     ScenarioManager.generateScenarioWithResult steps resultType m
     = ScenarioManager.generateScenario steps m) /\
  (resultType <> "blackjack"%string ->
     ScenarioManager.generateScenarioWithResult steps resultType m
     = ScenarioManager.generateTimes 49 steps m).
Proof.
  unfold ScenarioManager.generateScenarioWithResult, ScenarioManager.maxAttempts.
  change (50 - 1)%nat with 49%nat.
  assert (Hone : forall left m0,
             ScenarioManager.generateUntil left steps "blackjack" m0
             = ScenarioManager.generateScenario steps m0).
  { intros left m0. destruct left; cbn [ScenarioManager.generateUntil];
      unfold ScenarioManager.bind;
      destruct (ScenarioManager.generateScenario steps m0) as [sc m1| |] eqn:Hgen;
      try reflexivity;
      rewrite (generateScenario_result _ _ _ _ Hgen); reflexivity. }
  assert (Hall : resultType <> "blackjack"%string ->
             forall left m0,
               ScenarioManager.generateUntil left steps resultType m0
               = ScenarioManager.generateTimes left steps m0).
  { intros Hne. induction left as [|left IH]; intros m0;
      cbn [ScenarioManager.generateUntil ScenarioManager.generateTimes];
      unfold ScenarioManager.bind;
      destruct (ScenarioManager.generateScenario steps m0) as [sc m1| |] eqn:Hgen;
      try reflexivity;
      rewrite (generateScenario_result _ _ _ _ Hgen);
      assert (Hneq : ("blackjack" =? resultType)%string = false)
        by (apply String.eqb_neq; congruence);
      rewrite Hneq; cbn [negb]; [reflexivity | apply IH]. }
  assert (Hlast : forall n m0 sc m',
             ScenarioManager.generateTimes n steps m0
             = ScenarioManager.Returned sc m' ->
             BlackjackScenario.result sc = "blackjack"%string).
  { induction n as [|n IH]; intros m0 sc m' Hrun;
      cbn [ScenarioManager.generateTimes] in Hrun.
    - exact (generateScenario_result _ _ _ _ Hrun).
    - unfold ScenarioManager.bind in Hrun.
      destruct (ScenarioManager.generateScenario steps m0) as [sc0 m1| |];
        try discriminate.
      exact (IH _ _ _ Hrun). }
  split; [|split].
  - intros sc m' Hrun.
    destruct (String.eqb_spec resultType "blackjack") as [->|Hne].
    + rewrite Hone in Hrun. exact (generateScenario_result _ _ _ _ Hrun).
    + rewrite (Hall Hne) in Hrun. exact (Hlast _ _ _ _ Hrun).
  - intros ->. apply Hone.
  - intros Hne. apply (Hall Hne).
Qed.

Lemma generateScenarioWithResult_always_blackjack_witness :
  let m := ScenarioManager.new (ScenarioManager.mkRandom (fun k => k) O) in
  ScenarioManager.generateScenarioWithResult 70 "win" m
  = ScenarioManager.generateTimes 49 70 m.
Proof.
  cbv zeta.
  apply (generateScenarioWithResult_always_blackjack 70 "win"
           (ScenarioManager.new (ScenarioManager.mkRandom (fun k => k) O))).
  discriminate.
Defined.

(** ** Chips and the tray *)

Section ChipFacts.

Lemma withSelected_same (c : Chip.t) : Chip.withSelected (Chip.selected c) c = c.
Proof. destruct c; reflexivity. Qed.

Lemma select_step (c : Chip.t) :
  Chip.selected c <= Chip.count c ->
  Chip.selected (snd (Chip.select c))
    = Z.min (Chip.selected c + 1) (Chip.count c) /\
  Chip.count (snd (Chip.select c)) = Chip.count c /\
  Chip.value (snd (Chip.select c)) = Chip.value c /\
  Chip.label (snd (Chip.select c)) = Chip.label c /\
  Chip.color (snd (Chip.select c)) = Chip.color c.
Proof.
  intros Hle. unfold Chip.select, Chip.canSelect.
  destruct (Z.ltb_spec (Chip.selected c) (Chip.count c));
    cbn [snd Chip.withSelected Chip.selected Chip.count Chip.value Chip.label
         Chip.color]; repeat split; lia.
Qed.

Lemma selectTimes_spec (n : nat) (c : Chip.t) :
  Chip.selected c <= Chip.count c ->
  Chip.selected (selectTimes n c)
    = Z.min (Chip.selected c + Z.of_nat n) (Chip.count c) /\
  Chip.count (selectTimes n c) = Chip.count c /\
  Chip.value (selectTimes n c) = Chip.value c.
Proof.
  intros Hle. induction n as [|n (IHs & IHc & IHv)].
  - cbn. repeat split. lia.
  - change (selectTimes (S n) c) with (snd (Chip.select (selectTimes n c))).
    destruct (select_step (selectTimes n c)) as (Hs & Hc & Hv & _); [lia|].
    rewrite Hs, Hc, Hv, IHs, IHc, IHv. repeat split. lia.
Qed.

End ChipFacts.

(** Selecting and deselecting undo each other: a chip with
    [0 <= selected < count] that is selected and then deselected is the
    chip it was, and so is a chip with [0 < selected <= count] that is
    deselected and then selected; both calls answer [true]. *)
Theorem chip_select_deselect_roundtrip (c : Chip.t) :
  (0 <= Chip.selected c < Chip.count c ->
   fst (Chip.select c) = true /\
   Chip.deselect (snd (Chip.select c)) = (true, c)) /\
  (0 < Chip.selected c <= Chip.count c ->
   fst (Chip.deselect c) = true /\
   Chip.select (snd (Chip.deselect c)) = (true, c)).
Proof.
  unfold Chip.select, Chip.deselect, Chip.canSelect. split; intros Hrange.
  - destruct (Z.ltb_spec (Chip.selected c) (Chip.count c)); [|lia].
    cbn [fst snd Chip.withSelected Chip.selected Chip.count].
    destruct (Z.ltb_spec 0 (Chip.selected c + 1)); [|lia].
    split; [reflexivity|]. f_equal.
    replace (Chip.selected c + 1 - 1) with (Chip.selected c) by lia.
    destruct c; reflexivity.
  - destruct (Z.ltb_spec 0 (Chip.selected c)); [|lia].
    cbn [fst snd Chip.withSelected Chip.selected Chip.count].
    destruct (Z.ltb_spec (Chip.selected c - 1) (Chip.count c)); [|lia].
    split; [reflexivity|]. f_equal.
    replace (Chip.selected c - 1 + 1) with (Chip.selected c) by lia.
    destruct c; reflexivity.
Qed.

Lemma chip_select_deselect_roundtrip_witness :
  let c := Chip.new 25 "chip-25" "$25" in
  Chip.deselect (snd (Chip.select c)) = (true, c) /\
  Chip.select (snd (Chip.deselect (snd (Chip.select c))))
  = Chip.select c.
Proof.
  cbv zeta.
  destruct (chip_select_deselect_roundtrip (Chip.new 25 "chip-25" "$25"))
    as [Hsel _].
  destruct Hsel as [_ Hback]; [cbn; lia|].
  split; [exact Hback|]. rewrite Hback. reflexivity.
Defined.

(** Selecting a chip over and over stops at the tray's supply: after [n]
    calls of [select] on a chip with [selected <= count], [selected] is
    [min(selected + n, count)], with [count] and [value] unchanged; so a
    new chip is used up after 50 selections and [canSelect] is false from
    then on. *)
Theorem chip_select_saturates (n : nat) (c : Chip.t)
    (Hle : Chip.selected c <= Chip.count c) :
  Chip.selected (selectTimes n c)
    = Z.min (Chip.selected c + Z.of_nat n) (Chip.count c) /\
  Chip.count (selectTimes n c) = Chip.count c /\
  Chip.value (selectTimes n c) = Chip.value c /\
  (Chip.count c <= Chip.selected c + Z.of_nat n ->
   Chip.canSelect (selectTimes n c) = false /\
   Chip.select (selectTimes n c) = (false, selectTimes n c)).
Proof.
  destruct (selectTimes_spec n c Hle) as (Hs & Hc & Hv).
  repeat split; try assumption;
    unfold Chip.select, Chip.canSelect; rewrite Hs, Hc;
    destruct (Z.ltb_spec (Z.min (Chip.selected c + Z.of_nat n) (Chip.count c))
                (Chip.count c)); (reflexivity || lia).
Qed.

Lemma chip_select_saturates_witness :
  let c := Chip.new 1 "chip-1" "$1" in
  Chip.selected (selectTimes 50 c) = 50 /\
  Chip.canSelect (selectTimes 50 c) = false /\
  Chip.selected (selectTimes 60 c) = 50.
Proof.
  cbv zeta.
  destruct (chip_select_saturates 50 (Chip.new 1 "chip-1" "$1"))
    as (Hs & _ & _ & Hfull); [cbn; lia|].
  destruct (chip_select_saturates 60 (Chip.new 1 "chip-1" "$1"))
    as (Hs60 & _); [cbn; lia|].
  split; [exact Hs|]. split; [apply Hfull; cbn; lia | exact Hs60].
Defined.

Section TrayFacts.

Import ChipManager.
Local Open Scope Q_scope.

Lemma totalValue_from (chips : t) (start : Q) :
  fold_left (fun total chip => total + Chip.getSelectedValue chip) chips start
  == start + getTotalValue chips.
Proof.
  unfold getTotalValue. revert start.
  induction chips as [|c chips IH]; intros start; cbn [fold_left].
  - rewrite Qplus_0_r. reflexivity.
  - rewrite IH, (IH (0 + Chip.getSelectedValue c)). ring.
Qed.

Lemma totalValue_cons (c : Chip.t) (chips : t) :
  getTotalValue (c :: chips) == Chip.getSelectedValue c + getTotalValue chips.
Proof.
  unfold getTotalValue at 1. cbn [fold_left]. rewrite totalValue_from. ring.
Qed.

Lemma totalValue_app (xs ys : t) :
  getTotalValue (xs ++ ys) == getTotalValue xs + getTotalValue ys.
Proof.
  induction xs as [|x xs IH]; cbn [app].
  - unfold getTotalValue at 2. cbn. ring.
  - rewrite !totalValue_cons, IH. ring.
Qed.

Lemma totalCount_from (chips : t) (start : Z) :
  fold_left (fun total chip => (total + Chip.selected chip)%Z) chips start
  = (start + getTotalChipCount chips)%Z.
Proof.
  unfold getTotalChipCount. revert start.
  induction chips as [|c chips IH]; intros start; cbn [fold_left].
  - lia.
  - rewrite IH, (IH (0 + Chip.selected c)%Z). lia.
Qed.

Lemma totalCount_cons (c : Chip.t) (chips : t) :
  getTotalChipCount (c :: chips)
  = (Chip.selected c + getTotalChipCount chips)%Z.
Proof.
  unfold getTotalChipCount at 1. cbn [fold_left]. rewrite totalCount_from. lia.
Qed.

Lemma totalCount_app (xs ys : t) :
  getTotalChipCount (xs ++ ys)
  = (getTotalChipCount xs + getTotalChipCount ys)%Z.
Proof.
  induction xs as [|x xs IH]; cbn [app].
  - reflexivity.
  - rewrite !totalCount_cons, IH. lia.
Qed.

(** Replacing the chip at a position by one with another [selected]. *)
Lemma totals_after_insert (i : nat) (chips : t) (c : Chip.t) (n : Z) :
  chips !! i = Some c ->
  getTotalValue (<[i := Chip.withSelected n c]> chips)
    == getTotalValue chips
       + Chip.value c * inject_Z (n - Chip.selected c) /\
  getTotalChipCount (<[i := Chip.withSelected n c]> chips)
    = (getTotalChipCount chips + (n - Chip.selected c))%Z.
Proof.
  intros Hlook. pose proof (lookup_lt_Some _ _ _ Hlook) as Hlt.
  rewrite (insert_take_drop _ _ _ Hlt).
  rewrite <- (take_drop_middle _ _ _ Hlook) at 3 6.
  rewrite !totalValue_app, !totalValue_cons, !totalCount_app, !totalCount_cons.
  unfold Chip.getSelectedValue. cbn [Chip.withSelected Chip.value Chip.selected].
  split; [|lia].
  unfold Zminus. rewrite inject_Z_plus, inject_Z_opp. ring.
Qed.

End TrayFacts.

(** Selecting a chip of the tray that can be selected raises the payout
    total ([getTotalValue]) by exactly the value of that chip and the chip
    count by one, and a chip that cannot be selected leaves the tray as it
    is; removing a selected chip lowers both by the same amounts, and a
    chip with nothing selected leaves the tray as it is. *)
Theorem tray_select_and_remove
    (i : nat) (chips : ChipManager.t) (c : Chip.t)
    (Hchip : chips !! i = Some c) :
  (Chip.canSelect c = true ->
   (ChipManager.getTotalValue (ChipManager.selectChip i chips)
      == ChipManager.getTotalValue chips + Chip.value c)%Q /\
   ChipManager.getTotalChipCount (ChipManager.selectChip i chips)
     = ChipManager.getTotalChipCount chips + 1) /\
  (Chip.canSelect c = false -> ChipManager.selectChip i chips = chips) /\
  (0 < Chip.selected c ->
   (ChipManager.getTotalValue (ChipManager.removeChipFromPayout i chips)
      == ChipManager.getTotalValue chips - Chip.value c)%Q /\
   ChipManager.getTotalChipCount (ChipManager.removeChipFromPayout i chips)
     = ChipManager.getTotalChipCount chips - 1) /\
  (Chip.selected c <= 0 -> ChipManager.removeChipFromPayout i chips = chips).
Proof.
  unfold ChipManager.selectChip, ChipManager.removeChipFromPayout,
    Chip.select, Chip.deselect. rewrite Hchip.
  split; [|split; [|split]].
  - intros Hcan. rewrite Hcan. cbn [negb].
    destruct (totals_after_insert i chips c (Chip.selected c + 1) Hchip)
      as [Hv Hn].
    split; [rewrite Hv | rewrite Hn; lia].
    replace (Chip.selected c + 1 - Chip.selected c) with 1 by lia.
    change (inject_Z 1) with 1%Q. ring.
  - intros Hcan. rewrite Hcan. reflexivity.
  - intros Hpos. destruct (Z.ltb_spec 0 (Chip.selected c)); [|lia].
    destruct (totals_after_insert i chips c (Chip.selected c - 1) Hchip)
      as [Hv Hn].
    split; [rewrite Hv | rewrite Hn; lia].
    replace (Chip.selected c - 1 - Chip.selected c) with (-1) by lia.
    change (inject_Z (-1)) with (-1)%Q. ring.
  - intros Hnone. destruct (Z.ltb_spec 0 (Chip.selected c)); [lia|].
    reflexivity.
Qed.

Lemma tray_select_and_remove_witness :
  (ChipManager.getTotalValue (ChipManager.selectChip 1 ChipManager.new)
     == 2.5)%Q /\
  ChipManager.getTotalChipCount (ChipManager.selectChip 1 ChipManager.new) = 1 /\
  ChipManager.removeChipFromPayout 1 ChipManager.new = ChipManager.new.
Proof.
  destruct (tray_select_and_remove 1 ChipManager.new
              (Chip.new 2.5 "chip-2-50" "$2.50") eq_refl)
    as (Hsel & _ & _ & Hnone).
  destruct (Hsel eq_refl) as [Hv Hn].
  split; [rewrite Hv; reflexivity|].
  split; [rewrite Hn; reflexivity|].
  apply Hnone. cbn. lia.
Defined.

(** What the reset callback leaves of a tray. *)
Lemma resetAll_clears (chips : ChipManager.t) :
  let cleared := ChipManager.resetAll chips in
  (ChipManager.getTotalValue cleared == 0)%Q /\
  ChipManager.getTotalChipCount cleared = 0 /\
  ChipManager.getSelectedChips cleared = [] /\
  List.map Chip.value cleared = List.map Chip.value chips /\
  List.map Chip.label cleared = List.map Chip.label chips /\
  List.map Chip.count cleared = List.map Chip.count chips /\
  Forall (fun c => Chip.selected c = 0) cleared.
Proof.
  cbv zeta. unfold ChipManager.resetAll.
  induction chips as [|c chips (IHv & IHn & IHs & IHval & IHlab & IHcnt & IHall)];
    cbn [List.map].
  - repeat split; constructor.
  - rewrite totalValue_cons, totalCount_cons, IHv, IHn.
    unfold ChipManager.getSelectedChips in *. cbn [List.filter].
    cbn [Chip.resetSelection Chip.withSelected Chip.selected Chip.value
         Chip.label Chip.count Chip.getSelectedValue].
    rewrite IHs, IHval, IHlab, IHcnt.
    repeat split.
    + unfold Chip.getSelectedValue. cbn. ring.
    + constructor; [reflexivity | exact IHall].
Qed.

(** [clearAllSelections] clears nothing by itself: when it returns, the
    chips, and with them the payout total and the chip count, are what
    they were, and one timer has been set, [payoutChips.length * 50 + 300]
    milliseconds ahead, so 300 at least.  It is the callback of that timer
    that clears: run on the tray as it is when the timer fires, chips
    selected since the call included, it leaves the payout total and the
    chip count at 0 and [getSelectedChips] empty, every chip with
    [selected = 0] and with the value, label and count it had. *)
Theorem tray_clearAllSelections (payoutChips : nat) (chips : ChipManager.t) :
  let atReturn := fst (ChipManager.clearAllSelections payoutChips chips) in
  let timer := snd (ChipManager.clearAllSelections payoutChips chips) in
  atReturn = chips /\
  ChipManager.getTotalValue atReturn = ChipManager.getTotalValue chips /\
  ChipManager.getTotalChipCount atReturn = ChipManager.getTotalChipCount chips /\
  ChipManager.delay timer = Z.of_nat payoutChips * 50 + 300 /\
  300 <= ChipManager.delay timer /\
  forall later : ChipManager.t,
    let cleared := ChipManager.callback timer later in
    (ChipManager.getTotalValue cleared == 0)%Q /\
    ChipManager.getTotalChipCount cleared = 0 /\
    ChipManager.getSelectedChips cleared = [] /\
    List.map Chip.value cleared = List.map Chip.value later /\
    List.map Chip.label cleared = List.map Chip.label later /\
    List.map Chip.count cleared = List.map Chip.count later /\
    Forall (fun c => Chip.selected c = 0) cleared.
Proof.
  cbv zeta. unfold ChipManager.clearAllSelections.
  cbn [fst snd ChipManager.delay ChipManager.callback].
  repeat (split; [reflexivity|]).
  split; [lia|].
  intros later. exact (resetAll_clears later).
Qed.

(** A chip selected after the call is cleared with the rest. *)
Lemma tray_clearAllSelections_witness :
  let chips := ChipManager.selectChip 2 ChipManager.new in
  let call := ChipManager.clearAllSelections 1 chips in
  let later := ChipManager.selectChip 0 (fst call) in
  (ChipManager.getTotalValue (fst call) == 5)%Q /\
  ChipManager.delay (snd call) = 350 /\
  (ChipManager.getTotalValue later == 6)%Q /\
  (ChipManager.getTotalValue (ChipManager.callback (snd call) later) == 0)%Q.
Proof.
  cbv zeta.
  destruct (tray_clearAllSelections 1
              (ChipManager.selectChip 2 ChipManager.new))
    as (Hsame & _ & _ & Hdelay & _ & Hlater).
  split; [rewrite Hsame; vm_compute; reflexivity|].
  split; [rewrite Hdelay; reflexivity|].
  split; [rewrite Hsame; vm_compute; reflexivity|].
  exact (proj1 (Hlater _)).
Defined.

Section BreakdownFacts.

Import ChipManager.

Lemma breakdown_totals (chips : t) :
  Forall (fun c => 0 <= Chip.selected c) chips ->
  (breakdownValue (getSelectedChipsBreakdown chips) == getTotalValue chips)%Q /\
  breakdownCount (getSelectedChipsBreakdown chips) = getTotalChipCount chips.
Proof.
  unfold getSelectedChipsBreakdown.
  induction 1 as [|c chips Hc _ [IHv IHn]]; [split; reflexivity|].
  rewrite totalValue_cons, totalCount_cons. cbn [List.filter].
  destruct (Z.ltb_spec 0 (Chip.selected c)) as [Hpos|Hzero].
  - cbn [List.map breakdownValue breakdownCount fold_right totalValue count].
    fold (breakdownValue
            (List.map (fun chip => mkLine (Chip.label chip) (Chip.selected chip)
                                    (Chip.value chip) (Chip.getSelectedValue chip))
               (List.filter (fun chip => 0 <? Chip.selected chip) chips))).
    fold (breakdownCount
            (List.map (fun chip => mkLine (Chip.label chip) (Chip.selected chip)
                                    (Chip.value chip) (Chip.getSelectedValue chip))
               (List.filter (fun chip => 0 <? Chip.selected chip) chips))).
    rewrite IHv, IHn. split; reflexivity.
  - assert (Hsel : Chip.selected c = 0) by lia.
    rewrite IHv, IHn. unfold Chip.getSelectedValue. rewrite Hsel.
    split; [ring | lia].
Qed.

End BreakdownFacts.

(** The breakdown of the selection accounts for the whole payout: when no
    chip has a negative [selected], the [totalValue] fields of
    [getSelectedChipsBreakdown] add up to [getTotalValue] and its [count]
    fields to [getTotalChipCount], and every line has a positive count. *)
Theorem tray_breakdown_adds_up (chips : ChipManager.t)
    (Hinv : Forall (fun c => 0 <= Chip.selected c) chips) :
  (ChipManager.breakdownValue (ChipManager.getSelectedChipsBreakdown chips)
     == ChipManager.getTotalValue chips)%Q /\
  ChipManager.breakdownCount (ChipManager.getSelectedChipsBreakdown chips)
    = ChipManager.getTotalChipCount chips /\
  Forall (fun line => 0 < ChipManager.count line)
         (ChipManager.getSelectedChipsBreakdown chips).
Proof.
  destruct (breakdown_totals chips Hinv) as [Hv Hn].
  split; [exact Hv|]. split; [exact Hn|].
  unfold ChipManager.getSelectedChipsBreakdown.
  apply List.Forall_forall. intros line Hin.
  apply List.in_map_iff in Hin as (c & <- & Hc).
  apply List.filter_In in Hc as [_ Hpos]. cbn. apply Z.ltb_lt, Hpos.
Qed.

Lemma tray_breakdown_adds_up_witness :
  let chips := ChipManager.selectChip 3 (ChipManager.selectChip 3
                 (ChipManager.selectChip 0 ChipManager.new)) in
  (ChipManager.breakdownValue (ChipManager.getSelectedChipsBreakdown chips)
     == 51)%Q /\
  (ChipManager.getTotalValue chips == 51)%Q.
Proof.
  cbv zeta.
  destruct (tray_breakdown_adds_up
              (ChipManager.selectChip 3 (ChipManager.selectChip 3
                 (ChipManager.selectChip 0 ChipManager.new))))
    as (Hv & _).
  { vm_compute. repeat constructor; discriminate. }
  split; [rewrite Hv|]; vm_compute; reflexivity.
Defined.

(** Keyboard focus moves around the tray and back: for a position inside
    the tray the next and the previous position are inside the tray, the
    last position is followed by the first and the first preceded by the
    last, and going to the next position and then to the previous one (or
    the other way round) returns to where one was. *)
Theorem tray_focus_wraps (chips : ChipManager.t) (i : Z)
    (Hin : 0 <= i < Z.of_nat (List.length chips)) :
  let len := Z.of_nat (List.length chips) in
  0 <= ChipManager.nextIndex chips i < len /\
  0 <= ChipManager.prevIndex chips i < len /\
  ChipManager.nextIndex chips (len - 1) = 0 /\
  ChipManager.prevIndex chips 0 = len - 1 /\
  ChipManager.prevIndex chips (ChipManager.nextIndex chips i) = i /\
  ChipManager.nextIndex chips (ChipManager.prevIndex chips i) = i.
Proof.
  intros len. unfold ChipManager.nextIndex, ChipManager.prevIndex.
  fold len.
  assert (Hnext : forall j, 0 <= j < len ->
            Z.rem (j + 1) len = if j + 1 =? len then 0 else j + 1).
  { intros j Hj. destruct (Z.eqb_spec (j + 1) len) as [->|Hne].
    - apply Z.rem_same. lia.
    - apply Z.rem_small. lia. }
  rewrite (Hnext i Hin).
  replace (len - 1 + 1) with len by lia. rewrite Z.rem_same by lia.
  destruct (Z.eqb_spec (i + 1) len) as [Hlast|Hmid];
    destruct (Z.eqb_spec i 0) as [Hfirst|Hlater];
    cbn [Z.eqb]; repeat split; try lia.
  all: try (destruct (Z.eqb_spec (i + 1) 0); lia).
  all: try (rewrite Hnext by lia;
            destruct (Z.eqb_spec (len - 1 + 1) len); lia).
  all: try (rewrite Hnext by lia;
            destruct (Z.eqb_spec (i - 1 + 1) len); lia).
Qed.

Lemma tray_focus_wraps_witness :
  ChipManager.nextIndex ChipManager.new 6 = 0 /\
  ChipManager.prevIndex ChipManager.new 0 = 6 /\
  ChipManager.prevIndex ChipManager.new
    (ChipManager.nextIndex ChipManager.new 6) = 6.
Proof.
  destruct (tray_focus_wraps ChipManager.new 6) as (_ & _ & Hn & Hp & Hback & _);
    [cbn; lia|].
  split; [exact Hn|]. split; [exact Hp | exact Hback].
Defined.

(** ** A session of answers *)

Section Sessions.

Import GameState.

Lemma submitAll_snoc (answers : list bool) (a : bool) (g : t) :
  submitAll (answers ++ [a]) g = submitPayout a (submitAll answers g).
Proof. unfold submitAll. rewrite List.fold_left_app. reflexivity. Qed.

Lemma repeat_snoc (n : nat) : repeat true n ++ [true] = repeat true (S n).
Proof. symmetry. apply (List.repeat_cons n true). Qed.

Lemma endsInRun_shorter (n m : nat) (answers : list bool) :
  (m <= n)%nat -> endsInRun n answers -> endsInRun m answers.
Proof.
  intros Hle [before ->].
  exists (before ++ repeat true (n - m)).
  rewrite <- List.app_assoc, <- List.repeat_app. do 2 f_equal. lia.
Qed.

Lemma hasRun_snoc (n : nat) (answers : list bool) (a : bool) :
  hasRun n (answers ++ [a]) ->
  hasRun n answers \/ endsInRun n (answers ++ [a]).
Proof.
  intros (before & after & Heq).
  destruct after as [|x after _] using List.rev_ind.
  - right. exists before. rewrite Heq, List.app_nil_r. reflexivity.
  - left. exists before, after.
    rewrite !List.app_assoc in Heq. apply List.app_inj_tail in Heq as [Heq _].
    rewrite Heq, <- List.app_assoc. reflexivity.
Qed.

Lemma hasRun_longer (n : nat) (answers : list bool) (a : bool) :
  hasRun n answers -> hasRun n (answers ++ [a]).
Proof.
  intros (before & after & ->). exists before, (after ++ [a]).
  rewrite <- !List.app_assoc. reflexivity.
Qed.

(** What a session leaves in the scores of a new game. *)
Lemma submitAll_new (answers : list bool) :
  let g := submitAll answers new in
  total (score g) = Z.of_nat (List.length answers) /\
  correct (score g) = Z.of_nat (List.length (List.filter id answers)) /\
  exists cur best : nat,
    currentStreak (sessionStats g) = Z.of_nat cur /\
    bestStreak (sessionStats g) = Z.of_nat best /\
    (cur <= best)%nat /\
    endsInRun cur answers /\ ~ endsInRun (S cur) answers /\
    hasRun best answers /\ (forall n, hasRun n answers -> (n <= best)%nat).
Proof.
  induction answers as [|a answers IH] using List.rev_ind; cbv zeta.
  - split; [reflexivity|]. split; [reflexivity|].
    exists O, O. repeat split; try reflexivity.
    + exists []. reflexivity.
    + intros [before Heq]. destruct before; discriminate.
    + exists [], []. reflexivity.
    + intros n (before & after & Heq).
      destruct n; [lia|]. destruct before; discriminate.
  - cbv zeta in IH.
    destruct IH as (Ht & Hc & cur & best & Hcur & Hbest & Hle & Hend & Hnot
                    & Hrun & Hmax).
    rewrite submitAll_snoc.
    set (g := submitAll answers new) in *.
    rewrite List.length_app, List.filter_app, List.length_app.
    destruct a.
    + (* a correct answer *)
      unfold submitPayout, recordCorrect, completeScenario, enterFeedbackPhase.
      cbn [score sessionStats total correct currentStreak bestStreak
           List.filter id List.length].
      split; [lia|]. split; [lia|].
      exists (S cur), (Nat.max best (S cur)).
      rewrite Hcur, Hbest.
      split; [lia|].
      split; [destruct (Z.ltb_spec (Z.of_nat best) (Z.of_nat cur + 1)); lia|].
      split; [lia|].
      assert (Hend' : endsInRun (S cur) (answers ++ [true])).
      { destruct Hend as [before ->]. exists before.
        rewrite <- List.app_assoc, repeat_snoc. reflexivity. }
      assert (Hnot' : ~ endsInRun (S (S cur)) (answers ++ [true])).
      { intros [before Heq]. apply Hnot. exists before.
        rewrite <- repeat_snoc, List.app_assoc in Heq.
        apply List.app_inj_tail in Heq as [Heq _]. exact Heq. }
      split; [exact Hend'|]. split; [exact Hnot'|].
      split.
      * destruct (Nat.max_spec best (S cur)) as [[_ ->]|[_ ->]].
        -- destruct Hend' as [before Heq]. exists before, [].
           rewrite List.app_nil_r. exact Heq.
        -- apply hasRun_longer, Hrun.
      * intros n Hn. apply hasRun_snoc in Hn as [Hold|Hnew].
        -- specialize (Hmax n Hold). lia.
        -- destruct (Nat.le_gt_cases n (S cur)) as [Hok|Hbig]; [lia|].
           exfalso. apply Hnot'.
           apply (endsInRun_shorter n); [lia | exact Hnew].
    + (* an incorrect answer *)
      unfold submitPayout, recordIncorrect, enterFeedbackPhase.
      cbn [score sessionStats total correct currentStreak bestStreak
           List.filter id List.length].
      split; [lia|]. split; [lia|].
      exists O, best. rewrite Hbest.
      split; [reflexivity|]. split; [reflexivity|]. split; [lia|].
      assert (Hnot' : ~ endsInRun 1 (answers ++ [false])).
      { intros [before Heq]. cbn in Heq.
        apply List.app_inj_tail in Heq as [_ Heq]. discriminate. }
      split; [exists (answers ++ [false]); symmetry; apply List.app_nil_r|].
      split; [exact Hnot'|].
      split; [apply hasRun_longer, Hrun|].
      intros n Hn. apply hasRun_snoc in Hn as [Hold|Hnew].
      * exact (Hmax n Hold).
      * destruct n; [lia|]. exfalso. apply Hnot'.
        apply (endsInRun_shorter (S n)); [lia | exact Hnew].
Qed.

End Sessions.

(** A session on a new game: after any list of answers [total] is the
    number of answers and [correct] the number of correct ones;
    [currentStreak] is the length of the run of correct answers the list
    ends in, and [bestStreak] the length of the longest run of correct
    answers anywhere in it. *)
Theorem session_scores_and_streaks (answers : list bool) :
  let g := GameState.submitAll answers GameState.new in
  GameState.total (GameState.score g) = Z.of_nat (List.length answers) /\
  GameState.correct (GameState.score g)
    = Z.of_nat (List.length (List.filter id answers)) /\
  exists cur best : nat,
    GameState.currentStreak (GameState.sessionStats g) = Z.of_nat cur /\
    GameState.bestStreak (GameState.sessionStats g) = Z.of_nat best /\
    GameState.endsInRun cur answers /\
    ~ GameState.endsInRun (S cur) answers /\
    GameState.hasRun best answers /\
    (forall n, GameState.hasRun n answers -> (n <= best)%nat).
Proof.
  destruct (submitAll_new answers)
    as (Ht & Hc & cur & best & Hcur & Hbest & _ & Hend & Hnot & Hrun & Hmax).
  cbv zeta. split; [exact Ht|]. split; [exact Hc|].
  exists cur, best. repeat split; assumption.
Qed.

Example session_of_six :
  let g := GameState.submitAll [true; true; true; false; true; true]
             GameState.new in
  (GameState.correct (GameState.score g), GameState.total (GameState.score g),
   GameState.currentStreak (GameState.sessionStats g),
   GameState.bestStreak (GameState.sessionStats g)) = (5, 6, 2, 3).
Proof. reflexivity. Qed.

(** ** Payouts, breakdowns and the bet display *)

(** A scenario built by the constructor carries the payout that
    [calculatePayout] computes for it, and its payout ratio is ['3:2'];
    submitting that payout validates, with difference 0, and any amount
    0.01 or more away from it is rejected. *)
Theorem scenario_own_payout_validates
    (playerHand dealerHand : Hand.t) (bet : Q) :
  let sc := BlackjackScenario.new playerHand dealerHand bet in
  let own := PayoutCalculator.validatePayout
               (Some sc) (BlackjackScenario.correctPayout sc) in
  PayoutCalculator.calculatePayout (Some sc) = BlackjackScenario.correctPayout sc /\
  BlackjackScenario.payoutRatio sc = "3:2"%string /\
  PayoutCalculator.isCorrect own = true /\
  (exists d, PayoutCalculator.difference own = Some d /\ (d == 0)%Q) /\
  (forall amount : Q,
      (0.01 <= Qabs (amount - BlackjackScenario.correctPayout sc))%Q ->
      PayoutCalculator.isCorrect
        (PayoutCalculator.validatePayout (Some sc) amount) = false).
Proof.
  cbv zeta. split; [reflexivity|]. split; [reflexivity|].
  assert (Hzero : (BlackjackScenario.correctPayout
                     (BlackjackScenario.new playerHand dealerHand bet)
                   - PayoutCalculator.calculatePayout
                       (Some (BlackjackScenario.new playerHand dealerHand bet))
                   == 0)%Q).
  { exact (Qplus_opp_r (bet * 1.5)%Q). }
  split.
  { unfold PayoutCalculator.validatePayout. cbn [PayoutCalculator.isCorrect].
    apply Qlt_bool_iff. rewrite Hzero. reflexivity. }
  split.
  { eexists. split; [reflexivity | exact Hzero]. }
  intros amount Hfar.
  unfold PayoutCalculator.validatePayout. cbn [PayoutCalculator.isCorrect].
  destruct (PayoutCalculator.Qlt_bool _ _) eqn:Hnear; [|reflexivity].
  apply Qlt_bool_iff in Hnear. exfalso.
  apply (Qlt_not_le _ _ Hnear). exact Hfar.
Qed.

Lemma scenario_own_payout_validates_witness :
  let sc := BlackjackScenario.new Hand.new Hand.new 12 in
  PayoutCalculator.isCorrect (PayoutCalculator.validatePayout (Some sc) 12)
  = false.
Proof.
  cbv zeta.
  apply (scenario_own_payout_validates Hand.new Hand.new 12).
  vm_compute. discriminate.
Defined.

(** [getPayoutBreakdown] agrees with the rule table: for a scenario whose
    result is not the name of an inherited object member, the multiplier
    is a number and the payout amount is the bet times that multiplier;
    the total return is the bet plus the payout, except for ['lose'],
    where it is 0; and a missing scenario gives [null]. *)
Theorem getPayoutBreakdown_consistent (sc : BlackjackScenario.t)
    (Hname : ~ In (BlackjackScenario.result sc)
                  PayoutCalculator.objectPrototypeMembers) :
  exists (b : PayoutCalculator.PayoutBreakdown) (rate : Q),
    PayoutCalculator.getPayoutBreakdown (Some sc) = Some b /\
    PayoutCalculator.payoutMultiplier b = PayoutCalculator.Number rate /\
    (PayoutCalculator.payoutAmount b == BlackjackScenario.betAmount sc * rate)%Q /\
    PayoutCalculator.payoutAmount b
      = PayoutCalculator.calculatePayout (Some sc) /\
    (BlackjackScenario.result sc <> "lose"%string ->
     (PayoutCalculator.totalReturn b
        == BlackjackScenario.betAmount sc + PayoutCalculator.payoutAmount b)%Q) /\
    (BlackjackScenario.result sc = "lose"%string ->
     PayoutCalculator.totalReturn b = 0%Q) /\
    PayoutCalculator.getPayoutBreakdown None = None.
Proof.
  unfold PayoutCalculator.getPayoutBreakdown. cbv zeta.
  rewrite calculatePayout_cases.
  unfold PayoutCalculator.payoutMultiplierOf, PayoutCalculator.payoutRule.
  destruct (String.eqb_spec (BlackjackScenario.result sc) "blackjack") as [E|_].
  { rewrite E. eexists _, _. split; [reflexivity|].
    cbn. repeat split; try reflexivity; try discriminate. }
  destruct (String.eqb_spec (BlackjackScenario.result sc) "win") as [E|_].
  { rewrite E. eexists _, _. split; [reflexivity|].
    cbn. repeat split; try reflexivity; try discriminate. }
  destruct (String.eqb_spec (BlackjackScenario.result sc) "push") as [E|_].
  { rewrite E. eexists _, _. split; [reflexivity|].
    cbn. repeat split; try reflexivity; try discriminate.
    - ring.
    - intros _. ring. }
  destruct (String.eqb_spec (BlackjackScenario.result sc) "lose") as [E|Hl].
  { rewrite E. eexists _, _. split; [reflexivity|].
    cbn. repeat split; try reflexivity; try congruence. ring. }
  destruct (List.existsb _ _) eqn:Hmember.
  { exfalso. apply Hname.
    apply List.existsb_exists in Hmember as (name & Hin & Heq).
    apply String.eqb_eq in Heq. subst name. exact Hin. }
  eexists _, _. split; [reflexivity|].
  cbn [PayoutCalculator.payoutMultiplier PayoutCalculator.payoutAmount
       PayoutCalculator.totalReturn].
  repeat split; try reflexivity; try congruence.
  - ring.
Qed.

Lemma getPayoutBreakdown_consistent_witness :
  let sc := BlackjackScenario.new Hand.new Hand.new 10 in
  exists b : PayoutCalculator.PayoutBreakdown,
    PayoutCalculator.getPayoutBreakdown (Some sc) = Some b /\
    (PayoutCalculator.totalReturn b == 25)%Q.
Proof.
  cbv zeta.
  destruct (getPayoutBreakdown_consistent
              (BlackjackScenario.new Hand.new Hand.new 10))
    as (b & rate & Hb & _ & _ & Hpay & Htotal & _).
  { cbn. intuition discriminate. }
  exists b. split; [exact Hb|].
  rewrite Htotal by discriminate. rewrite Hpay. vm_compute. reflexivity.
Defined.

Section BetDisplay.

Import PayoutCalculator.

Lemma totals_agree (combo : list (Chip.t * Z)) :
  forall (stacks : list BetChip) (start : Q),
    denominations combo = betDenominations stacks ->
    fold_left (fun sum item => sum + Chip.value (fst item) * inject_Z (snd item))%Q
              combo start
    = fold_left (fun sum b => sum + value b * inject_Z (stack b))%Q stacks start.
Proof.
  induction combo as [|item combo IH]; intros [|b stacks] start Heq;
    try discriminate; [reflexivity|].
  cbn in Heq. injection Heq as Hv Hn Hrest.
  cbn [fold_left]. rewrite Hv, Hn. apply IH. exact Hrest.
Qed.

Lemma shown_total (final : list (Chip.t * Z) * Q) (shown : list BetChip * Q)
    (k : Z) :
  inStep final shown ->
  (snd final == inject_Z ((k mod 5) mod 2) / 2)%Q ->
  (totalValue (fst final) + snd final == inject_Z k / 2)%Q ->
  (betTotal (fst shown) == inject_Z (k - (k mod 5) mod 2) / 2)%Q.
Proof.
  intros [Hpairs _] Hleft Htotal. unfold betTotal.
  rewrite <- (totals_agree (fst final) (fst shown) 0%Q Hpairs).
  fold (totalValue (fst final)).
  rewrite Hleft in Htotal.
  apply (proj1 (Qplus_inj_r _ _ (inject_Z ((k mod 5) mod 2) / 2))).
  rewrite Htotal.
  unfold Zminus. rewrite inject_Z_plus, inject_Z_opp. field.
Qed.

End BetDisplay.

(** The chips displayed for a bet of [k] half dollars stand for the bet
    itself, except that a remainder of half a dollar is dropped without
    notice: [calculateBetChips] shows the whole amount when
    [(k mod 5) mod 2 = 0], and 0.5 less otherwise (as for a bet of 3 or
    4). *)
Theorem calculateBetChips_total (k : Z) (Hk : 0 <= k) :
  (PayoutCalculator.betTotal
     (PayoutCalculator.calculateBetChips (inject_Z k / 2))
   == inject_Z (k - (k mod 5) mod 2) / 2)%Q.
Proof.
  unfold PayoutCalculator.calculateBetChips.
  apply (shown_total
           (fold_left PayoutCalculator.takeChip
              (PayoutCalculator.sortDesc standardChips)
              ([], (inject_Z k / 2)%Q))).
  - apply (fold_inStep _ _ standard_denominations). split; reflexivity.
  - apply (greedy_run_half k Hk).
  - apply (greedy_run_half k Hk).
Qed.

Lemma calculateBetChips_total_witness :
  (PayoutCalculator.betTotal (PayoutCalculator.calculateBetChips (inject_Z 6 / 2))
   == 2.5)%Q /\
  (PayoutCalculator.betTotal (PayoutCalculator.calculateBetChips (inject_Z 74 / 2))
   == 37)%Q.
Proof.
  split.
  - rewrite (calculateBetChips_total 6) by lia. reflexivity.
  - rewrite (calculateBetChips_total 74) by lia. reflexivity.
Defined.

(** ** The greedy pass on any tray of whole-cent chips *)

Section WholeCents.

Import PayoutCalculator.
Local Open Scope Q_scope.

Lemma round2_cents (x : Q) (n : Z) :
  x == inject_Z n / 100 -> round2 x == inject_Z n / 100.
Proof.
  intros Hx. unfold round2.
  assert (Hx100 : x * 100 + 0.5 == inject_Z n + 0.5) by (rewrite Hx; field).
  assert (Hfloor : Qfloor (x * 100 + 0.5) = n).
  { apply Qfloor_between; rewrite Hx100.
    - rewrite <- (Qplus_0_r (inject_Z n)) at 1.
      apply Qplus_le_r. discriminate.
    - rewrite inject_Z_plus. apply Qplus_lt_r. reflexivity. }
  rewrite Hfloor. reflexivity.
Qed.

(** Rounding to cents moves a number by half a cent at most, and keeps a
    number that is not negative from becoming negative. *)
Lemma round2_near (x : Q) :
  Qabs (round2 x - x) <= 0.005 /\
  (0 <= x -> (0 <= Qfloor (x * 100 + 0.5))%Z).
Proof.
  pose proof (Qfloor_le (x * 100 + 0.5)) as Hlo.
  pose proof (Qlt_floor (x * 100 + 0.5)) as Hhi.
  rewrite inject_Z_plus in Hhi. change (inject_Z 1) with 1 in Hhi.
  split.
  - apply Qabs_Qle_condition. unfold round2.
    set (f := inject_Z (Qfloor (x * 100 + 0.5))) in *.
    assert (Hdiv : f / 100 == f * (1 # 100)) by field.
    rewrite Hdiv. split; lra.
  - intros Hx. apply Qfloor_resp_le with (x := 0) (y := x * 100 + 0.5). lra.
Qed.

Lemma wholeCents_positive (c : Chip.t) : wholeCents c -> 0 < Chip.value c.
Proof.
  intros [p Hp]. rewrite Hp.
  assert (Hpos : 0 < inject_Z (Z.pos p))
    by (change 0 with (inject_Z 0); rewrite <- Zlt_Qlt; lia).
  assert (Hdiv : inject_Z (Z.pos p) / 100 == inject_Z (Z.pos p) * (1 # 100))
    by field.
  rewrite Hdiv. lra.
Qed.

Lemma floor_times (q v : Q) :
  0 < v -> inject_Z (Qfloor (q / v)) * v <= q.
Proof.
  intros Hv. pose proof (Qfloor_le (q / v)) as Hle.
  apply (Qmult_le_r _ _ v Hv) in Hle.
  assert (Hback : q / v * v == q) by (field; lra).
  rewrite Hback in Hle. exact Hle.
Qed.

(** One turn of the loop keeps the state on track. *)
Lemma takeChip_onTrack (amount : Q) (acc : list (Chip.t * Z) * Q)
    (c : Chip.t) :
  wholeCents c -> onTrack amount acc -> onTrack amount (takeChip acc c).
Proof.
  intros Hc [Hcounts Hstate].
  pose proof (wholeCents_positive c Hc) as Hv.
  unfold takeChip. cbv zeta.
  destruct (Z.ltb_spec 0 (Qfloor (snd acc / Chip.value c))) as [Hpos|Hnone];
    [|split; assumption].
  split.
  { cbn [fst]. apply Forall_app. split; [exact Hcounts|].
    constructor; [exact Hpos | constructor]. }
  right. cbn [fst snd].
  destruct Hstate as [[Hnil Hall]|(r & Hr & Hrem & Hnear)].
  - (* the first chips taken *)
    rewrite Hnil, Hall in *. clear Hnil Hall.
    set (count := Qfloor (amount / Chip.value c)) in *.
    set (x := amount - inject_Z count * Chip.value c).
    assert (Hx : 0 <= x).
    { unfold x. pose proof (floor_times amount (Chip.value c) Hv) as Hle.
      fold count in Hle. lra. }
    destruct (round2_near x) as [Hround Hfloor].
    exists (Qfloor (x * 100 + 0.5)).
    split; [apply Hfloor, Hx|]. split; [reflexivity|].
    assert (Heq : totalValue ([] ++ [(c, count)]) + round2 x - amount
                  == round2 x - x).
    { rewrite totalValue_snoc. unfold totalValue, x. cbn [fold_left]. ring. }
    rewrite Heq. exact Hround.
  - (* whole cents are left *)
    destruct Hc as [p Hp].
    assert (Hp0 : ~ inject_Z (Z.pos p) == 0) by (unfold Qeq; cbn; lia).
    assert (Hcount : Qfloor (snd acc / Chip.value c) = (r / Z.pos p)%Z).
    { rewrite Zdiv_Qdiv. apply Qfloor_comp. rewrite Hrem, Hp. field.
      exact Hp0. }
    rewrite Hcount in *.
    assert (Hsplit : inject_Z r
                     == inject_Z (Z.pos p) * inject_Z (r / Z.pos p)
                        + inject_Z (r mod Z.pos p)).
    { rewrite <- inject_Z_mult, <- inject_Z_plus.
      rewrite <- (Z.div_mod r (Z.pos p)) by lia. reflexivity. }
    assert (Hleft : round2 (snd acc - inject_Z (r / Z.pos p) * Chip.value c)
                    == inject_Z (r mod Z.pos p) / 100).
    { apply round2_cents. rewrite Hrem, Hp, Hsplit. field. }
    exists (r mod Z.pos p)%Z.
    split; [apply Z.mod_pos_bound; lia|]. split; [exact Hleft|].
    assert (Heq : totalValue (fst acc ++ [(c, (r / Z.pos p)%Z)])
                  + round2 (snd acc - inject_Z (r / Z.pos p) * Chip.value c)
                  - amount
                  == totalValue (fst acc) + snd acc - amount).
    { rewrite totalValue_snoc, Hleft, Hrem, Hp, Hsplit. field. }
    rewrite Heq. exact Hnear.
Qed.

Lemma insertDesc_Forall (P : Chip.t -> Prop) (c : Chip.t) (l : list Chip.t) :
  P c -> Forall P l -> Forall P (insertDesc c l).
Proof.
  intros Hc. induction 1 as [|d l Hd Hl IH]; cbn [insertDesc].
  - repeat constructor. exact Hc.
  - destruct (Qle_bool (Chip.value d) (Chip.value c)).
    + constructor; [exact Hc|]. constructor; assumption.
    + constructor; assumption.
Qed.

Lemma sortDesc_Forall (P : Chip.t -> Prop) (l : list Chip.t) :
  Forall P l -> Forall P (sortDesc l).
Proof.
  unfold sortDesc. induction 1 as [|c l Hc _ IH]; cbn [fold_right].
  - constructor.
  - apply insertDesc_Forall; assumption.
Qed.

Lemma fold_onTrack (amount : Q) (cs : list Chip.t) :
  Forall wholeCents cs ->
  forall acc, onTrack amount acc -> onTrack amount (fold_left takeChip cs acc).
Proof.
  induction 1 as [|c cs Hc _ IH]; intros acc Hacc; cbn [fold_left].
  - exact Hacc.
  - apply IH, takeChip_onTrack; assumption.
Qed.

End WholeCents.

Section WholeCentTrays.

Import PayoutCalculator.

Lemma standardChips_wholeCents : Forall wholeCents standardChips.
Proof.
  unfold standardChips.
  constructor; [exists 100%positive; vm_compute; reflexivity|].
  constructor; [exists 250%positive; vm_compute; reflexivity|].
  constructor; [exists 500%positive; vm_compute; reflexivity|].
  constructor; [exists 2500%positive; vm_compute; reflexivity|].
  constructor; [exists 10000%positive; vm_compute; reflexivity|].
  constructor; [exists 50000%positive; vm_compute; reflexivity|].
  constructor; [exists 100000%positive; vm_compute; reflexivity|].
  constructor.
Qed.

End WholeCentTrays.

(** For any tray whose chips are worth positive whole numbers of cents,
    and any amount: a combination that [calculateOptimalChips] returns has
    only positive counts; for an amount that is not positive it is empty;
    and for a positive amount, count times value summed over it is within
    0.01 of the amount. *)
Theorem calculateOptimalChips_sound
    (chips : list Chip.t) (amount : Q) (combo : list (Chip.t * Z))
    (Hchips : Forall PayoutCalculator.wholeCents chips)
    (Hfound : PayoutCalculator.calculateOptimalChips amount chips = Some combo) :
  Forall (fun item => 0 < snd item) combo /\
  ((amount <= 0)%Q -> combo = []) /\
  ((0 < amount)%Q ->
   (Qabs (PayoutCalculator.totalValue combo - amount) < 0.01)%Q).
Proof.
  unfold PayoutCalculator.calculateOptimalChips in Hfound.
  destruct (Qle_bool amount 0) eqn:Hsign.
  - apply Some_eq in Hfound. subst combo. apply Qle_bool_iff in Hsign.
    split; [constructor|]. split; [reflexivity|].
    intros Hpos. exfalso. apply (Qlt_not_le _ _ Hpos Hsign).
  - cbv zeta in Hfound.
    assert (Hpos : (0 < amount)%Q).
    { apply Qnot_le_lt. intros Hle. apply Qle_bool_iff in Hle. congruence. }
    pose proof (fold_onTrack amount (PayoutCalculator.sortDesc chips)
                  (sortDesc_Forall _ _ Hchips) ([], amount)) as Htrack.
    set (final := fold_left PayoutCalculator.takeChip
                    (PayoutCalculator.sortDesc chips) ([], amount)) in *.
    destruct (PayoutCalculator.Qlt_bool (snd final) PayoutCalculator.tolerance)
      eqn:Hnear; [|discriminate].
    apply Some_eq in Hfound. subst combo.
    apply Qlt_bool_iff in Hnear. unfold PayoutCalculator.tolerance in Hnear.
    destruct Htrack as [Hcounts Hstate].
    { split; [constructor | left; split; reflexivity]. }
    split; [exact Hcounts|].
    split; [intros Hle; exfalso; apply (Qlt_not_le _ _ Hpos Hle)|].
    intros _.
    destruct Hstate as [[Hnil Hall]|(r & Hr & Hrem & Hclose)].
    + rewrite Hnil. rewrite Hall in Hnear.
      apply Qabs_Qlt_condition.
      unfold PayoutCalculator.totalValue; cbn [fold_left]. split; lra.
    + assert (Hzero : r = 0).
      { rewrite Hrem in Hnear.
        assert (Hlt : (inject_Z r < inject_Z 1)%Q).
        { assert (Hdiv : (inject_Z r / 100 == inject_Z r * (1 # 100))%Q)
            by field.
          rewrite Hdiv in Hnear. change (inject_Z 1) with 1%Q. lra. }
        rewrite <- Zlt_Qlt in Hlt. lia. }
      subst r.
      assert (Hnone : (snd final == 0)%Q) by (rewrite Hrem; reflexivity).
      rewrite Hnone in Hclose.
      apply Qabs_Qle_condition in Hclose. apply Qabs_Qlt_condition.
      split; lra.
Qed.

Lemma calculateOptimalChips_sound_witness :
  exists combo : list (Chip.t * Z),
    PayoutCalculator.calculateOptimalChips 37.5 standardChips = Some combo /\
    (Qabs (PayoutCalculator.totalValue combo - 37.5) < 0.01)%Q.
Proof.
  eexists. split; [vm_compute; reflexivity|].
  apply (calculateOptimalChips_sound standardChips 37.5).
  - exact standardChips_wholeCents.
  - vm_compute; reflexivity.
  - reflexivity.
Defined.

Section ComboOrder.

Import PayoutCalculator.

Lemma insertDesc_perm (c : Chip.t) (l : list Chip.t) :
  insertDesc c l ≡ₚ c :: l.
Proof.
  induction l as [|d l IH]; cbn [insertDesc]; [reflexivity|].
  destruct (Qle_bool (Chip.value d) (Chip.value c)); [reflexivity|].
  rewrite IH. apply perm_swap.
Qed.

Lemma sortDesc_perm (l : list Chip.t) : sortDesc l ≡ₚ l.
Proof.
  unfold sortDesc. induction l as [|c l IH]; cbn [fold_right]; [reflexivity|].
  rewrite insertDesc_perm, IH. reflexivity.
Qed.

Lemma insertDesc_sorted (c : Chip.t) (l : list Chip.t) :
  StronglySorted (fun a b => (Chip.value b <= Chip.value a)%Q) l ->
  StronglySorted (fun a b => (Chip.value b <= Chip.value a)%Q) (insertDesc c l).
Proof.
  induction 1 as [|d l Hsorted IH Hd]; cbn [insertDesc].
  - repeat constructor.
  - destruct (Qle_bool (Chip.value d) (Chip.value c)) eqn:Hle.
    + apply Qle_bool_iff in Hle.
      constructor; [constructor; assumption|].
      constructor; [exact Hle|].
      apply (Forall_impl _ _ _ Hd).
      intros b Hb. exact (Qle_trans _ _ _ Hb Hle).
    + assert (Hlt : (Chip.value c <= Chip.value d)%Q).
      { apply Qlt_le_weak, Qnot_le_lt. intros H.
        apply Qle_bool_iff in H. congruence. }
      constructor; [exact IH|].
      apply (Permutation_Forall (Permutation_sym (insertDesc_perm c l))).
      constructor; assumption.
Qed.

Lemma sortDesc_sorted (l : list Chip.t) :
  StronglySorted (fun a b => (Chip.value b <= Chip.value a)%Q) (sortDesc l).
Proof.
  unfold sortDesc. induction l as [|c l IH]; cbn [fold_right].
  - constructor.
  - apply insertDesc_sorted, IH.
Qed.

Lemma takeChip_sublist (cs : list Chip.t) :
  forall (seen : list Chip.t) (acc : list (Chip.t * Z) * Q),
    List.map fst (fst acc) `sublist_of` seen ->
    List.map fst (fst (fold_left takeChip cs acc)) `sublist_of` (seen ++ cs).
Proof.
  induction cs as [|c cs IH]; intros seen acc Hsub; cbn [fold_left].
  - rewrite List.app_nil_r. exact Hsub.
  - replace (seen ++ c :: cs) with ((seen ++ [c]) ++ cs)
      by (rewrite <- List.app_assoc; reflexivity).
    apply IH. unfold takeChip. cbv zeta.
    destruct (0 <? Qfloor (snd acc / Chip.value c)%Q); cbn [fst].
    + rewrite List.map_app. apply sublist_app; [exact Hsub | reflexivity].
    + apply sublist_inserts_r. exact Hsub.
Qed.

Lemma sublist_sorted {A} (R : A -> A -> Prop) (l k : list A) :
  l `sublist_of` k -> StronglySorted R k -> StronglySorted R l.
Proof.
  induction 1 as [|x l k Hsub IH|x l k _ IH]; intros Hk.
  - constructor.
  - apply StronglySorted_inv in Hk as [Hk Hx].
    constructor; [apply IH, Hk|].
    apply List.Forall_forall. intros y Hy.
    apply (proj1 (List.Forall_forall _ _) Hx).
    apply list_elem_of_In. apply list_elem_of_In in Hy.
    eapply elem_of_sublist; eassumption.
  - apply StronglySorted_inv in Hk as [Hk _]. apply IH, Hk.
Qed.

End ComboOrder.

(** The chips of a combination returned by [calculateOptimalChips] are
    chips of the tray, each position of the tray used at most once, and
    they are listed from the highest value down: the list of chips is a
    sub-list of the tray sorted by descending value. *)
Theorem calculateOptimalChips_descending
    (chips : list Chip.t) (amount : Q) (combo : list (Chip.t * Z))
    (Hfound : PayoutCalculator.calculateOptimalChips amount chips = Some combo) :
  exists sorted : list Chip.t,
    sorted ≡ₚ chips /\
    StronglySorted (fun a b => (Chip.value b <= Chip.value a)%Q) sorted /\
    List.map fst combo `sublist_of` sorted /\
    StronglySorted (fun a b => (Chip.value b <= Chip.value a)%Q)
                   (List.map fst combo) /\
    (List.length combo <= List.length chips)%nat.
Proof.
  exists (PayoutCalculator.sortDesc chips).
  assert (Hsub : List.map fst combo
                 `sublist_of` PayoutCalculator.sortDesc chips).
  { unfold PayoutCalculator.calculateOptimalChips in Hfound.
    destruct (Qle_bool amount 0).
    - apply Some_eq in Hfound. subst combo. apply sublist_nil_l.
    - cbv zeta in Hfound.
      destruct (PayoutCalculator.Qlt_bool _ _); [|discriminate].
      apply Some_eq in Hfound. subst combo.
      apply (takeChip_sublist _ [] ([], amount)). constructor. }
  split; [apply sortDesc_perm|].
  split; [apply sortDesc_sorted|].
  split; [exact Hsub|].
  split; [exact (sublist_sorted _ _ _ Hsub (sortDesc_sorted chips))|].
  apply sublist_length in Hsub.
  rewrite List.length_map in Hsub.
  rewrite (Permutation_length (sortDesc_perm chips)) in Hsub. exact Hsub.
Qed.

Lemma calculateOptimalChips_descending_witness :
  exists combo : list (Chip.t * Z),
    PayoutCalculator.calculateOptimalChips 37.5 standardChips = Some combo /\
    List.map (fun item => Chip.label (fst item)) combo
      = ["$25"; "$5"; "$2.50"]%string /\
    (List.length combo <= 7)%nat.
Proof.
  eexists. split; [vm_compute; reflexivity|]. split; [reflexivity|].
  destruct (calculateOptimalChips_descending standardChips 37.5 _
              ltac:(vm_compute; reflexivity))
    as (sorted & _ & _ & _ & _ & Hlen).
  exact Hlen.
Defined.

(** ** Times and the session history *)

Section Times.

Local Open Scope Q_scope.

Lemma Qred_inject_Z (z : Z) : Qred (inject_Z z) = inject_Z z.
Proof.
  unfold Qred, inject_Z.
  pose proof (Z.ggcd_gcd z 1) as Hg.
  pose proof (Z.ggcd_correct_divisors z 1) as Hd.
  destruct (Z.ggcd z 1) as [g [aa bb]]. cbn [fst snd] in Hg, Hd.
  rewrite Z.gcd_1_r in Hg. subst g. destruct Hd as [Ha Hb].
  assert (aa = z) as -> by lia. assert (bb = 1%Z) as -> by lia.
  reflexivity.
Qed.

Lemma Qred_whole (x : Q) (z : Z) : x == inject_Z z -> Qred x = inject_Z z.
Proof.
  intros Heq. rewrite (Qred_complete _ _ Heq). apply Qred_inject_Z.
Qed.

Lemma floor_div_whole (x : Q) (d : positive) :
  Js.floor (Js.div (Js.Finite x) (Js.Finite (inject_Z (Zpos d))))
  = Js.Finite (inject_Z (Qfloor (x / inject_Z (Zpos d)))).
Proof.
  cbn [Js.div]. change (Qeq_bool (inject_Z (Zpos d)) 0) with false.
  cbv iota. unfold Js.finite. cbn [Js.floor].
  rewrite (Qfloor_comp _ _ (Qred_correct (x / inject_Z (Zpos d)))).
  reflexivity.
Qed.

Lemma rem_whole (s : Z) (d : positive) :
  Js.rem (Js.Finite (inject_Z s)) (Js.Finite (inject_Z (Zpos d)))
  = Js.Finite (inject_Z (Z.rem s (Zpos d))).
Proof.
  cbn [Js.rem]. change (Qeq_bool (inject_Z (Zpos d)) 0) with false.
  cbv iota. unfold Js.finite. f_equal. apply Qred_whole.
  assert (Htrunc : Js.Qtrunc (inject_Z s / inject_Z (Zpos d))
                   = Z.quot s (Zpos d)).
  { unfold Js.Qtrunc, Qdiv, Qinv, Qmult, inject_Z. cbn.
    rewrite Z.mul_1_r. reflexivity. }
  rewrite Htrunc. unfold Qminus.
  rewrite <- inject_Z_mult, <- inject_Z_opp, <- inject_Z_plus.
  apply inject_Z_injective.
  pose proof (Z.quot_rem' s (Zpos d)). lia.
Qed.

Lemma gtb_whole (m : Z) :
  Js.gtb (Js.Finite (inject_Z m)) (Js.Finite 0) = (0 <? m)%Z.
Proof.
  cbn [Js.gtb].
  destruct (Z.ltb_spec 0 m) as [Hpos|Hnot].
  - apply negb_true_iff. destruct (Qle_bool _ 0) eqn:E; [|reflexivity].
    apply Qle_bool_iff in E. change 0 with (inject_Z 0) in E.
    rewrite <- Zle_Qle in E. lia.
  - apply negb_false_iff. apply Qle_bool_iff. change 0 with (inject_Z 0).
    rewrite <- Zle_Qle. exact Hnot.
Qed.

(** [formatTime] on a finite number. *)
Lemma formatTime_finite (ms : Js.value) (x : Q) :
  Js.toNumber ms = Js.Finite x ->
  let seconds := Qfloor (x / 1000) in
  GameState.formatTime ms
  = if (0 <? seconds / 60)%Z
    then GameState.MinutesSeconds (Js.Finite (inject_Z (seconds / 60)))
                                  (Js.Finite (inject_Z (Z.rem seconds 60)))
    else GameState.SecondsOnly (Js.Finite (inject_Z (Z.rem seconds 60))).
Proof.
  intros Hnum seconds. unfold GameState.formatTime. cbv zeta. rewrite Hnum.
  change (Js.Finite 1000) with (Js.Finite (inject_Z (Zpos 1000))).
  change (Js.Finite 60) with (Js.Finite (inject_Z (Zpos 60))).
  rewrite !floor_div_whole. change (inject_Z (Zpos 1000)) with 1000.
  fold seconds. rewrite <- Zdiv_Qdiv, rem_whole, gtb_whole.
  reflexivity.
Qed.

End Times.

(** What [formatTime] shows, for everything it is given.  For a finite
    duration that is not negative (and for [null], which counts as 0) the
    text stands for the whole seconds of the duration: minutes times 60
    plus seconds is the duration in seconds, rounded down, the seconds
    shown are between 0 and 59, and minutes are shown from one minute on.
    For a negative finite duration no minutes are shown and the seconds
    are between -59 and 0.  For [Infinity], the average time once
    [updateSessionStats] has divided by a count of 0, the text is
    [Infinitym NaNs]; for [NaN] and [-Infinity] it is [NaNs]. *)
Theorem formatTime_whole_seconds (ms : Js.value) :
  (forall x : Q,
      Js.toNumber ms = Js.Finite x -> (0 <= x)%Q ->
      exists m s : Z,
        60 * m + s = Qfloor (x / 1000)%Q /\ 0 <= m /\ 0 <= s < 60 /\
        GameState.formatTime ms
        = if 0 <? m
          then GameState.MinutesSeconds (Js.Finite (inject_Z m))
                                        (Js.Finite (inject_Z s))
          else GameState.SecondsOnly (Js.Finite (inject_Z s))) /\
  (forall x : Q,
      Js.toNumber ms = Js.Finite x -> (x < 0)%Q ->
      exists s : Z,
        -60 < s <= 0 /\
        GameState.formatTime ms = GameState.SecondsOnly (Js.Finite (inject_Z s))) /\
  (ms = Js.Number Js.Infinity ->
   GameState.formatTime ms = GameState.MinutesSeconds Js.Infinity Js.NaN) /\
  (ms = Js.Number Js.NaN \/ ms = Js.Number Js.NegInfinity ->
   GameState.formatTime ms = GameState.SecondsOnly Js.NaN) /\
  (ms = Js.Null ->
   GameState.formatTime ms = GameState.SecondsOnly (Js.Finite (inject_Z 0))).
Proof.
  split; [|split; [|split; [|split]]].
  - intros x Hnum Hx.
    rewrite (formatTime_finite ms x Hnum). cbv zeta.
    set (seconds := Qfloor (x / 1000)%Q).
    assert (Hsec : 0 <= seconds).
    { apply (Qfloor_resp_le 0 (x / 1000)%Q).
      apply Qle_shift_div_l; [reflexivity | lra]. }
    exists (seconds / 60), (Z.rem seconds 60).
    rewrite Z.rem_mod_nonneg by lia.
    pose proof (Z.mod_pos_bound seconds 60 ltac:(lia)).
    pose proof (Z.div_mod seconds 60 ltac:(lia)).
    pose proof (Z.div_pos seconds 60 Hsec ltac:(lia)).
    repeat split; lia.
  - intros x Hnum Hx.
    rewrite (formatTime_finite ms x Hnum). cbv zeta.
    set (seconds := Qfloor (x / 1000)%Q).
    assert (Hsec : seconds < 0).
    { pose proof (Qfloor_le (x / 1000)%Q) as Hle. fold seconds in Hle.
      assert (Hneg : (inject_Z seconds < inject_Z 0)%Q).
      { eapply Qle_lt_trans; [exact Hle|].
        assert (Hthousandth : (x / 1000 == x * (1 # 1000))%Q) by field.
        rewrite Hthousandth. change (inject_Z 0) with 0%Q. lra. }
      rewrite <- Zlt_Qlt in Hneg. exact Hneg. }
    assert (Hmin : seconds / 60 < 0) by (apply Z.div_lt_upper_bound; lia).
    destruct (Z.ltb_spec 0 (seconds / 60)) as [Hpos|_]; [lia|].
    exists (Z.rem seconds 60). split; [|reflexivity].
    pose proof (Z.rem_bound_pos_neg seconds 60 ltac:(lia) ltac:(lia)).
    lia.
  - intros ->. reflexivity.
  - intros [-> | ->]; reflexivity.
  - intros ->. reflexivity.
Qed.

Lemma formatTime_whole_seconds_witness :
  GameState.formatTime (Js.Number (Js.Finite 125500))
    = GameState.MinutesSeconds (Js.Finite 2) (Js.Finite 5) /\
  GameState.formatTime (Js.Number (Js.Finite 59999))
    = GameState.SecondsOnly (Js.Finite 59) /\
  GameState.formatTime (Js.Number Js.Infinity)
    = GameState.MinutesSeconds Js.Infinity Js.NaN /\
  GameState.formatTime (Js.Number Js.NaN) = GameState.SecondsOnly Js.NaN.
Proof.
  split; [|split; [|split]].
  - destruct (proj1 (formatTime_whole_seconds (Js.Number (Js.Finite 125500)))
                125500%Q eq_refl ltac:(discriminate))
      as (m & s & Hsum & Hm & Hs & ->).
    change (Qfloor (125500 / 1000)%Q) with 125 in Hsum.
    assert (m = 2) as -> by lia. assert (s = 5) as -> by lia.
    reflexivity.
  - destruct (proj1 (formatTime_whole_seconds (Js.Number (Js.Finite 59999)))
                59999%Q eq_refl ltac:(discriminate))
      as (m & s & Hsum & Hm & Hs & ->).
    change (Qfloor (59999 / 1000)%Q) with 59 in Hsum.
    assert (m = 0) as -> by lia. assert (s = 59) as -> by lia.
    reflexivity.
  - apply (proj1 (proj2 (proj2 (formatTime_whole_seconds
                                   (Js.Number Js.Infinity))))).
    reflexivity.
  - apply (proj1 (proj2 (proj2 (proj2 (formatTime_whole_seconds
                                          (Js.Number Js.NaN)))))).
    left. reflexivity.
Defined.

Section History.

Import GameState.

Lemma filter_sublist (f : SessionData -> bool) (l : list SessionData) :
  List.filter f l `sublist_of` l.
Proof.
  induction l as [|x l IH]; cbn [List.filter]; [constructor|].
  destruct (f x); [apply sublist_skip | apply sublist_cons]; exact IH.
Qed.

Lemma filter_all (f : SessionData -> bool) (l : list SessionData) :
  Forall (fun x => f x = true) l -> List.filter f l = l.
Proof.
  induction 1 as [|x l Hx _ IH]; cbn [List.filter]; [reflexivity|].
  rewrite Hx, IH. reflexivity.
Qed.

Lemma filter_Forall (f : SessionData -> bool) (l : list SessionData) :
  Forall (fun x => f x = true) (List.filter f l).
Proof.
  apply List.Forall_forall. intros x Hx.
  apply List.filter_In in Hx as [_ Hx]. exact Hx.
Qed.

Lemma lastEntries_snoc (n : nat) (l : list SessionData) (x : SessionData) :
  lastEntries (S n) (l ++ [x]) = lastEntries n l ++ [x].
Proof.
  unfold lastEntries. rewrite List.length_app. cbn [List.length].
  replace (List.length l + 1 - S n)%nat with (List.length l - n)%nat by lia.
  apply drop_app_le. lia.
Qed.

Lemma lastEntries_length (n : nat) (l : list SessionData) :
  (List.length (lastEntries n l) <= n)%nat.
Proof. unfold lastEntries. rewrite length_drop. lia. Qed.

Lemma lastEntries_short (n : nat) (l : list SessionData) :
  (List.length l <= n)%nat -> lastEntries n l = l.
Proof.
  intros Hle. unfold lastEntries.
  replace (List.length l - n)%nat with O by lia. reflexivity.
Qed.

End History.

(** The stored history is a rolling record of days.  When an answer has
    been given, [saveToHistory] leaves at most 30 entries, ends the list
    with today's entry, which is the only entry of today's date, and keeps
    before it, in their order, the latest 29 of the old entries of other
    dates; saving again on the same day with the same readings changes
    nothing.  When no answer has been given the history is left as it
    is. *)
Theorem saveToHistory_rolls
    (today : string) (now accuracy : Z) (rating : string)
    (g : GameState.t) (history : list GameState.SessionData) :
  let saved := GameState.saveToHistory today now accuracy rating g history in
  let entry := GameState.mkSession today (GameState.score g)
                 (GameState.sessionStats g) accuracy rating now in
  (0 < GameState.total (GameState.score g) ->
   (List.length saved <= 30)%nat /\
   (exists kept : list GameState.SessionData,
       saved = kept ++ [entry] /\
       Forall (fun e => GameState.date e <> today) kept /\
       kept `sublist_of` history /\
       kept = GameState.lastEntries 29
                (List.filter
                   (fun e => negb (GameState.date e =? today)%string) history)) /\
   GameState.saveToHistory today now accuracy rating g saved = saved) /\
  (GameState.total (GameState.score g) <= 0 -> saved = history).
Proof.
  cbv zeta. unfold GameState.saveToHistory.
  cbn [GameState.date].
  destruct (Z.ltb_spec 0 (GameState.total (GameState.score g))) as [Hpos|Hnone];
    [|split; [lia | reflexivity]].
  split; [intros _ | lia].
  set (entry := GameState.mkSession today (GameState.score g)
                  (GameState.sessionStats g) accuracy rating now).
  set (others := List.filter
                   (fun e => negb (GameState.date e =? today)%string) history).
  rewrite (lastEntries_snoc 29 others entry).
  set (kept := GameState.lastEntries 29 others).
  assert (Hkept : Forall (fun e => negb (GameState.date e =? today)%string = true)
                         kept).
  { unfold kept, GameState.lastEntries. apply Forall_drop.
    apply filter_Forall. }
  assert (Hlen : (List.length kept <= 29)%nat) by apply lastEntries_length.
  split; [rewrite List.length_app; cbn; lia|].
  split.
  { exists kept. split; [reflexivity|]. split; [|split; [|reflexivity]].
    - apply (Forall_impl _ _ _ Hkept). intros e He Heq.
      apply negb_true_iff, String.eqb_neq in He. contradiction.
    - unfold kept, GameState.lastEntries.
      etransitivity; [apply sublist_drop | apply filter_sublist]. }
  rewrite List.filter_app. cbn [List.filter GameState.date].
  rewrite String.eqb_refl. cbn [negb]. rewrite List.app_nil_r.
  rewrite (filter_all _ kept Hkept).
  apply lastEntries_short. rewrite List.length_app. cbn. lia.
Qed.

Lemma saveToHistory_rolls_witness :
  let g := GameState.recordCorrect GameState.new in
  let old := GameState.mkSession "2024-05-01" (GameState.mkScore 1 2 0)
               (GameState.mkStats 1 1 0) 50 "Needs Practice" 10 in
  let stale := GameState.mkSession "2024-05-02" (GameState.mkScore 0 1 0)
                 (GameState.mkStats 0 0 0) 0 "Needs Practice" 20 in
  List.map GameState.date
    (GameState.saveToHistory "2024-05-02" 30 100 "Excellent" g [old; stale])
  = ["2024-05-01"; "2024-05-02"]%string /\
  (List.length
     (GameState.saveToHistory "2024-05-02" 30 100 "Excellent" g [old; stale])
   <= 30)%nat.
Proof.
  cbv zeta. split; [reflexivity|].
  apply (saveToHistory_rolls "2024-05-02" 30 100 "Excellent"
           (GameState.recordCorrect GameState.new)).
  cbn. lia.
Defined.

(** ** Sets of scenarios *)

Section Balanced.

Import ScenarioManager.

Lemma pushTimes_spec (P : BlackjackScenario.t -> Prop)
    (generate : Gen BlackjackScenario.t) :
  (forall m sc m', generate m = Returned sc m' -> P sc) ->
  forall (n : nat) (scenarios out : list BlackjackScenario.t) (m m' : t),
    pushTimes n generate scenarios m = Returned out m' ->
    exists added : list BlackjackScenario.t,
      out = scenarios ++ added /\ List.length added = n /\ Forall P added.
Proof.
  intros Hgen. induction n as [|n IH]; intros scenarios out m m' Hrun;
    cbn [pushTimes] in Hrun.
  - apply Returned_eq in Hrun. subst out. exists [].
    split; [symmetry; apply List.app_nil_r|]. split; [reflexivity | constructor].
  - unfold bind in Hrun.
    destruct (generate m) as [sc m1| |] eqn:Hone; try discriminate.
    destruct (IH _ _ _ _ Hrun) as (added & -> & Hlen & Hall).
    exists (sc :: added). rewrite <- List.app_assoc.
    split; [reflexivity|]. split; [cbn; lia|].
    constructor; [exact (Hgen _ _ _ Hone) | exact Hall].
Qed.

Lemma generateUntil_result (left steps : nat) (resultType : string) :
  forall (m m' : t) (sc : BlackjackScenario.t),
    generateUntil left steps resultType m = Returned sc m' ->
    BlackjackScenario.result sc = "blackjack"%string.
Proof.
  induction left as [|left IH]; intros m m' sc Hrun;
    cbn [generateUntil] in Hrun; unfold bind in Hrun;
    destruct (generateScenario steps m) as [sc0 m1| |] eqn:Hgen;
    try discriminate;
    pose proof (generateScenario_result _ _ _ _ Hgen) as Hres;
    destruct (negb (BlackjackScenario.result sc0 =? resultType)%string).
  - apply Returned_eq in Hrun. subst sc. exact Hres.
  - apply Returned_eq in Hrun. subst sc. exact Hres.
  - exact (IH _ _ _ Hrun).
  - apply Returned_eq in Hrun. subst sc. exact Hres.
Qed.

Lemma pushPerType_spec (types : list string) (perType steps : nat) :
  forall (scenarios out : list BlackjackScenario.t) (m m' : t),
    pushPerType types perType steps scenarios m = Returned out m' ->
    exists added : list BlackjackScenario.t,
      out = scenarios ++ added /\
      List.length added = (List.length types * perType)%nat /\
      Forall (fun sc => BlackjackScenario.result sc = "blackjack"%string) added.
Proof.
  induction types as [|rt types IH]; intros scenarios out m m' Hrun;
    cbn [pushPerType] in Hrun.
  - apply Returned_eq in Hrun. subst out. exists [].
    split; [symmetry; apply List.app_nil_r|]. split; [reflexivity | constructor].
  - unfold bind in Hrun.
    destruct (pushTimes perType (generateScenarioWithResult steps rt)
                scenarios m) as [mid m1| |] eqn:Hpush; try discriminate.
    apply (pushTimes_spec
             (fun sc => BlackjackScenario.result sc = "blackjack"%string))
      in Hpush as (first & -> & Hlen1 & Hall1).
    + destruct (IH _ _ _ _ Hrun) as (more & -> & Hlen2 & Hall2).
      exists (first ++ more). rewrite <- List.app_assoc.
      split; [reflexivity|].
      split; [rewrite List.length_app; cbn; lia|].
      apply Forall_app; split; assumption.
    + intros m0 sc m0' Hgen.
      exact (generateUntil_result _ _ _ _ _ _ Hgen).
Qed.

Lemma swapScenarios_perm (i j : nat) (l : list BlackjackScenario.t) :
  swapScenarios i j l ≡ₚ l.
Proof.
  unfold swapScenarios.
  destruct (l !! i) as [si|] eqn:Hi; [|reflexivity].
  destruct (l !! j) as [sj|] eqn:Hj; [|reflexivity].
  apply Permutation_insert_swap; assumption.
Qed.

Lemma shuffleScenariosFrom_perm (i : nat) :
  forall (l : list BlackjackScenario.t) (r : Random),
    fst (shuffleScenariosFrom i l r) ≡ₚ l.
Proof.
  induction i as [|i IH]; intros l r; cbn [shuffleScenariosFrom].
  - reflexivity.
  - unfold randomBelow. rewrite IH. apply swapScenarios_perm.
Qed.

(** What [generateBalancedScenarios] returns, when it returns. *)
Lemma generateBalancedScenarios_result (steps count : nat) (m m' : t)
    (scenarios : list BlackjackScenario.t) :
  generateBalancedScenarios steps count m = Returned scenarios m' ->
  List.length scenarios = count /\
  Forall (fun sc => BlackjackScenario.result sc = "blackjack"%string) scenarios.
Proof.
  intros Hrun.
  unfold generateBalancedScenarios, bind in Hrun.
  cbv zeta in Hrun.
  destruct (pushPerType _ _ _ _ m) as [typed m1| |] eqn:Htyped;
    try discriminate.
  apply pushPerType_spec in Htyped as (added & -> & Hlen & Hall).
  cbn [app] in Hrun.
  destruct (pushTimes _ _ _ m1) as [filled m2| |] eqn:Hfill;
    try discriminate.
  apply (pushTimes_spec
           (fun sc => BlackjackScenario.result sc = "blackjack"%string))
    in Hfill as (more & -> & Hlen2 & Hall2);
    [|intros m0 sc m0' Hgen; exact (generateScenario_result _ _ _ _ Hgen)].
  pose proof (shuffleScenariosFrom_perm
                (List.length (added ++ more) - 1) (added ++ more)
                (random m2)) as Hperm.
  destruct (shuffleScenariosFrom _ _ _) as [shuffled r].
  apply Returned_eq in Hrun. subst shuffled. cbn [fst] in Hperm.
  split.
  - rewrite (Permutation_length Hperm), List.length_app, Hlen2, Hlen.
    cbn [List.length resultTypes].
    pose proof (Nat.Div0.mul_div_le count 4). lia.
  - apply (Permutation_Forall (Permutation_sym Hperm)).
    apply Forall_app; split; assumption.
Qed.

(** *** Every run returns

    A step bound that is enough for the loops of one scenario on a deck
    is enough on every deck met later, since no deck outgrows the larger
    of the first deck and a rebuilt one. *)

Lemma redrawSecond_length (steps : nat) :
  forall (first second c : Card.t) (m m' : t),
    redrawSecond steps first second m = Returned c m' ->
    (List.length (deck m') <= Nat.max (List.length (deck m)) 51)%nat.
Proof.
  induction steps as [|steps IH]; intros first second c m m' Hrun;
    cbn [redrawSecond] in Hrun;
    destruct ((Card.value first =? 11) && (Card.value second =? 10)).
  - discriminate.
  - unfold ret in Hrun. injection Hrun as _ <-. lia.
  - unfold bind in Hrun.
    destruct (dealCard m) as [next m1| |] eqn:Hdeal; try discriminate.
    pose proof (dealCard_length _ _ _ Hdeal).
    pose proof (IH _ _ _ _ _ Hrun). lia.
  - unfold ret in Hrun. injection Hrun as _ <-. lia.
Qed.

Lemma dealerPlay_length (steps : nat) :
  forall (h h' : Hand.t) (m m' : t),
    dealerPlay steps h m = Returned h' m' ->
    (List.length (deck m') <= Nat.max (List.length (deck m)) 51)%nat.
Proof.
  induction steps as [|steps IH]; intros h h' m m' Hrun;
    cbn [dealerPlay] in Hrun;
    destruct ((Hand.value h <? 17) && negb (Hand.isBust h)).
  - discriminate.
  - unfold ret in Hrun. injection Hrun as _ <-. lia.
  - unfold bind in Hrun.
    destruct (dealCard m) as [card m1| |] eqn:Hdeal; try discriminate.
    pose proof (dealCard_length _ _ _ Hdeal).
    pose proof (IH _ _ _ _ Hrun). lia.
  - unfold ret in Hrun. injection Hrun as _ <-. lia.
Qed.

Lemma dealDealer_length (steps : nat) (h : Hand.t) (m m' : t) :
  dealDealer steps m = Returned h m' ->
  (List.length (deck m') <= Nat.max (List.length (deck m)) 51)%nat.
Proof.
  unfold dealDealer, bind. intros Hrun.
  destruct (dealCard m) as [first m1| |] eqn:Hfirst; try discriminate.
  destruct (dealCard m1) as [second m2| |] eqn:Hsecond; try discriminate.
  destruct (redrawSecond steps first second m2) as [c m3| |] eqn:Hredraw;
    try discriminate.
  pose proof (dealCard_length _ _ _ Hfirst).
  pose proof (dealCard_length _ _ _ Hsecond).
  pose proof (redrawSecond_length _ _ _ _ _ _ Hredraw).
  pose proof (dealerPlay_length _ _ _ _ _ Hrun). lia.
Qed.

(** One scenario: the generator returns, and the bound is still enough
    for the deck it leaves. *)
Lemma generateScenario_ends (steps : nat) (m : t) :
  roomy steps m ->
  exists (sc : BlackjackScenario.t) (m' : t),
    generateScenario steps m = Returned sc m' /\ roomy steps m'.
Proof.
  unfold roomy. intros Hsteps. unfold generateScenario, bind.
  destruct (dealPlayer_spec (shuffleDeck m))
    as (ace & ten & m1 & -> & _ & _ & Hlen).
  rewrite shuffleDeck_length in Hlen.
  destruct (dealDealer_ends steps m1) as (dh & m2 & Hdealer); [lia|].
  rewrite Hdealer. pose proof (dealDealer_length _ _ _ _ Hdealer).
  destruct (pickBet_spec m2) as (bet & m3 & -> & Hdeck & _).
  eexists _, _. split; [reflexivity|]. rewrite Hdeck. lia.
Qed.

Lemma generateUntil_ends (left steps : nat) (resultType : string) :
  forall m : t,
    roomy steps m ->
    exists (sc : BlackjackScenario.t) (m' : t),
      generateUntil left steps resultType m = Returned sc m' /\
      roomy steps m'.
Proof.
  induction left as [|left IH]; intros m Hsteps; cbn [generateUntil];
    unfold bind;
    destruct (generateScenario_ends steps m Hsteps) as (sc & m1 & -> & Hnext);
    destruct (negb (BlackjackScenario.result sc =? resultType)%string).
  - exists sc, m1. split; [reflexivity | exact Hnext].
  - exists sc, m1. split; [reflexivity | exact Hnext].
  - exact (IH m1 Hnext).
  - exists sc, m1. split; [reflexivity | exact Hnext].
Qed.

Lemma pushTimes_ends (steps : nat) (generate : Gen BlackjackScenario.t) :
  (forall m : t,
      roomy steps m ->
      exists (sc : BlackjackScenario.t) (m' : t),
        generate m = Returned sc m' /\ roomy steps m') ->
  forall (n : nat) (scenarios : list BlackjackScenario.t) (m : t),
    roomy steps m ->
    exists (out : list BlackjackScenario.t) (m' : t),
      pushTimes n generate scenarios m = Returned out m' /\ roomy steps m'.
Proof.
  intros Hgen. induction n as [|n IH]; intros scenarios m Hsteps;
    cbn [pushTimes].
  - exists scenarios, m. split; [reflexivity | exact Hsteps].
  - unfold bind.
    destruct (Hgen m Hsteps) as (sc & m1 & -> & Hnext).
    exact (IH _ m1 Hnext).
Qed.

Lemma pushPerType_ends (types : list string) (perType steps : nat) :
  forall (scenarios : list BlackjackScenario.t) (m : t),
    roomy steps m ->
    exists (out : list BlackjackScenario.t) (m' : t),
      pushPerType types perType steps scenarios m = Returned out m' /\
      roomy steps m'.
Proof.
  induction types as [|rt types IH]; intros scenarios m Hsteps;
    cbn [pushPerType].
  - exists scenarios, m. split; [reflexivity | exact Hsteps].
  - unfold bind.
    destruct (pushTimes_ends steps (generateScenarioWithResult steps rt)
                (generateUntil_ends _ steps rt) perType scenarios m Hsteps)
      as (mid & m1 & -> & Hnext).
    exact (IH mid m1 Hnext).
Qed.

(** [generateBalancedScenarios] returns, for every count. *)
Lemma generateBalancedScenarios_ends (steps count : nat) (m : t) :
  roomy steps m ->
  exists (scenarios : list BlackjackScenario.t) (m' : t),
    generateBalancedScenarios steps count m = Returned scenarios m'.
Proof.
  intros Hsteps. unfold generateBalancedScenarios, bind. cbv zeta.
  destruct (pushPerType_ends resultTypes
              (count / List.length resultTypes) steps [] m Hsteps)
    as (typed & m1 & -> & Hnext).
  destruct (pushTimes_ends steps (generateScenario steps)
              (generateScenario_ends steps)
              (count - List.length typed) typed m1 Hnext)
    as (filled & m2 & -> & _).
  destruct (shuffleScenariosFrom _ _ _) as [shuffled r].
  eexists _, _. reflexivity.
Qed.

End Balanced.

(** [generateBalancedScenarios(count)] returns, for every count, every
    deck and every run of [Math.random], the loops ending within a number
    of turns bounded by the size of the deck; it returns exactly [count]
    scenarios, and none of them is a win, a loss or a push: every
    scenario of the returned array has the result ['blackjack']. *)
Theorem generateBalancedScenarios_all_blackjack
    (count : nat) (m : ScenarioManager.t) :
  (forall steps : nat,
      (Nat.max (List.length (ScenarioManager.deck m)) 51 + 18 <= steps)%nat ->
      exists scenarios m',
        ScenarioManager.generateBalancedScenarios steps count m
        = ScenarioManager.Returned scenarios m') /\
  (forall (steps : nat) (scenarios : list BlackjackScenario.t)
          (m' : ScenarioManager.t),
      ScenarioManager.generateBalancedScenarios steps count m
      = ScenarioManager.Returned scenarios m' ->
      List.length scenarios = count /\
      Forall (fun sc => BlackjackScenario.result sc = "blackjack"%string)
             scenarios).
Proof.
  split.
  - intros steps Hsteps.
    exact (generateBalancedScenarios_ends steps count m Hsteps).
  - intros steps scenarios m' Hrun.
    exact (generateBalancedScenarios_result steps count m m' scenarios Hrun).
Qed.

(** Six scenarios from a new manager: one is asked for of each result
    type, which takes 1 + 3 * 50 generations, and two fill the set. *)
Lemma generateBalancedScenarios_all_blackjack_witness :
  let m := ScenarioManager.new (ScenarioManager.mkRandom (fun k => k) O) in
  exists scenarios m',
    ScenarioManager.generateBalancedScenarios 70 6 m
    = ScenarioManager.Returned scenarios m' /\
    List.length scenarios = 6%nat /\
    Forall (fun sc => BlackjackScenario.result sc = "blackjack"%string)
           scenarios.
Proof.
  cbv zeta.
  destruct (generateBalancedScenarios_all_blackjack 6
              (ScenarioManager.new (ScenarioManager.mkRandom (fun k => k) O)))
    as [Hends Hresult].
  destruct (Hends 70%nat) as (scenarios & m' & Hrun);
    [vm_compute; repeat constructor|].
  exists scenarios, m'. split; [exact Hrun|].
  exact (Hresult 70%nat scenarios m' Hrun).
Defined.
